(** * x-rates scrapper: a shallow embedding of [main.py]

    The development follows the source file function by function:
    - Python built-ins the program relies on ([str.split], [max], float
      division, dictionary lookup; [str.lower] is taken as a parameter);
    - [extract_date] and the per-line record builder of [main];
    - the bounded retry loop and the year loop of [main];
    - [touch_excel], [writing_all_file] (the historical merge),
      [update_input_file] and [main];
    - [convert_price_for_uom].

    Tables (pandas data frames) are lists of rows in index order, Excel files
    are finite maps from sheet names to tables, Python dictionaries are
    [gmap]s, numbers that the program keeps as Python floats are binary64
    floats, and the integers [Year] and [Month] are [Z].  Effects (the file
    system, the network, the clock, [time.sleep]) are threaded through an
    explicit world, with Python exceptions as a result type; a write of a
    sheet can be refused by the disk, and then raises. *)

From Stdlib Require Import ZArith Floats Ascii String List Permutation Sorted Lia.
From stdpp Require Import base option list gmap strings pretty.

Set Warnings "-inexact-float".

Local Open Scope Z_scope.

(** ** Python exceptions and results *)

Inductive exn : Type :=
| KeyError (key : string)
| ValueError (msg : string)
| ZeroDivisionError
| FileNotFoundError (path : string)
| OverflowError
| PermissionError
| Exception (msg : string).

Inductive result (A : Type) : Type :=
| Ok (a : A)
| Raise (e : exn).
Arguments Ok {A} a.
Arguments Raise {A} e.

Definition is_ok {A} (r : result A) : bool :=
  match r with Ok _ => true | Raise _ => false end.

Definition result_bind {A B} (r : result A) (k : A → result B) : result B :=
  match r with
  | Ok a => k a
  | Raise e => Raise e
  end.

(** ** Python built-ins *)

Module Py.

(** [a / b] on floats: raises [ZeroDivisionError] when the divisor compares
    equal to zero (either sign), and is IEEE division otherwise. *)
Definition truediv (a b : float) : result float :=
  if PrimFloat.eqb b 0%float then Raise ZeroDivisionError
  else Ok (PrimFloat.div a b).

(** [max(xs)] on a sequence of integers: raises [ValueError] on the empty
    sequence. *)
Definition max (xs : list Z) : result Z :=
  match xs with
  | [] => Raise (ValueError "max() arg is an empty sequence")
  | x :: rest => Ok (foldl Z.max x rest)
  end.

(** [s.split(sep)] with an explicit one-character separator: every
    occurrence of the separator cuts, so consecutive separators give empty
    tokens and the result is never empty. *)
Fixpoint split (sep : ascii) (s : string) : list string :=
  match s with
  | EmptyString => [EmptyString]
  | String c rest =>
      if Ascii.eqb c sep then EmptyString :: split sep rest
      else
        match split sep rest with
        | [] => [String c EmptyString]
        | tok :: toks => String c tok :: toks
        end
  end.

(** [d[k]] on a dictionary with string keys. *)
Definition getitem {V} (d : gmap string V) (k : string) : result V :=
  match d !! k with
  | Some v => Ok v
  | None => Raise (KeyError k)
  end.

(** [os.path.join(a, b)] for a relative second component. *)
Definition path_join (a b : string) : string := a +:+ "/" +:+ b.

End Py.

(** ** Rows of the historical table *)

(** One row of a per-currency sheet: the columns [Currency 1], [Currency 2],
    [Year], [Month], [<curr> to USD] and [USD to <curr>]. *)
Record RateRecord : Type := mkRate {
  Currency_1 : string;
  Currency_2 : string;
  Year : Z;
  Month : Z;
  to_USD : float;
  from_USD : float
}.

Abbreviation DataFrame := (list RateRecord).

(** The [(Year, Month)] pair that [drop_duplicates] and [sort_values] look
    at. *)
Definition period (r : RateRecord) : Z * Z := (Year r, Month r).

(** ** pandas operations used by the merge *)

Module Pd.

(** [pd.concat([a, b], ignore_index=True)]. *)
Definition concat (a b : DataFrame) : DataFrame := a ++ b.

(** [df.drop(index=i)] on a frame with the default range index. *)
Definition drop (df : DataFrame) (i : Z) : DataFrame := delete (Z.to_nat i) df.

(** [df.drop_duplicates(subset=...)] with the subset columns read by
    [key]: a row is kept when no earlier row has the same key
    (keep='first'). *)
Fixpoint drop_duplicates_seen {A K : Type} `{EqDecision K} (key : A → K)
    (seen : list K) (df : list A) : list A :=
  match df with
  | [] => []
  | r :: rest =>
      if bool_decide (key r ∈ seen) then drop_duplicates_seen key seen rest
      else r :: drop_duplicates_seen key (key r :: seen) rest
  end.

Definition drop_duplicates {A K : Type} `{EqDecision K} (key : A → K)
    (df : list A) : list A :=
  drop_duplicates_seen key [] df.

(** The order of [sort_values(by=['Year','Month'], ascending=False)]:
    [a] may stand before [b]. *)
Definition before (a b : RateRecord) : bool :=
  (Year b <? Year a) || ((Year b =? Year a) && (Month b <=? Month a)).

(** Stable insertion: the new row goes in front of the first row it may
    stand before, so rows with equal pairs keep their input order. *)
Fixpoint insert_desc (r : RateRecord) (sorted : DataFrame) : DataFrame :=
  match sorted with
  | [] => [r]
  | s :: rest =>
      if before r s then r :: s :: rest else s :: insert_desc r rest
  end.

(** [df.sort_values(by=['Year','Month'], ascending=False)]. *)
Fixpoint sort_values (df : DataFrame) : DataFrame :=
  match df with
  | [] => []
  | r :: rest => insert_desc r (sort_values rest)
  end.

End Pd.

(** ** The world the program runs in *)

(** One row of the input tracking table: the columns [Initial Currency] and
    [Fetched Year] (the other columns are carried along untouched and are
    not modelled). *)
Record InputRow : Type := mkInput {
  Initial_Currency : string;
  Fetched_Year : Z
}.

(** What the program does to the outside, newest first. *)
Inductive Event : Type :=
| EvGet (curr : string) (year : Z)
| EvSleep (seconds : Z)
| EvWriteRates (path sheet : string)
| EvWriteInputs (path sheet : string).

(** Rate workbooks (the historical file and the backups) by path, the
    progress workbooks by path, the number of HTTP requests issued so far,
    the event log, and the number of sheet writes attempted so far.  Sheets
    are taken to be well typed: a rate sheet has integer [Year] and [Month]
    columns, so the inner [except] of the scan in [writing_all_file] never
    fires. *)
Record World : Type := mkWorld {
  files : gmap string (gmap string DataFrame);
  inputs : gmap string (gmap string (list InputRow));
  requests : nat;
  log : list Event;
  writes : nat
}.

(** State and exceptions: a statement maps a world to the world it leaves
    behind and either a value or the exception it raised.  The effects of a
    statement that raises persist. *)
Definition M (A : Type) : Type := World → World * result A.

Definition ret {A} (a : A) : M A := λ w, (w, Ok a).
Definition raise {A} (e : exn) : M A := λ w, (w, Raise e).
Definition lift {A} (r : result A) : M A := λ w, (w, r).

Definition bind {A B} (m : M A) (k : A → M B) : M B :=
  λ w, match m w with
       | (w', Ok a) => k a w'
       | (w', Raise e) => (w', Raise e)
       end.

(** [try: body  except: handler] with a bare [except]. *)
Definition try_except {A} (body handler : M A) : M A :=
  λ w, match body w with
       | (w', Ok a) => (w', Ok a)
       | (w', Raise _) => handler w'
       end.

Declare Scope py_scope.
Delimit Scope py_scope with py.
Notation "x <- m ;; k" := (bind m (λ x, k))
  (at level 100, m at next level, right associativity) : py_scope.
Notation "m ;; k" := (bind m (λ _, k))
  (at level 100, right associativity) : py_scope.

Definition emit (e : Event) : M unit :=
  λ w, (mkWorld (files w) (inputs w) (requests w) (e :: log w) (writes w), Ok tt).

(** ** Excel input and output *)

(** Writing sheet [sheet_name] of a workbook: a missing file is created with
    that single sheet, an existing one has the sheet added or replaced
    ([mode='a', if_sheet_exists='replace']). *)
Definition put_sheet {T} (df : T) (sheet_name : string)
    (wb : option (gmap string T)) : gmap string T :=
  match wb with
  | None => {[ sheet_name := df ]}
  | Some sheets => <[ sheet_name := df ]> sheets
  end.

Section Excel.

(** The disk: what the [k]-th sheet write of the run runs into.  [None]
    says that [to_excel] wrote the sheet; [Some e] says that it raised [e]
    and wrote nothing. *)
Variable disk : nat → option exn.

(** The [try] of [touch_excel] around [to_excel]: a [PermissionError] is
    raised again as [Exception("File might be open. Close it.")], any other
    exception leaves the function as it is. *)
Definition write_outcome (attempt : nat) : option exn :=
  match disk attempt with
  | None => None
  | Some PermissionError => Some (Exception "File might be open. Close it.")
  | Some e => Some e
  end.

(** [touch_excel(df, file_path, sheet_name)] on a rate table.  The optional
    [add_df] is never passed by this program. *)
Definition touch_excel (df : DataFrame) (file_path sheet_name : string) : M unit :=
  λ w, match write_outcome (writes w) with
       | None =>
           (mkWorld (<[ file_path := put_sheet df sheet_name (files w !! file_path) ]> (files w))
                    (inputs w) (requests w)
                    (EvWriteRates file_path sheet_name :: log w) (S (writes w)), Ok tt)
       | Some e =>
           (mkWorld (files w) (inputs w) (requests w) (log w) (S (writes w)), Raise e)
       end.

(** [touch_excel] on the input tracking table. *)
Definition touch_excel_inputs (df : list InputRow) (file_path sheet_name : string) : M unit :=
  λ w, match write_outcome (writes w) with
       | None =>
           (mkWorld (files w)
                    (<[ file_path := put_sheet df sheet_name (inputs w !! file_path) ]> (inputs w))
                    (requests w)
                    (EvWriteInputs file_path sheet_name :: log w) (S (writes w)), Ok tt)
       | Some e =>
           (mkWorld (files w) (inputs w) (requests w) (log w) (S (writes w)), Raise e)
       end.

End Excel.

(** [pd.read_excel(path, sheet_name=...)]: raises when the file or the sheet
    is missing. *)
Definition read_excel (file_path sheet_name : string) : M DataFrame :=
  λ w, match files w !! file_path ≫= (λ sheets, sheets !! sheet_name) with
       | Some df => (w, Ok df)
       | None => (w, Raise (FileNotFoundError file_path))
       end.

(** ** The historical merge: [writing_all_file] *)

Section Merge.

Variable disk : nat → option exn.

(** [get_data_path(get_global_config())]. *)
Variable data_path : string.

(** [datetime.now().year] and [datetime.now().month]; the reads of the clock
    during one run are taken to agree. *)
Variables current_year current_month : Z.

Definition hist_file : string := Py.path_join data_path "All-Xrates-Data.xlsx".

Definition backup_path : string := Py.path_join data_path "Backups".

(** [f'{month} {year} All-Xrates-Data.xlsx'] under the backup directory. *)
Definition backup_name (month year : Z) : string :=
  pretty month +:+ " " +:+ pretty year +:+ " All-Xrates-Data.xlsx".

Definition backup_file (month year : Z) : string :=
  Py.path_join backup_path (backup_name month year).

(** The scan [for index, row in existing_df.iterrows()]: the index of the
    first row of the current calendar month, or the initial [-1]. *)
Fixpoint scan_current (rows : DataFrame) (index : Z) : Z :=
  match rows with
  | [] => -1
  | row :: rest =>
      if (Month row =? current_month) && (Year row =? current_year)
      then index
      else scan_current rest (index + 1)
  end.

(** The existing table as it stands when the scan and the [drop] are
    done. *)
Definition purge_current (existing_df : DataFrame) : DataFrame :=
  let index_to_delete := scan_current existing_df 0 in
  if bool_decide (index_to_delete ≠ -1)
  then Pd.drop existing_df index_to_delete
  else existing_df.

Definition writing_all_file (df : DataFrame) (product : string) : M unit :=
  let sorted_df := df in
  try_except
    (existing_df <- read_excel hist_file product ;;
     let existing_df := purge_current existing_df in
     let hist_df := Pd.concat existing_df sorted_df in
     let hist_df := Pd.drop_duplicates period hist_df in
     let hist_df := Pd.sort_values hist_df in
     touch_excel disk hist_df hist_file product ;;
     month <- lift (Py.max (Month <$> df)) ;;
     year <- lift (Py.max (Year <$> df)) ;;
     touch_excel disk existing_df (backup_file month year) product)%py
    (let existing_df := Pd.sort_values sorted_df in
     touch_excel disk existing_df hist_file product ;;
     month <- lift (Py.max (Month <$> df)) ;;
     year <- lift (Py.max (Year <$> df)) ;;
     touch_excel disk existing_df (backup_file month year) product)%py.

(** The sheet of [product] in the historical file. *)
Definition persisted (product : string) (w : World) : option DataFrame :=
  files w !! hist_file ≫= (λ sheets, sheets !! product).

(** The sheet of [product] in a backup file. *)
Definition snapshot (month year : Z) (product : string) (w : World) : option DataFrame :=
  files w !! backup_file month year ≫= (λ sheets, sheets !! product).

End Merge.

(** ** The record builder: [extract_date] and the body of the line loop *)

Definition month_mapping : gmap string Z :=
  list_to_map
    [("Jan", 1); ("Feb", 2); ("Mar", 3); ("Apr", 4); ("May", 5); ("Jun", 6);
     ("Jul", 7); ("Aug", 8); ("Sep", 9); ("Oct", 10); ("Nov", 11); ("Dec", 12)].

Record date : Type := mkDate {
  date_year : Z;
  date_month : Z;
  date_day : Z
}.

(** The integers that fit a C [int]. *)
Definition c_int (n : Z) : Prop := - 2 ^ 31 ≤ n < 2 ^ 31.

Global Instance c_int_dec n : Decision (c_int n).
Proof. unfold c_int. apply _. Defined.

(** [datetime.date(year, month, 1)]: the arguments are first converted to C
    [int]s, which raises [OverflowError] for one that does not fit; then the
    year must lie between [MINYEAR] and [MAXYEAR] and the month between 1
    and 12; day 1 exists in every month. *)
Definition date_first (year month : Z) : result date :=
  if bool_decide (c_int year ∧ c_int month) then
    if bool_decide (1 ≤ year ≤ 9999) then
      if bool_decide (1 ≤ month ≤ 12) then Ok (mkDate year month 1)
      else Raise (ValueError "month must be in 1..12")
    else Raise (ValueError "year is out of range")
  else Raise OverflowError.

Definition extract_date (month : string) (year : Z) : result date :=
  result_bind (Py.getitem month_mapping month) (λ month,
  let year := year in
  date_first year month).

Section Builder.

(** [float(s)] of Python, as far as this program is concerned: the float a
    string denotes, or nothing when [float] raises [ValueError]. *)
Variable parse_float : string → option float.

Definition py_float (s : string) : result float :=
  match parse_float s with
  | Some x => Ok x
  | None => Raise (ValueError "could not convert string to float")
  end.

(** [try: fcrate = 1/crate  except: fcrate = 0]. *)
Definition inverse_rate (crate : float) : float :=
  match Py.truediv 1%float crate with
  | Ok fcrate => fcrate
  | Raise _ => 0%float
  end.

(** One turn of [for lis in lists]: [data] after the turn, or the
    exception that leaves the loop. *)
Definition build_line (curr : string) (year : Z) (lis : string)
    (data : DataFrame) : result DataFrame :=
  let lis_text := Py.split " " lis in
  match lis_text with
  | [] | [_] => Ok data                      (* len(lis_text) <= 1: continue *)
  | month :: crate :: _ =>
      result_bind (py_float crate) (λ crate,
      result_bind (extract_date month year) (λ date,
      let fmonth := date_month date in
      let fcrate := inverse_rate crate in
      Ok (data ++ [mkRate curr "USD" year fmonth crate fcrate])))
  end.

(** [for lis in lists: ...]. *)
Fixpoint build_lines (curr : string) (year : Z) (lists : list string)
    (data : DataFrame) : result DataFrame :=
  match lists with
  | [] => Ok data
  | lis :: rest =>
      result_bind (build_line curr year lis data) (λ data,
      build_lines curr year rest data)
  end.

End Builder.

(** ** The fetcher: the retry loop and the year loop of [main] *)

Section Fetch.

(** The rate source: what the [k]-th request of the run comes back with.
    [Some text] is the text of the [OutputLinksAvg] list of a page that
    has all the expected markup; [None] stands for any exception raised
    inside the [try] block. *)
Variable net : nat → option string.

Variable parse_float : string → option float.

(** The [try] block of the retry loop up to [lists = ul.text.split("\n")]. *)
Definition request_lines (curr : string) (year : Z) : M (list string) :=
  λ w,
    let w' := mkWorld (files w) (inputs w) (S (requests w))
                      (EvGet curr year :: log w) (writes w) in
    match net (requests w) with
    | Some text => (w', Ok (Py.split "010" text))
    | None => (w', Raise (ValueError "request failed"))
    end.

(** [while retry: ...], entered with the remaining budget [retry]; the
    result is the pair [(flag, lists)] the loop leaves behind. *)
Fixpoint retry_loop (retry : nat) (curr : string) (year : Z)
    (flag : Z) (lists : list string) : M (Z * list string) :=
  match retry with
  | O => ret (flag, lists)
  | S retry' =>
      try_except
        (lists <- request_lines curr year ;;
         ret (0, lists))%py                                   (* flag=0; break *)
        (emit (EvSleep 1) ;;                                  (* retry-=1; time.sleep(1) *)
         retry_loop retry' curr year flag lists)%py
  end.

(** [retry=5; flag=1; while retry: ...]. *)
Definition fetch (curr : string) (year : Z) (lists : list string) : M (Z * list string) :=
  retry_loop 5 curr year 1 lists.

(** [while year <= current_year: ...], by the number of turns left.  The
    loop state is [year], the last [lists] and [data]. *)
Fixpoint year_loop (turns : nat) (curr : string) (year : Z)
    (lists : list string) (data : DataFrame) : M (list string * DataFrame) :=
  match turns with
  | O => ret (lists, data)
  | S turns' =>
      (fl <- fetch curr year lists ;;
       let '(flag, lists) := fl in
       if bool_decide (flag ≠ 0) then
         year_loop turns' curr (year + 1) lists data          (* year += 1; continue *)
       else
         data <- lift (build_lines parse_float curr year lists data) ;;
         year_loop turns' curr (year + 1) lists data)%py
  end.

Definition while_years (current_year : Z) (curr : string) (year : Z)
    (lists : list string) (data : DataFrame) : M (list string * DataFrame) :=
  year_loop (Z.to_nat (current_year + 1 - year)) curr year lists data.

End Fetch.

(** ** The progress update and the main loop *)

Section Main.

Variable disk : nat → option exn.
Variable data_path : string.
Variables current_year current_month : Z.
Variable net : nat → option string.
Variable parse_float : string → option float.

Definition inputs_file : string := Py.path_join data_path "Inputs.xlsx".

(** One turn of the loop of [update_input_file]. *)
Definition update_row (years : gmap string Z) (row : InputRow) : InputRow :=
  let product := Initial_Currency row in
  match Py.getitem years product with
  | Ok fetch_date => mkInput (Initial_Currency row) fetch_date
  | Raise _ => row                                              (* except: pass *)
  end.

Definition update_input_file (input_df : list InputRow)
    (months years : gmap string Z) : M unit :=
  let input_df := update_row years <$> input_df in
  touch_excel_inputs disk input_df inputs_file "All Currencies".

(** What the loop over the input rows carries from one turn to the next:
    the last [lists], [max_month] and [max_years]. *)
Record Carry : Type := mkCarry {
  lists_of : list string;
  max_month : gmap string Z;
  max_years : gmap string Z
}.

(** One turn of [for index, row in input_df.iterrows()]. *)
Definition process_row (row : InputRow) (c : Carry) : M Carry :=
  let data := [] in
  let curr := Initial_Currency row in
  let year := Fetched_Year row in
  if bool_decide ("USD" = curr) then ret c                       (* continue *)
  else
    (ld <- while_years net parse_float current_year curr year (lists_of c) data ;;
     let '(lists, data) := ld in
     let df := data in
     match df with
     | [] => ret (mkCarry lists (max_month c) (max_years c))    (* df.empty: continue *)
     | _ =>
         m <- lift (Py.max (Month <$> df)) ;;
         y <- lift (Py.max (Year <$> df)) ;;
         writing_all_file disk data_path current_year current_month df curr ;;
         ret (mkCarry lists (<[curr := m]> (max_month c)) (<[curr := y]> (max_years c)))
     end)%py.

Fixpoint for_rows (rows : list InputRow) (c : Carry) : M Carry :=
  match rows with
  | [] => ret c
  | row :: rest => (c <- process_row row c ;; for_rows rest c)%py
  end.

Definition main (input_df : list InputRow) : M unit :=
  (c <- for_rows input_df (mkCarry [] ∅ ∅) ;;
   if (size (max_years c) =? 0)%nat || (size (max_month c) =? 0)%nat
   then ret tt
   else update_input_file input_df (max_month c) (max_years c))%py.

End Main.

(** ** The unit converter: [convert_price_for_uom] *)

(** One row of the priced-item table: the columns [Initial Unit],
    [Final Unit], [Initial Price] and [UOM Converted Price].  A table that
    comes without the last column behaves as one that has NaN in it: the
    first assignment creates the column filled with NaN. *)
Record PricedItem : Type := mkItem {
  Initial_Unit : string;
  Final_Unit : string;
  Initial_Price : float;
  UOM_Converted_Price : float
}.

Definition set_uom (row : PricedItem) (v : float) : PricedItem :=
  mkItem (Initial_Unit row) (Final_Unit row) (Initial_Price row) v.

Definition units (row : PricedItem) : string * string :=
  (Initial_Unit row, Final_Unit row).

(** The rows of a frame by index label. *)
Definition labelled {A} (df : list A) : gmap nat A := map_seq 0 df.

(** [x != NameError] on a float: a number never equals the exception class,
    so the comparison is true on every row (NaN included). *)
Definition ne_NameError (x : float) : bool := true.

Section Uom.

(** [s.lower()] of Python, which folds the cased characters of all of
    Unicode; the model takes it as it is. *)
Variable lower : string → string.

(** [get_local_config("uom_config.json")["mass_conversion_rates"]]. *)
Variable mass_conversion_rates : gmap string float.

(** The mask [(df["Initial Unit"] == initial_unit) &
    (df["Final Unit"] == final_unit)]. *)
Definition combo_mask (initial_unit final_unit : string) (row : PricedItem) : bool :=
  bool_decide (Initial_Unit row = initial_unit) &&
  bool_decide (Final_Unit row = final_unit).

(** One turn of [for index, row in unique_uom_combos.iterrows()] on the
    pair [(temp_df, df)].  Assignments of a series or a frame align on the
    index: a label the right-hand side lacks receives NaN. *)
Definition uom_pass (initial_unit final_unit : string)
    (st : list PricedItem * list PricedItem)
    : result (list PricedItem * list PricedItem) :=
  let '(temp_df, df) := st in
  (* uom_combo_df = df.loc[mask] *)
  let uom_combo_df :=
    filter (λ ir, combo_mask initial_unit final_unit ir.2 = true) (labelled df) in
  result_bind (Py.getitem mass_conversion_rates (lower initial_unit)) (λ to_SI_unit_rate,
  (* temp_df["UOM Converted Price"] = uom_combo_df["Initial Price"] * to_SI_unit_rate *)
  let temp_df :=
    imap (λ i t,
            set_uom t
              match uom_combo_df !! i with
              | Some r => PrimFloat.mul (Initial_Price r) to_SI_unit_rate
              | None => PrimFloat.nan
              end) temp_df in
  result_bind (Py.getitem mass_conversion_rates (lower final_unit)) (λ to_final_unit_rate,
  (* temp_df["UOM Converted Price"] = temp_df["UOM Converted Price"] / to_final_unit_rate *)
  let temp_df :=
    (λ t, set_uom t (PrimFloat.div (UOM_Converted_Price t) to_final_unit_rate)) <$> temp_df in
  (* temp_df.loc[temp_df["UOM Converted Price"] != NameError] *)
  let selected :=
    filter (λ it, ne_NameError (UOM_Converted_Price it.2) = true) (labelled temp_df) in
  (* df.loc[mask, "UOM Converted Price"] = selected *)
  let df :=
    imap (λ i row,
            if combo_mask initial_unit final_unit row then
              set_uom row
                match selected !! i with
                | Some t => UOM_Converted_Price t
                | None => PrimFloat.nan
                end
            else row) df in
  Ok (temp_df, df))).

Fixpoint uom_loop (combos : list (string * string))
    (st : list PricedItem * list PricedItem)
    : result (list PricedItem * list PricedItem) :=
  match combos with
  | [] => Ok st
  | (initial_unit, final_unit) :: rest =>
      result_bind (uom_pass initial_unit final_unit st) (uom_loop rest)
  end.

Definition convert_price_for_uom (df : list PricedItem) : result (list PricedItem) :=
  let unique_uom_combos := Pd.drop_duplicates id (units <$> df) in
  let temp_df := df in
  result_bind (uom_loop unique_uom_combos (temp_df, df)) (λ st, Ok st.2).

End Uom.

(** * The vocabulary of the properties *)

(** ** The persisted order *)

(** [a] stands strictly before [b] in the persisted order: a later year, or
    the same year and a later month. *)
Definition strictly_before (a b : RateRecord) : Prop :=
  Year b < Year a ∨ (Year b = Year a ∧ Month b < Month a).

Definition may_stand_before (a b : RateRecord) : Prop := Pd.before a b = true.

(** ** The merge *)

Section MergeVocabulary.

Variables current_year current_month : Z.

(** The row is one of the current calendar month. *)
Definition is_current (r : RateRecord) : Prop :=
  Month r = current_month ∧ Year r = current_year.

Global Instance is_current_dec r : Decision (is_current r).
Proof. unfold is_current. apply _. Defined.

(** The table the [try] branch persists. *)
Definition merged (existing_df df : DataFrame) : DataFrame :=
  Pd.sort_values
    (Pd.drop_duplicates period
       (Pd.concat (purge_current current_year current_month existing_df) df)).

End MergeVocabulary.

(** No two rows of the table share a (year, month) pair. *)
Definition one_per_period (t : DataFrame) : Prop :=
  ∀ i j a b, t !! i = Some a → t !! j = Some b → period a = period b → i = j.

(** What [touch_excel] leaves in the file system. *)
Definition written (df : DataFrame) (file_path sheet_name : string)
    (fs : gmap string (gmap string DataFrame)) : gmap string (gmap string DataFrame) :=
  <[ file_path := put_sheet df sheet_name (fs !! file_path) ]> fs.

(** The worlds a call that only writes the sheet [product] can reach from
    [w], one attempted write after the other: a write that succeeds puts a
    table on a path, both as [admits] allows, and a write that is refused
    changes nothing but the number of attempts. *)
Inductive merge_steps (admits : string → DataFrame → Prop) (product : string) (w : World)
    : World → Prop :=
| steps_none :
    merge_steps admits product w
      (mkWorld (files w) (inputs w) (requests w) (log w) (writes w))
| steps_written fs ins rq lg n path t :
    merge_steps admits product w (mkWorld fs ins rq lg n) →
    admits path t →
    merge_steps admits product w
      (mkWorld (written t path product fs) ins rq (EvWriteRates path product :: lg) (S n))
| steps_refused fs ins rq lg n :
    merge_steps admits product w (mkWorld fs ins rq lg n) →
    merge_steps admits product w (mkWorld fs ins rq lg (S n)).

Section MergeWrites.

Variable data_path : string.
Variables current_year current_month : Z.

(** The writes of a call [writing_all_file(df, product)] entered in the
    world [w]: to the historical file goes the merged table, if the sheet
    could be read, or the new records sorted; the other writes go to backup
    files. *)
Definition merge_write (w : World) (df : DataFrame) (product : string)
    (path : string) (t : DataFrame) : Prop :=
  (path = hist_file data_path ∧
   (t = Pd.sort_values df ∨
    ∃ existing_df, persisted data_path product w = Some existing_df ∧
                   t = merged current_year current_month existing_df df)) ∨
  (∃ month year, path = backup_file data_path month year).

(** Both writes of the [try] of a call entered in [w] succeed. *)
Definition try_writes_ok (disk : nat → option exn) (w : World) : Prop :=
  disk (writes w) = None ∧ disk (S (writes w)) = None.

End MergeWrites.

(** ** The fetcher and the run *)

(** The events of [k] failed attempts, newest first: each attempt issues a
    request and, having failed, sleeps one second. *)
Fixpoint failed_attempts (curr : string) (year : Z) (k : nat) : list Event :=
  match k with
  | O => []
  | S k' => EvSleep 1 :: EvGet curr year :: failed_attempts curr year k'
  end.

(** The world a fetch leaves behind: only the request counter and the log
    move. *)
Definition after_fetch (w : World) (attempts : nat) (events : list Event) : World :=
  mkWorld (files w) (inputs w) (requests w + attempts)%nat (events ++ log w) (writes w).

(** Requests and sleeps, as opposed to writes. *)
Definition quiet (e : Event) : Prop :=
  match e with
  | EvGet _ _ | EvSleep _ => True
  | EvWriteRates _ _ | EvWriteInputs _ _ => False
  end.

(** Some rate sheet named [sheet] was written among the events: the
    currency produced records in the run. *)
Definition wrote_rates (evs : list Event) (sheet : string) : Prop :=
  ∃ path, EvWriteRates path sheet ∈ evs.

(** No write of the input tracking table among the events. *)
Definition no_input_write (evs : list Event) : Prop :=
  ∀ path sheet, EvWriteInputs path sheet ∉ evs.

(** The keys of [max_years] and [max_month] grow by exactly the currencies
    whose sheet was written. *)
Definition keys_grow (c c' : Carry) (evs : list Event) : Prop :=
  ∀ s, (is_Some (max_years c' !! s) ↔ is_Some (max_years c !! s) ∨ wrote_rates evs s) ∧
       (is_Some (max_month c' !! s) ↔ is_Some (max_month c !! s) ∨ wrote_rates evs s).

Section RunVocabulary.

Variable net : nat → option string.
Variable parse_float : string → option float.

(** A line of two tokens or more whose first token is no month abbreviation
    or whose second token [float] rejects. *)
Definition malformed (lis : string) : Prop :=
  ∃ month crate extra,
    Py.split " " lis = month :: crate :: extra ∧
    (month_mapping !! month = None ∨ parse_float crate = None).

(** Every page that came back between two worlds is free of malformed
    lines. *)
Definition clean (w w' : World) : Prop :=
  ∀ k text lis,
    (requests w ≤ k < requests w')%nat → net k = Some text →
    lis ∈ Py.split "010" text → ¬ malformed lis.

(** What the loop over the input rows maintains, from the carry [c] and the
    world [w] it starts in to the outcome [r]. *)
Definition loop_inv (c : Carry) (w : World) (r : World * result Carry) : Prop :=
  inputs r.1 = inputs w ∧
  (requests w ≤ requests r.1)%nat ∧
  (∃ evs, log r.1 = evs ++ log w ∧ no_input_write evs ∧
          ∀ c', r.2 = Ok c' → keys_grow c c' evs) ∧
  (is_ok r.2 = true → clean w r.1).

End RunVocabulary.

Section FetchedVocabulary.

Variable disk : nat → option exn.
Variable data_path : string.
Variables current_year current_month : Z.
Variable net : nat → option string.
Variable parse_float : string → option float.

(** The records that the fetch of each row handed on, in a run of the loop
    over [rows] entered with the carry [c] in the world [w]: the currency of
    each row the loop reached, with the [data] its year loop ended with.  A
    row of USD, which is skipped, and a row whose year loop raised are
    listed with no records. *)
Fixpoint fetched_records (rows : list InputRow) (c : Carry) (w : World)
    : list (string * DataFrame) :=
  match rows with
  | [] => []
  | row :: rest =>
      let data :=
        if bool_decide ("USD" = Initial_Currency row) then []
        else
          match (while_years net parse_float current_year (Initial_Currency row)
                   (Fetched_Year row) (lists_of c) [] w).2 with
          | Ok (_, data) => data
          | Raise _ => []
          end in
      (Initial_Currency row, data) ::
      match process_row disk data_path current_year current_month net parse_float row c w with
      | (w', Ok c') => fetched_records rest c' w'
      | (_, Raise _) => []
      end
  end.

(** The currency [s] produced no fetched records in the run over [rows]
    entered in the world [w]. *)
Definition no_records (rows : list InputRow) (w : World) (s : string) : Prop :=
  ∀ df, (s, df) ∈ fetched_records rows (mkCarry [] ∅ ∅) w → df = [].

End FetchedVocabulary.

(** ** The unit converter *)

(** The price of a row taken to the SI unit and from there to the final
    unit, in the order the code computes it. *)
Definition via_SI (to_SI_unit_rate to_final_unit_rate : float) (row : PricedItem) : float :=
  PrimFloat.div (PrimFloat.mul (Initial_Price row) to_SI_unit_rate) to_final_unit_rate.

(** What one pass for the pair [(initial_unit, final_unit)] makes of a
    row. *)
Definition pass_row (initial_unit final_unit : string)
    (to_SI_unit_rate to_final_unit_rate : float) (row : PricedItem) : PricedItem :=
  if combo_mask initial_unit final_unit row
  then set_uom row (via_SI to_SI_unit_rate to_final_unit_rate row)
  else row.

Section UomVocabulary.

Variable lower : string → string.
Variable mass_conversion_rates : gmap string float.

(** What the pass for a pair makes of a row, with the factors looked up. *)
Definition pass_of (combo : string * string) (row : PricedItem) : PricedItem :=
  match mass_conversion_rates !! lower combo.1, mass_conversion_rates !! lower combo.2 with
  | Some to_SI_unit_rate, Some to_final_unit_rate =>
      pass_row combo.1 combo.2 to_SI_unit_rate to_final_unit_rate row
  | _, _ => row
  end.

(** Both units of the pair are keys of the conversion table. *)
Definition known (combo : string * string) : Prop :=
  is_Some (mass_conversion_rates !! lower combo.1) ∧
  is_Some (mass_conversion_rates !! lower combo.2).

End UomVocabulary.

(** ** Concrete tables, sources and runs for the examples *)

Module MergeExamples.

(** A disk on which every write succeeds. *)
Definition sound (k : nat) : option exn := None.

(** A disk on which the [k]-th write of the run is refused, the file being
    open elsewhere, and every other write succeeds. *)
Definition locked_at (k : nat) (attempt : nat) : option exn :=
  if (attempt =? k)%nat then Some PermissionError else None.

Definition rate (year month : Z) (x : float) : RateRecord :=
  mkRate "EUR" "USD" year month x (PrimFloat.div 1 x).

(** No historical file yet. *)
Definition first_run : World := mkWorld ∅ ∅ 0 [] 0.

(** A historical file with a sheet for EUR. *)
Definition with_history (rows : DataFrame) : World :=
  mkWorld {[ "data/All-Xrates-Data.xlsx" := {[ "EUR" := rows ]} ]} ∅ 0 [] 0.

Definition history : DataFrame :=
  [rate 2023 6 1.125; rate 2023 5 1.25; rate 2023 4 1.5].

Definition fetched : DataFrame :=
  [rate 2023 5 2; rate 2023 6 1.0625; rate 2023 7 1.75].

(** A page that lists January twice. *)
Definition repeated : DataFrame := [rate 2023 1 1.25; rate 2023 1 1.5].

(** Records of two years. *)
Definition two_years : DataFrame := [rate 2022 12 1.25; rate 2023 1 1.5].

End MergeExamples.

Import MergeExamples.

Module BuilderExamples.

(** A stand-in for [float] that knows the few strings the examples use. *)
Definition example_float (s : string) : option float :=
  if bool_decide (s = "1.10") then Some 0x1.199999999999ap+0%float
  else if bool_decide (s = "0.5") then Some 0.5%float
  else if bool_decide (s = "-2") then Some (-2)%float
  else if bool_decide (s = "0") then Some 0%float
  else None.

End BuilderExamples.

Import BuilderExamples.

Module FetchExamples.

(** Every request fails. *)
Definition down (k : nat) : option string := None.

(** The third request of the run succeeds, the others fail. *)
Definition flaky (k : nat) : option string :=
  if (k =? 2)%nat then Some "Jan 0.5" else None.

Definition start : World := mkWorld ∅ ∅ 0 [] 0.

End FetchExamples.

Import FetchExamples.

Module RunExamples.

(** The first request comes back with a good line and a line whose first
    token is no month; the later ones fail. *)
Definition bad_page (k : nat) : option string :=
  if (k =? 0)%nat then Some ("Jan 0.5" +:+ String "010" "Foo 0.5") else None.

Definition tracked : list InputRow := [mkInput "USD" 2020; mkInput "EUR" 2023].

(** Every request comes back with one good line. *)
Definition up (k : nat) : option string := Some "Jan 0.5".

End RunExamples.

Import RunExamples.

Module UomExamples.

(** A stand-in for [str.lower] that folds the letters A to Z and leaves
    every other character as it is, which is what [str.lower] does on the
    strings of the examples. *)
Definition lower_ascii (c : ascii) : ascii :=
  let n := nat_of_ascii c in
  if ((65 <=? n)%nat && (n <=? 90)%nat)%bool then ascii_of_nat (n + 32) else c.

Fixpoint example_lower (s : string) : string :=
  match s with
  | EmptyString => EmptyString
  | String c rest => String (lower_ascii c) (example_lower rest)
  end.

(** [{kg: 1.0, lb: 0.453592}]. *)
Definition rates : gmap string float :=
  {[ "kg" := 1.0%float; "lb" := 0.453592%float ]}.

Definition priced : list PricedItem :=
  [mkItem "kg" "lb" 10 nan; mkItem "lb" "kg" 3 7; mkItem "KG" "lb" 1 0].

End UomExamples.

Import UomExamples.

(** ** The events of a fetch and of a run *)

(** An event of the fetch of [curr] for the years [lo] to [hi]: a request
    for that currency and one of those years, or a sleep of one second. *)
Definition fetch_event (curr : string) (lo hi : Z) (e : Event) : Prop :=
  match e with
  | EvGet c y => c = curr ∧ lo ≤ y ≤ hi
  | EvSleep seconds => seconds = 1
  | EvWriteRates _ _ | EvWriteInputs _ _ => False
  end.

(** A record as the line loop builds it for [curr] in one of the years [lo]
    to [hi]. *)
Definition built_for (curr : string) (lo hi : Z) (r : RateRecord) : Prop :=
  Currency_1 r = curr ∧ Currency_2 r = "USD" ∧
  lo ≤ Year r ≤ hi ∧ 1 ≤ Year r ≤ 9999 ∧ 1 ≤ Month r ≤ 12.

(** The lines that give a record: those with two tokens or more. *)
Definition two_tokens (lis : string) : Prop :=
  (2 ≤ length (Py.split " " lis))%nat.

Global Instance two_tokens_dec lis : Decision (two_tokens lis).
Proof. unfold two_tokens. apply _. Defined.

Section RunEvents.

Variable data_path : string.
Variable current_year : Z.

(** An event of a run over the rows [rows] of the input tracking table: a
    request for a currency of the table other than USD and a year between
    the [Fetched Year] of one of its rows and the current year, a sleep of
    one second, a write of the sheet of such a currency to the historical
    file or to a backup, or the write of the progress sheet. *)
Definition run_event (rows : list InputRow) (e : Event) : Prop :=
  match e with
  | EvGet curr year =>
      curr ≠ "USD" ∧
      ∃ row, row ∈ rows ∧ Initial_Currency row = curr ∧
             Fetched_Year row ≤ year ≤ current_year
  | EvSleep seconds => seconds = 1
  | EvWriteRates path sheet =>
      sheet ≠ "USD" ∧ sheet ∈ Initial_Currency <$> rows ∧
      (path = hist_file data_path ∨ ∃ month year, path = backup_file data_path month year)
  | EvWriteInputs path sheet =>
      path = inputs_file data_path ∧ sheet = "All Currencies"
  end.

(** The number of turns of the year loop for a row: none for USD, one for
    each year from the [Fetched Year] to the current year otherwise. *)
Definition years_to_fetch (row : InputRow) : nat :=
  if bool_decide ("USD" = Initial_Currency row) then 0%nat
  else Z.to_nat (current_year + 1 - Fetched_Year row).

(** The requests a run over [rows] may issue: five for each turn of the
    year loop. *)
Definition request_budget (rows : list InputRow) : nat :=
  5 * sum_list (years_to_fetch <$> rows).

(** The entries of [max_years] that a loop over [rows] adds to those of
    [before]: each is for a currency of the table other than USD and lies
    between the [Fetched Year] of a row of that currency and the current
    year. *)
Definition progress_of (rows : list InputRow) (before after : gmap string Z) : Prop :=
  ∀ s y, after !! s = Some y →
    before !! s = Some y ∨
    (s ≠ "USD" ∧ ∃ row, row ∈ rows ∧ Initial_Currency row = s ∧
                        Fetched_Year row ≤ y ≤ current_year).

End RunEvents.

(** Every sheet of the historical file is in descending order of (year,
    month). *)
Definition history_sorted (data_path : string) (w : World) : Prop :=
  ∀ product t, persisted data_path product w = Some t → Sorted may_stand_before t.

(** * Further parts of the program *)

(** ** The currency converter: [convert_price_for_currency] *)

(** Two dates are equal when their years, months and days are. *)
Global Instance date_eq_dec : EqDecision date.
Proof. solve_decision. Defined.

Module Currency.

(** One row of the priced-item table as the currency converter reads it:
    the columns [Initial Currency], [Final Currency], [Date],
    [UOM Converted Price], [Conversion Rate] and [Price].  A date cell is
    its calendar date.  A table that comes without one of the last two
    columns behaves as one that has NaN in it: the first assignment creates
    the column filled with NaN. *)
Record Item : Type := mkItem {
  Initial_Currency : string;
  Final_Currency : string;
  Date : date;
  UOM_Converted_Price : float;
  Conversion_Rate : float;
  Price : float
}.

(** The columns [drop_duplicates] looks at. *)
Definition combo (row : Item) : string * string * date :=
  (Initial_Currency row, Final_Currency row, Date row).

(** [df[["Initial Currency", "Final Currency", "Date"]].drop_duplicates()],
    in the order [iterrows] goes through it. *)
Definition unique_currency_combos (df : list Item) : list (string * string * date) :=
  Pd.drop_duplicates id (combo <$> df).

Definition set_rate (row : Item) (rate : float) : Item :=
  mkItem (Initial_Currency row) (Final_Currency row) (Date row)
         (UOM_Converted_Price row) rate (Price row).

(** The row of [df["Price"] = df["Conversion Rate"] * df["UOM Converted Price"]]. *)
Definition set_price (row : Item) : Item :=
  mkItem (Initial_Currency row) (Final_Currency row) (Date row)
         (UOM_Converted_Price row) (Conversion_Rate row)
         (PrimFloat.mul (Conversion_Rate row) (UOM_Converted_Price row)).

(** The mask [(df["Initial Currency"] == initial_currency) &
    (df["Final Currency"] == final_currency) & (df["Date"] == date)]. *)
Definition combo_mask (initial_currency final_currency : string) (date : date)
    (row : Item) : bool :=
  bool_decide (Initial_Currency row = initial_currency) &&
  bool_decide (Final_Currency row = final_currency) &&
  bool_decide (Date row = date).

Section Converter.

(** [xcc.get_conversion_rate(from_, to_, year_, month_)] of the module
    [xrate_currency_conversion], which is not part of this program: what the
    call comes back with, a rate or an exception, given the number of calls
    made before it and its arguments. *)
Variable get_conversion_rate : nat → string → string → Z → Z → result float.

(** One turn of [for index, row in unique_currency_combos.iterrows()],
    entered after [calls] calls of [get_conversion_rate]. *)
Definition currency_pass (calls : nat) (row : string * string * date)
    (df : list Item) : result (list Item) :=
  let '(initial_currency, final_currency, date) := row in
  let year := date_year date in
  let month := date_month date in
  result_bind
    (get_conversion_rate calls initial_currency final_currency year month)
    (λ currency_conversion_rate,
  (* df.loc[mask, "Conversion Rate"] = currency_conversion_rate *)
  let df :=
    (λ r, if combo_mask initial_currency final_currency date r
          then set_rate r currency_conversion_rate else r) <$> df in
  (* df["Price"] = df["Conversion Rate"] * df["UOM Converted Price"] *)
  let df := set_price <$> df in
  Ok df).

Fixpoint currency_loop (calls : nat) (combos : list (string * string * date))
    (df : list Item) : result (list Item) :=
  match combos with
  | [] => Ok df
  | row :: rest =>
      result_bind (currency_pass calls row df) (currency_loop (S calls) rest)
  end.

(** [convert_price_for_currency(df)]: the frame it returns, whose column
    [Currency Conversion Rate] is the field [Conversion_Rate]. *)
Definition convert_price_for_currency (df : list Item) : result (list Item) :=
  let unique_currency_combos := unique_currency_combos df in
  currency_loop 0 unique_currency_combos df.

(** The call made for the [k]-th combination. *)
Definition rate_call (k : nat) (c : string * string * date) : result float :=
  get_conversion_rate k c.1.1 c.1.2 (date_year c.2) (date_month c.2).

End Converter.

End Currency.

(** ** The informative columns: [make_df_copy], [create_mapped_column] and
    [add_informative_columns] *)

(** [s.replace(old, new)] for a non-empty [old]: the occurrences of [old]
    are replaced from the left, and a replaced occurrence is not looked at
    again.  [skip] counts the characters of an occurrence still to pass. *)
Fixpoint str_replace_from (skip : nat) (old new s : string) : string :=
  match s with
  | EmptyString => EmptyString
  | String c rest =>
      match skip with
      | S skip' => str_replace_from skip' old new rest
      | O =>
          if String.prefix old s
          then new +:+ str_replace_from (String.length old - 1) old new rest
          else String c (str_replace_from 0 old new rest)
      end
  end.

Definition str_replace (old new s : string) : string := str_replace_from 0 old new s.

Section Frames.

(** The index labels and the cell values of a frame; [NaN] is the missing
    value of pandas. *)
Context {Label Value : Type} `{EqDecision Label}.
Variable NaN : Value.

(** A frame with named columns: its index, and each column as the list of
    its values in index order. *)
Record Frame : Type := mkFrame {
  index : list Label;
  columns : gmap string (list Value)
}.

(** [d.get(k)] on the dictionary built from the pairs [d] in order: a later
    pair with the same key replaces an earlier one. *)
Fixpoint dict_get (d : list (Label * Value)) (k : Label) : option Value :=
  match d with
  | [] => None
  | (k', v) :: rest =>
      match dict_get rest k with
      | Some v' => Some v'
      | None => if decide (k' = k) then Some v else None
      end
  end.

(** [series.to_dict()]: index label to value. *)
Definition to_dict (df : Frame) (series : list Value) : list (Label * Value) :=
  zip (index df) series.

(** [idx.map(mapping_dict)]: a label the dictionary lacks gives NaN. *)
Definition index_map (idx : list Label) (mapping_dict : list (Label * Value)) : list Value :=
  (λ label, default NaN (dict_get mapping_dict label)) <$> idx.

(** [df[name] = values] for a list-like that is no series, on a frame with
    rows: the values are taken by position and must be as many as the rows.
    (On a frame without rows pandas takes the index from the values
    instead; [add_informative_columns] passes the index of a copy of the
    frame, so the lengths agree there.) *)
Definition setitem (df : Frame) (name : string) (values : list Value) : result Frame :=
  if bool_decide (length values = length (index df))
  then Ok (mkFrame (index df) (<[ name := values ]> (columns df)))
  else Raise (ValueError "Length of values does not match length of index").

Definition make_df_copy (df : Frame) : Frame := df.

(** [create_mapped_column(col_name, dfs)], with the three entries of [dfs]
    as arguments; the result is the frame [dfs["add column to this df"]]
    after the assignment. *)
Definition create_mapped_column (col_name : string) (df mapped_df mapping_df : Frame)
    : result Frame :=
  result_bind (Py.getitem (columns mapping_df) col_name) (λ series,
  let mapping_dict := to_dict mapping_df series in
  let modified_col_name := str_replace "Current" "Initial" col_name in
  setitem df modified_col_name (index_map (index mapped_df) mapping_dict)).

Definition add_informative_columns (df input_df : Frame) : result Frame :=
  let input_df_copy := make_df_copy input_df in
  let df_copy := make_df_copy df in
  result_bind (create_mapped_column "Location" df df_copy input_df_copy) (λ df,
  result_bind (create_mapped_column "Current Currency" df df_copy input_df_copy) (λ df,
  result_bind (create_mapped_column "Final Currency" df df_copy input_df_copy) (λ df,
  result_bind (create_mapped_column "Current Quantity" df df_copy input_df_copy) (λ df,
  result_bind (create_mapped_column "Current Unit" df df_copy input_df_copy) (λ df,
  result_bind (create_mapped_column "Final Quantity" df df_copy input_df_copy) (λ df,
  result_bind (create_mapped_column "Final Unit" df df_copy input_df_copy) (λ df,
  result_bind (create_mapped_column "Density" df df_copy input_df_copy) (λ df,
  result_bind (create_mapped_column "Upload on PR" df df_copy input_df_copy) (λ df,
  Ok df))))))))).

(** The calls of [create_mapped_column] for the columns [cols], one after
    the other, on the frame [df]. *)
Fixpoint map_columns (cols : list string) (df_copy input_df_copy df : Frame) : result Frame :=
  match cols with
  | [] => Ok df
  | col_name :: rest =>
      result_bind (create_mapped_column col_name df df_copy input_df_copy)
                  (map_columns rest df_copy input_df_copy)
  end.

(** The columns [add_informative_columns] maps, in the order of its
    calls. *)
Definition informative_columns : list string :=
  ["Location"; "Current Currency"; "Final Currency"; "Current Quantity"; "Current Unit";
   "Final Quantity"; "Final Unit"; "Density"; "Upload on PR"].

(** The column of [input_df] looked up through the index labels of [df]. *)
Definition joined (df input_df : Frame) (series : list Value) : list Value :=
  index_map (index df) (to_dict input_df series).

(** Every column of the frame has one value for each index label. *)
Definition well_formed (df : Frame) : Prop :=
  ∀ name series, columns df !! name = Some series → length series = length (index df).

End Frames.

Arguments Frame : clear implicits.

(** ** Concrete tables for the examples of the currency converter *)

Module CurrencyExamples.

(** A rate source that knows EUR and GBP. *)
Definition monthly (calls : nat) (from_ to_ : string) (year_ month_ : Z) : result float :=
  if bool_decide (from_ = "EUR") then Ok 2%float
  else if bool_decide (from_ = "GBP") then Ok 1.5%float
  else Raise (KeyError from_).

Definition items : list Currency.Item :=
  [Currency.mkItem "EUR" "USD" (mkDate 2023 5 1) 10 nan nan;
   Currency.mkItem "GBP" "USD" (mkDate 2023 5 1) 4 nan nan;
   Currency.mkItem "EUR" "USD" (mkDate 2023 5 1) 3 7 7].

End CurrencyExamples.

Import CurrencyExamples.

Module FrameExamples.

(** An input table with the nine columns, and two rows labelled 0 and 1. *)
Definition input_table : Frame nat string :=
  mkFrame [0%nat; 1%nat]
    (list_to_map
       [("Location", ["Pune"; "Oslo"]); ("Current Currency", ["INR"; "NOK"]);
        ("Final Currency", ["USD"; "USD"]); ("Current Quantity", ["1"; "1"]);
        ("Current Unit", ["kg"; "lb"]); ("Final Quantity", ["1"; "1"]);
        ("Final Unit", ["lb"; "kg"]); ("Density", ["1"; "1"]);
        ("Upload on PR", ["yes"; "no"])]).

(** A price table with rows labelled 1, 0 and 2. *)
Definition price_table : Frame nat string :=
  mkFrame [1%nat; 0%nat; 2%nat] {[ "Initial Price" := ["10"; "20"; "30"] ]}.

End FrameExamples.

Import FrameExamples.

(** * Properties *)

(** ** Facts about [drop_duplicates] *)

Section DropDuplicates.

Context {A K : Type} `{EqDecision K} (key : A → K).

Lemma drop_duplicates_seen_elem seen df x :
  x ∈ Pd.drop_duplicates_seen key seen df → x ∈ df ∧ key x ∉ seen.
Proof.
  revert seen. induction df as [|r rest IH]; intros seen; simpl.
  - intros Hx. by apply elem_of_nil in Hx.
  - case_bool_decide as Hseen.
    + intros Hx. destruct (IH _ Hx) as [? ?]. split; [by right | done].
    + intros Hx. apply elem_of_cons in Hx as [-> | Hx].
      * split; [by left | done].
      * destruct (IH _ Hx) as [? Hn]. split; [by right |].
        intros Hin. apply Hn. by right.
Qed.

Lemma drop_duplicates_seen_NoDup seen df :
  NoDup (key <$> Pd.drop_duplicates_seen key seen df).
Proof.
  revert seen. induction df as [|r rest IH]; intros seen; simpl.
  - constructor.
  - case_bool_decide as Hseen; [apply IH |].
    rewrite fmap_cons. constructor; [| apply IH].
    intros Hin. apply list_elem_of_fmap in Hin as (y & Hy & Hin).
    apply drop_duplicates_seen_elem in Hin as [_ Hn].
    apply Hn. rewrite Hy. by left.
Qed.

(** Of the rows with a given key, exactly the first is kept (none when
    the key was seen before). *)
Lemma drop_duplicates_seen_filter seen df k :
  filter (λ r, key r = k) (Pd.drop_duplicates_seen key seen df)
  = if bool_decide (k ∈ seen) then [] else take 1 (filter (λ r, key r = k) df).
Proof.
  revert seen. induction df as [|r rest IH]; intros seen; simpl.
  - by case_bool_decide.
  - case_bool_decide as Hseen.
    + rewrite IH, filter_cons. destruct (decide (key r = k)) as [Heq | Hne]; [| done].
      subst k. by rewrite bool_decide_eq_true_2.
    + rewrite !filter_cons, IH. destruct (decide (key r = k)) as [Heq | Hne].
      * subst k.
        rewrite (bool_decide_eq_true_2 (key r ∈ key r :: seen)) by (by left).
        by rewrite (bool_decide_eq_false_2 (key r ∈ seen)).
      * rewrite (bool_decide_ext (k ∈ key r :: seen) (k ∈ seen)); [done |].
        rewrite elem_of_cons. split; [intros [Hk | ?]; [congruence | done] | by right].
Qed.

Lemma drop_duplicates_NoDup df : NoDup (key <$> Pd.drop_duplicates key df).
Proof. apply drop_duplicates_seen_NoDup. Qed.

Lemma drop_duplicates_filter df k :
  filter (λ r, key r = k) (Pd.drop_duplicates key df)
  = take 1 (filter (λ r, key r = k) df).
Proof.
  unfold Pd.drop_duplicates. rewrite drop_duplicates_seen_filter.
  rewrite bool_decide_eq_false_2; [done | apply not_elem_of_nil].
Qed.

Lemma drop_duplicates_elem df x : x ∈ Pd.drop_duplicates key df → x ∈ df.
Proof. intros Hx. by apply drop_duplicates_seen_elem in Hx as [? _]. Qed.

(** A table without repeated keys is left as it is. *)
Lemma drop_duplicates_seen_id seen df :
  NoDup (key <$> df) → (∀ x, x ∈ df → key x ∉ seen) →
  Pd.drop_duplicates_seen key seen df = df.
Proof.
  revert seen. induction df as [|r rest IH]; intros seen Hnd Hseen; simpl; [done |].
  rewrite fmap_cons in Hnd. apply NoDup_cons in Hnd as [Hr Hnd].
  rewrite bool_decide_eq_false_2 by (apply Hseen; by left).
  f_equal. apply IH; [done |].
  intros x Hx Hin. apply elem_of_cons in Hin as [Heq | Hin].
  - apply Hr. rewrite <- Heq. by apply list_elem_of_fmap_2.
  - by apply (Hseen x); [right |].
Qed.

(** Every key of the table survives. *)
Lemma drop_duplicates_seen_complete seen df x :
  x ∈ df → key x ∉ seen →
  ∃ y, y ∈ Pd.drop_duplicates_seen key seen df ∧ key y = key x.
Proof.
  revert seen. induction df as [|r rest IH]; intros seen Hx Hseen.
  - by apply elem_of_nil in Hx.
  - simpl. case_bool_decide as Hr.
    + apply elem_of_cons in Hx as [-> | Hx]; [done | by apply IH].
    + destruct (decide (key r = key x)) as [Heq | Hne].
      * exists r. split; [by left | done].
      * apply elem_of_cons in Hx as [-> | Hx]; [done |].
        destruct (IH (key r :: seen) Hx) as (y & Hy & Hk).
        { intros Hin. apply elem_of_cons in Hin as [? | ?]; [congruence | done]. }
        exists y. split; [by right | done].
Qed.

End DropDuplicates.

Lemma drop_duplicates_complete {K : Type} `{EqDecision K} (f : K → K) (l : list K) (x : K) :
  (∀ a, f a = a) → x ∈ l → x ∈ Pd.drop_duplicates f l.
Proof.
  intros Hid Hx.
  destruct (drop_duplicates_seen_complete f [] l x Hx) as (y & Hy & Hk);
    [apply not_elem_of_nil |].
  rewrite !Hid in Hk. by subst y.
Qed.

(** ** Facts about [sort_values] *)

Lemma before_spec a b :
  Pd.before a b = true ↔ Year b < Year a ∨ (Year b = Year a ∧ Month b ≤ Month a).
Proof. unfold Pd.before. lia. Qed.

Lemma before_total a b : Pd.before a b = false → Pd.before b a = true.
Proof.
  intros Hab. apply before_spec.
  destruct (Pd.before a b) eqn:E; [done |].
  assert (¬ (Year b < Year a ∨ (Year b = Year a ∧ Month b ≤ Month a))) as Hn.
  { intros H. apply before_spec in H. congruence. }
  lia.
Qed.

Lemma before_false_period a b : Pd.before a b = false → period b ≠ period a.
Proof.
  intros Hab Heq. unfold period in Heq.
  assert (Pd.before a b = true); [| congruence].
  apply before_spec. injection Heq as Hy Hm. lia.
Qed.

Lemma insert_desc_Permutation r df : Pd.insert_desc r df ≡ₚ r :: df.
Proof.
  induction df as [|s rest IH]; simpl; [done |].
  destruct (Pd.before r s); [done |].
  rewrite IH. apply Permutation_swap.
Qed.

Lemma sort_values_Permutation df : Pd.sort_values df ≡ₚ df.
Proof.
  induction df as [|r rest IH]; simpl; [done |].
  by rewrite insert_desc_Permutation, IH.
Qed.

Lemma insert_desc_HdRel a r df :
  may_stand_before a r → HdRel may_stand_before a df →
  HdRel may_stand_before a (Pd.insert_desc r df).
Proof.
  intros Har Hhd. destruct df as [|s rest]; simpl.
  - by constructor.
  - destruct (Pd.before r s); constructor; [done |]. by inversion Hhd.
Qed.

Lemma insert_desc_Sorted r df :
  Sorted may_stand_before df → Sorted may_stand_before (Pd.insert_desc r df).
Proof.
  induction df as [|s rest IH]; intros Hs; simpl.
  - repeat constructor.
  - destruct (Pd.before r s) eqn:E.
    + constructor; [done |]. by constructor.
    + inversion Hs as [|? ? Hrest Hhd]; subst.
      constructor; [by apply IH |].
      apply insert_desc_HdRel; [by apply before_total | done].
Qed.

Lemma sort_values_Sorted df : Sorted may_stand_before (Pd.sort_values df).
Proof.
  induction df as [|r rest IH]; simpl; [constructor |].
  by apply insert_desc_Sorted.
Qed.

(** The sort is stable: rows of one period keep their order. *)
Lemma insert_desc_filter r df k :
  filter (λ x, period x = k) (Pd.insert_desc r df)
  = filter (λ x, period x = k) (r :: df).
Proof.
  induction df as [|s rest IH]; [done |].
  change (Pd.insert_desc r (s :: rest))
    with (if Pd.before r s then r :: s :: rest else s :: Pd.insert_desc r rest).
  destruct (Pd.before r s) eqn:E; [done |].
  apply before_false_period in E.
  rewrite (filter_cons _ s), IH, !filter_cons.
  destruct (decide (period s = k)), (decide (period r = k)); congruence.
Qed.

Lemma sort_values_filter df k :
  filter (λ x, period x = k) (Pd.sort_values df) = filter (λ x, period x = k) df.
Proof.
  induction df as [|r rest IH]; [done |].
  change (Pd.sort_values (r :: rest)) with (Pd.insert_desc r (Pd.sort_values rest)).
  by rewrite insert_desc_filter, !filter_cons, IH.
Qed.

(** Sorted and free of repeated periods is strictly sorted. *)
Lemma Sorted_strictly df :
  Sorted may_stand_before df → NoDup (period <$> df) → Sorted strictly_before df.
Proof.
  induction 1 as [|a l Hs IH Hhd]; intros Hnd; [constructor |].
  rewrite fmap_cons in Hnd. apply NoDup_cons in Hnd as [Ha Hnd].
  constructor; [by apply IH |].
  destruct Hhd as [|b l Hab]; constructor.
  apply before_spec in Hab. unfold strictly_before.
  assert (period b ≠ period a) as Hne.
  { intros Heq. apply Ha. rewrite <- Heq, fmap_cons. by left. }
  unfold period in Hne.
  destruct (decide (Month b = Month a)) as [Hm|]; [| lia].
  destruct (decide (Year b = Year a)) as [Hy|]; [| lia].
  exfalso. apply Hne. by rewrite Hm, Hy.
Qed.

Lemma sort_values_NoDup df :
  NoDup (period <$> df) → NoDup (period <$> Pd.sort_values df).
Proof.
  intros Hnd. eapply NoDup_Permutation_proper; [| exact Hnd].
  by rewrite sort_values_Permutation.
Qed.

(** ** Facts about [max] *)

Lemma foldl_max_ge x rest : x ≤ foldl Z.max x rest ∧ ∀ y, y ∈ rest → y ≤ foldl Z.max x rest.
Proof.
  revert x. induction rest as [|z rest IH]; intros x; simpl.
  - split; [lia |]. intros y Hy. by apply elem_of_nil in Hy.
  - destruct (IH (Z.max x z)) as [H1 H2]. split; [lia |].
    intros y Hy. apply elem_of_cons in Hy as [-> | Hy]; [lia | by apply H2].
Qed.

Lemma foldl_max_elem x rest : foldl Z.max x rest ∈ x :: rest.
Proof.
  revert x. induction rest as [|z rest IH]; intros x; simpl; [by left |].
  specialize (IH (Z.max x z)). apply elem_of_cons in IH as [Heq | Hin].
  - rewrite Heq. destruct (Z.max_spec x z) as [[_ ->] | [_ ->]]; [right; by left | by left].
  - right. by right.
Qed.

(** [max] of a non-empty column is its greatest entry. *)
Lemma py_max_spec xs :
  xs ≠ [] → ∃ m, Py.max xs = Ok m ∧ m ∈ xs ∧ ∀ y, y ∈ xs → y ≤ m.
Proof.
  destruct xs as [|x rest]; [done |]. intros _. exists (foldl Z.max x rest).
  split; [done |]. split; [apply foldl_max_elem |].
  intros y Hy. destruct (foldl_max_ge x rest) as [H1 H2].
  apply elem_of_cons in Hy as [-> | Hy]; [done | by apply H2].
Qed.

(** ** Facts about paths *)

Lemma append_cancel_l (a x y : string) : a +:+ x = a +:+ y → x = y.
Proof. induction a as [|c a IH]; simpl; [done |]. intros H. injection H as H. by apply IH. Qed.

Lemma append_assoc' (a b c : string) : (a +:+ b) +:+ c = a +:+ (b +:+ c).
Proof.
  induction a as [|ch a IH]; [done |].
  change (String ch ((a +:+ b) +:+ c) = String ch (a +:+ (b +:+ c))). by rewrite IH.
Qed.

Lemma hist_file_not_backup data_path month year :
  hist_file data_path ≠ backup_file data_path month year.
Proof.
  unfold hist_file, backup_file, backup_path, Py.path_join.
  rewrite append_assoc'. intros H. apply append_cancel_l in H.
  simpl in H. discriminate H.
Qed.

(** ** Facts about [filter] *)

Lemma filter_none {A} (P : A → Prop) `{∀ x, Decision (P x)} (l : list A) :
  (∀ x, x ∈ l → ¬ P x) → filter P l = [].
Proof.
  induction l as [|a l IH]; intros Hno; [done |].
  rewrite filter_cons. destruct (decide (P a)) as [Ha | _].
  - destruct (Hno a); [by left | done].
  - apply IH. intros x Hx. apply Hno. by right.
Qed.

Lemma filter_all {A} (P : A → Prop) `{∀ x, Decision (P x)} (l : list A) :
  (∀ x, x ∈ l → P x) → filter P l = l.
Proof.
  induction l as [|a l IH]; intros Hall; [done |].
  rewrite filter_cons. destruct (decide (P a)) as [_ | Hn].
  - f_equal. apply IH. intros x Hx. apply Hall. by right.
  - destruct Hn. apply Hall. by left.
Qed.

(** ** The historical merge *)

Section MergeFacts.

Variable disk : nat → option exn.
Variable data_path : string.
Variables current_year current_month : Z.

Local Abbreviation is_current' := (is_current current_year current_month).
Local Abbreviation merged' := (merged current_year current_month).

Local Abbreviation writing_all_file' :=
  (writing_all_file disk data_path current_year current_month).
Local Abbreviation merge_write' := (merge_write data_path current_year current_month).
Local Abbreviation purge := (purge_current current_year current_month).
Local Abbreviation persisted' := (persisted data_path).
Local Abbreviation snapshot' := (snapshot data_path).

Lemma put_sheet_lookup {T} (df : T) sheet wb : put_sheet df sheet wb !! sheet = Some df.
Proof. destruct wb; simpl; [apply lookup_insert_eq | apply lookup_singleton_eq]. Qed.

Lemma written_lookup_eq df path sheet fs :
  written df path sheet fs !! path ≫= (λ sheets, sheets !! sheet) = Some df.
Proof. unfold written. rewrite lookup_insert_eq. simpl. apply put_sheet_lookup. Qed.

Lemma written_lookup_ne df path sheet fs path' :
  path ≠ path' → written df path sheet fs !! path' = fs !! path'.
Proof. intros Hne. unfold written. by rewrite lookup_insert_ne. Qed.

(** The scan finds the first row of the current month. *)
Lemma scan_current_none rows index :
  0 ≤ index →
  (∀ r, r ∈ rows → ¬ is_current' r) →
  scan_current current_year current_month rows index = -1.
Proof.
  revert index. induction rows as [|r rest IH]; intros index Hi Hno; simpl; [done |].
  destruct ((Month r =? current_month) && (Year r =? current_year)) eqn:E.
  - exfalso. apply (Hno r); [by left |]. unfold is_current'. lia.
  - apply IH; [lia |]. intros x Hx. apply Hno. by right.
Qed.

Lemma scan_current_found l1 r l2 index :
  0 ≤ index →
  (∀ x, x ∈ l1 → ¬ is_current' x) → is_current' r →
  scan_current current_year current_month (l1 ++ r :: l2) index
  = index + Z.of_nat (length l1).
Proof.
  revert index. induction l1 as [|a l1 IH]; intros index Hi Hno Hr; simpl.
  - destruct Hr as [Hm Hy].
    rewrite (proj2 (Z.eqb_eq _ _) Hm), (proj2 (Z.eqb_eq _ _) Hy). simpl. lia.
  - destruct ((Month a =? current_month) && (Year a =? current_year)) eqn:E.
    + exfalso. apply (Hno a); [by left |]. unfold is_current'. lia.
    + rewrite IH; [lia | lia | | done]. intros x Hx. apply Hno. by right.
Qed.

(** Every table splits at its first row of the current month, if it has
    one. *)
Lemma first_current_split (rows : DataFrame) :
  (∀ r, r ∈ rows → ¬ is_current' r) ∨
  ∃ l1 r l2, rows = l1 ++ r :: l2 ∧ (∀ x, x ∈ l1 → ¬ is_current' x) ∧ is_current' r.
Proof.
  induction rows as [|a rest IH].
  - left. intros r Hr. by apply elem_of_nil in Hr.
  - destruct (decide (is_current' a)) as [Ha | Ha].
    + right. exists [], a, rest. split; [done |]. split; [| done].
      intros x Hx. by apply elem_of_nil in Hx.
    + destruct IH as [Hno | (l1 & r & l2 & -> & Hno & Hr)].
      * left. intros r Hr. apply elem_of_cons in Hr as [-> | Hr]; [done | by apply Hno].
      * right. exists (a :: l1), r, l2. split; [done |]. split; [| done].
        intros x Hx. apply elem_of_cons in Hx as [-> | Hx]; [done | by apply Hno].
Qed.

Lemma purge_current_none rows :
  (∀ r, r ∈ rows → ¬ is_current' r) → purge rows = rows.
Proof.
  intros Hno. unfold purge_current.
  rewrite scan_current_none by (done || lia).
  by rewrite bool_decide_eq_false_2 by (intros H; by apply H).
Qed.

Lemma purge_current_found l1 r l2 :
  (∀ x, x ∈ l1 → ¬ is_current' x) → is_current' r →
  purge (l1 ++ r :: l2) = l1 ++ l2.
Proof.
  intros Hno Hr. unfold purge_current.
  rewrite scan_current_found by (done || lia).
  rewrite bool_decide_eq_true_2 by lia.
  unfold Pd.drop. rewrite Z.add_0_l, Nat2Z.id.
  induction l1 as [|a l1 IH]; simpl; [done |].
  f_equal. apply IH. intros x Hx. apply Hno. by right.
Qed.

(** *** What a call of [writing_all_file] leaves behind *)

Lemma write_outcome_None k : disk k = None ↔ write_outcome disk k = None.
Proof. unfold write_outcome. destruct (disk k) as [[]|]; split; done. Qed.

(** The existing sheet could be read, there are new records and both writes
    of the [try] succeed: the [try] branch runs to its end. *)
Lemma writing_all_file_loaded w df product existing_df :
  persisted' product w = Some existing_df → df ≠ [] → try_writes_ok disk w →
  ∃ month year,
    Py.max (Month <$> df) = Ok month ∧ Py.max (Year <$> df) = Ok year ∧
    writing_all_file' df product w =
      (mkWorld
         (written (purge existing_df) (backup_file data_path month year) product
            (written (merged' existing_df df) (hist_file data_path) product (files w)))
         (inputs w) (requests w)
         (EvWriteRates (backup_file data_path month year) product
            :: EvWriteRates (hist_file data_path) product :: log w)
         (S (S (writes w))),
       Ok tt).
Proof.
  intros Hex Hne [H0 H1].
  destruct (py_max_spec (Month <$> df)) as (month & Hm & _); [by destruct df |].
  destruct (py_max_spec (Year <$> df)) as (year & Hy & _); [by destruct df |].
  exists month, year. split; [done |]. split; [done |].
  apply write_outcome_None in H0, H1.
  unfold writing_all_file, try_except, bind, read_excel, lift, touch_excel.
  unfold persisted in Hex. rewrite Hex. cbn [writes]. rewrite H0. cbn [writes].
  rewrite Hm, Hy. cbn [writes]. by rewrite H1.
Qed.

(** No sheet could be read, there are new records and both writes of the
    handler succeed: the [except] branch runs to its end. *)
Lemma writing_all_file_fresh w df product :
  persisted' product w = None → df ≠ [] → try_writes_ok disk w →
  ∃ month year,
    Py.max (Month <$> df) = Ok month ∧ Py.max (Year <$> df) = Ok year ∧
    writing_all_file' df product w =
      (mkWorld
         (written (Pd.sort_values df) (backup_file data_path month year) product
            (written (Pd.sort_values df) (hist_file data_path) product (files w)))
         (inputs w) (requests w)
         (EvWriteRates (backup_file data_path month year) product
            :: EvWriteRates (hist_file data_path) product :: log w)
         (S (S (writes w))),
       Ok tt).
Proof.
  intros Hex Hne [H0 H1].
  destruct (py_max_spec (Month <$> df)) as (month & Hm & _); [by destruct df |].
  destruct (py_max_spec (Year <$> df)) as (year & Hy & _); [by destruct df |].
  exists month, year. split; [done |]. split; [done |].
  apply write_outcome_None in H0, H1.
  unfold writing_all_file, try_except, bind, read_excel, lift, touch_excel.
  unfold persisted in Hex. rewrite Hex. cbn [writes]. rewrite H0. cbn [writes].
  rewrite Hm, Hy. cbn [writes]. by rewrite H1.
Qed.

(** Every call, whatever the disk does, is a sequence of attempted writes of
    the sheet of the product; and a call that returns normally has written
    at least once. *)
Lemma writing_all_file_steps w df product :
  merge_steps (merge_write' w df product) product w (writing_all_file' df product w).1 ∧
  ((writing_all_file' df product w).2 = Ok tt →
   (length (log w) < length (log (writing_all_file' df product w).1))%nat).
Proof.
  assert (merge_write' w df product (hist_file data_path) (Pd.sort_values df)) as Hsort
    by (left; split; [done | by left]).
  assert (∀ e, persisted' product w = Some e →
               merge_write' w df product (hist_file data_path) (merged' e df)) as Hmerged
    by (intros e He; left; split; [done | right; by exists e]).
  assert (∀ m y t, merge_write' w df product (backup_file data_path m y) t) as Hbackup
    by (intros m y t; right; by exists m, y).
  unfold writing_all_file, try_except, bind, read_excel, lift, touch_excel.
  fold (persisted' product w).
  destruct (persisted' product w) as [existing_df|] eqn:Hex; cbn [fst snd writes log files
    inputs requests];
    repeat (match goal with
            | |- context [match write_outcome disk ?k with _ => _ end] =>
                destruct (write_outcome disk k); cbn [fst snd writes log files inputs requests]
            | |- context [match Py.max ?l with _ => _ end] =>
                destruct (Py.max l); cbn [fst snd writes log files inputs requests]
            end);
    (split;
     [ repeat first [ apply steps_none
                    | apply (steps_written _ _ _ _ _ _ _ _ (hist_file data_path));
                      [| first [by apply Hmerged | by apply Hsort]]
                    | apply steps_written; [| by apply Hbackup]
                    | apply steps_refused ]
     | intros; first [discriminate | simpl; lia] ]).
Qed.

(** *** Helper facts shared by the merge theorems *)

Lemma is_current_period r :
  is_current' r ↔ period r = (current_year, current_month).
Proof. unfold is_current', period. split; [intros [-> ->]; done | intros [= -> ->]; done]. Qed.

Lemma merged_NoDup existing_df df : NoDup (period <$> merged' existing_df df).
Proof. apply sort_values_NoDup, drop_duplicates_NoDup. Qed.

Lemma merged_filter existing_df df k :
  filter (λ r, period r = k) (merged' existing_df df)
  = take 1 (filter (λ r, period r = k) (purge existing_df ++ df)).
Proof. unfold merged'. by rewrite sort_values_filter, drop_duplicates_filter. Qed.

(** A table with one row per period has no row of the current month left
    once the scan and the [drop] are done. *)
Lemma purge_current_clean rows :
  NoDup (period <$> rows) → ∀ r, r ∈ purge rows → ¬ is_current' r.
Proof.
  intros Hnd. destruct (first_current_split rows) as [Hno | (l1 & c & l2 & -> & Hno & Hc)].
  - by rewrite purge_current_none.
  - rewrite purge_current_found by done.
    intros r Hr Hcur. apply elem_of_app in Hr as [Hr | Hr]; [by apply (Hno r) |].
    rewrite fmap_app, fmap_cons in Hnd.
    apply NoDup_app in Hnd as (_ & _ & Hnd). apply NoDup_cons in Hnd as [Hnd _].
    apply Hnd. apply is_current_period in Hc. apply is_current_period in Hcur.
    rewrite Hc, <- Hcur. by apply list_elem_of_fmap_2.
Qed.

(** What a sequence of attempted writes leaves of the world. *)
Lemma merge_steps_frame admits product w w' :
  merge_steps admits product w w' →
  inputs w' = inputs w ∧ requests w' = requests w ∧ (writes w ≤ writes w')%nat ∧
  ∃ evs, log w' = evs ++ log w ∧
         Forall (λ e, ∃ path t, e = EvWriteRates path product ∧ admits path t) evs.
Proof.
  induction 1 as [| fs ins rq lg n path t _ (Hi & Hr & Hw & evs & Hl & He) Hadm
                  | fs ins rq lg n _ (Hi & Hr & Hw & evs & Hl & He)]; cbn in *.
  - repeat split; [lia |]. by exists [].
  - repeat split; [done | done | lia |].
    exists (EvWriteRates path product :: evs). split; [by rewrite Hl |].
    constructor; [by exists path, t | done].
  - repeat split; [done | done | lia |]. by exists evs.
Qed.

(** The sheet of the product in the historical file after a sequence of
    attempted writes: as it was, or a table written there. *)
Lemma merge_steps_persisted admits product w w' :
  merge_steps admits product w w' →
  persisted' product w' = persisted' product w ∨
  ∃ t, persisted' product w' = Some t ∧ admits (hist_file data_path) t.
Proof.
  induction 1 as [| fs ins rq lg n path t _ IH Hadm | fs ins rq lg n _ IH].
  - by left.
  - unfold persisted in *. cbn [files] in *.
    destruct (decide (path = hist_file data_path)) as [-> | Hne].
    + right. exists t. split; [apply written_lookup_eq | done].
    + by rewrite written_lookup_ne.
  - exact IH.
Qed.

(** The sheets of the other products after a sequence of attempted
    writes. *)
Lemma merge_steps_other admits product w w' path sheet :
  merge_steps admits product w w' → sheet ≠ product →
  files w' !! path ≫= (λ sheets, sheets !! sheet)
  = files w !! path ≫= (λ sheets, sheets !! sheet).
Proof.
  intros Hsteps Hne.
  induction Hsteps as [| fs ins rq lg n p t _ IH Hadm | fs ins rq lg n _ IH]; cbn [files] in *.
  - done.
  - rewrite <- IH. unfold written. destruct (decide (p = path)) as [-> | Hp].
    + rewrite lookup_insert_eq. simpl.
      destruct (fs !! path) as [sheets|]; simpl.
      * by rewrite lookup_insert_ne.
      * by rewrite lookup_singleton_ne.
    + by rewrite lookup_insert_ne.
  - exact IH.
Qed.

(** The table in the historical file after a call: as it was, the merged
    table, or the new records sorted. *)
Lemma persisted_after w df product :
  persisted' product (writing_all_file' df product w).1 = persisted' product w ∨
  persisted' product (writing_all_file' df product w).1 = Some (Pd.sort_values df) ∨
  ∃ existing_df, persisted' product w = Some existing_df ∧
                 persisted' product (writing_all_file' df product w).1
                 = Some (merged' existing_df df).
Proof.
  destruct (merge_steps_persisted _ product w _ (proj1 (writing_all_file_steps w df product)))
    as [Hsame | (t & Ht & [[_ [-> | (e & He & ->)]] | (m & y & Hp)])].
  - by left.
  - right. by left.
  - right. right. by exists e.
  - by apply hist_file_not_backup in Hp.
Qed.

(** After a call whose [try] ran to its end the historical file holds the
    merged table. *)
Lemma persisted_after_loaded w df product existing_df :
  persisted' product w = Some existing_df → df ≠ [] → try_writes_ok disk w →
  persisted' product (writing_all_file' df product w).1 = Some (merged' existing_df df).
Proof.
  intros Hex Hne Hok.
  destruct (writing_all_file_loaded w df product existing_df Hex Hne Hok)
    as (month & year & _ & _ & ->).
  unfold persisted. cbn [fst files].
  rewrite written_lookup_ne by (intros H; symmetry in H; by apply hist_file_not_backup in H).
  apply written_lookup_eq.
Qed.

(** After a first call whose writes succeed the historical file holds the
    new records, sorted. *)
Lemma persisted_after_fresh w df product :
  persisted' product w = None → df ≠ [] → try_writes_ok disk w →
  persisted' product (writing_all_file' df product w).1 = Some (Pd.sort_values df).
Proof.
  intros Hex Hne Hok.
  destruct (writing_all_file_fresh w df product Hex Hne Hok) as (month & year & _ & _ & ->).
  unfold persisted. cbn [fst files].
  rewrite written_lookup_ne by (intros H; symmetry in H; by apply hist_file_not_backup in H).
  apply written_lookup_eq.
Qed.

Lemma NoDup_one_per_period (t : DataFrame) : NoDup (period <$> t) → one_per_period t.
Proof.
  intros Hnd i j a b Hi Hj Hab.
  eapply (NoDup_lookup _ i j (period a) Hnd).
  - by rewrite list_lookup_fmap, Hi.
  - by rewrite list_lookup_fmap, Hj, Hab.
Qed.

Lemma strictly_descending (t : DataFrame) :
  Sorted may_stand_before t → NoDup (period <$> t) → StronglySorted strictly_before t.
Proof.
  intros Hs Hnd. apply Sorted_StronglySorted; [| by apply Sorted_strictly].
  intros a b c. unfold strictly_before. lia.
Qed.

Lemma merged_Sorted existing_df df : Sorted may_stand_before (merged' existing_df df).
Proof. apply sort_values_Sorted. Qed.

(** With new records of pairwise distinct periods, a call leaves the
    historical sheet as it was or with one row per period, in descending
    order. *)
Lemma persisted_after_NoDup w df product :
  NoDup (period <$> df) →
  persisted' product (writing_all_file' df product w).1 = persisted' product w ∨
  ∃ t, persisted' product (writing_all_file' df product w).1 = Some t ∧
       NoDup (period <$> t) ∧ Sorted may_stand_before t.
Proof.
  intros Hnd. destruct (persisted_after w df product) as [Hsame | [Hsort | (e & _ & Hm)]].
  - by left.
  - right. eexists. split; [exact Hsort |].
    split; [by apply sort_values_NoDup | apply sort_values_Sorted].
  - right. eexists. split; [exact Hm |]. split; [apply merged_NoDup | apply merged_Sorted].
Qed.

(** In every case the historical sheet is left as it was or in descending
    order. *)
Lemma persisted_after_Sorted w df product :
  persisted' product (writing_all_file' df product w).1 = persisted' product w ∨
  ∃ t, persisted' product (writing_all_file' df product w).1 = Some t ∧
       Sorted may_stand_before t.
Proof.
  destruct (persisted_after w df product) as [Hsame | [Hsort | (e & _ & Hm)]].
  - by left.
  - right. eexists. split; [exact Hsort | apply sort_values_Sorted].
  - right. eexists. split; [exact Hm | apply merged_Sorted].
Qed.

(** A table with a single row of the current month: the scan and the [drop]
    remove that row and no other. *)
Lemma purge_current_single rows c :
  filter is_current' rows = [c] → purge rows = filter (λ r, ¬ is_current' r) rows.
Proof.
  intros Hf.
  destruct (first_current_split rows) as [Hno | (l1 & r & l2 & -> & Hno & Hr)].
  - rewrite (filter_none is_current' rows Hno) in Hf. done.
  - rewrite purge_current_found by done.
    rewrite filter_app, filter_cons in Hf.
    rewrite (filter_none is_current' l1 Hno) in Hf.
    destruct (decide (is_current' r)) as [_ | Hn]; [| done].
    injection Hf as _ Hl2.
    rewrite filter_app, filter_cons.
    destruct (decide (¬ is_current' r)) as [Hn | _]; [done |].
    f_equal.
    + symmetry. apply filter_all. intros x Hx. by apply Hno.
    + symmetry. apply filter_all. intros x Hx Hcur.
      assert (x ∈ filter is_current' l2) as Hin by (by apply list_elem_of_filter).
      rewrite Hl2 in Hin. by apply elem_of_nil in Hin.
Qed.

Global Instance strictly_before_trans : Transitive strictly_before.
Proof. intros a b c. unfold strictly_before. lia. Qed.

End MergeFacts.

(** ** The claims about the historical merge *)

Section MergeClaims.

Variable disk : nat → option exn.
Variable data_path : string.
Variables current_year current_month : Z.

Local Abbreviation writing_all_file' :=
  (writing_all_file disk data_path current_year current_month).
Local Abbreviation purge := (purge_current current_year current_month).
Local Abbreviation persisted' := (persisted data_path).
Local Abbreviation snapshot' := (snapshot data_path).
Local Abbreviation is_current' := (is_current current_year current_month).
Local Abbreviation merged' := (merged current_year current_month).

(** C1, as amended.  When the sheet of the currency could be read and both
    writes of the [try] succeed, the table persisted by the merge holds no
    two records with the same (year, month) pair; and when the new records
    have pairwise distinct (year, month) pairs, the merge leaves the sheet
    as it was (no write to the historical file went through) or holds no
    two such records, whatever the disk does. *)
Theorem merge_no_duplicate_periods (w : World) (df : DataFrame) (product : string) :
  (is_Some (persisted' product w) → df ≠ [] → try_writes_ok disk w →
   ∃ t, persisted' product (writing_all_file' df product w).1 = Some t ∧ one_per_period t) ∧
  (NoDup (period <$> df) →
   persisted' product (writing_all_file' df product w).1 = persisted' product w ∨
   ∃ t, persisted' product (writing_all_file' df product w).1 = Some t ∧ one_per_period t).
Proof.
  split.
  - intros [existing_df Hex] Hne Hok. exists (merged' existing_df df).
    split; [by apply persisted_after_loaded |].
    apply NoDup_one_per_period, merged_NoDup.
  - intros Hnd.
    destruct (persisted_after_NoDup disk data_path current_year current_month w df product Hnd)
      as [Hsame | (t & Ht & Hnd' & _)]; [by left |].
    right. exists t. split; [done | by apply NoDup_one_per_period].
Qed.

(** C4, as amended.  Under the same conditions the persisted table is in
    strictly descending order: each row stands before every later row with a
    greater year, or the same year and a greater month. *)
Theorem merge_strictly_descending (w : World) (df : DataFrame) (product : string) :
  (is_Some (persisted' product w) → df ≠ [] → try_writes_ok disk w →
   ∃ t, persisted' product (writing_all_file' df product w).1 = Some t ∧
        StronglySorted strictly_before t) ∧
  (NoDup (period <$> df) →
   persisted' product (writing_all_file' df product w).1 = persisted' product w ∨
   ∃ t, persisted' product (writing_all_file' df product w).1 = Some t ∧
        StronglySorted strictly_before t).
Proof.
  split.
  - intros [existing_df Hex] Hne Hok. exists (merged' existing_df df).
    split; [by apply persisted_after_loaded |].
    apply strictly_descending; [apply merged_Sorted | apply merged_NoDup].
  - intros Hnd.
    destruct (persisted_after_NoDup disk data_path current_year current_month w df product Hnd)
      as [Hsame | (t & Ht & Hnd' & Hs)]; [by left |].
    right. exists t. split; [done | by apply strictly_descending].
Qed.


(** C2, as amended.  When the existing table holds exactly one record [c] of
    the current calendar month and the writes succeed, the merge removes
    [c] and no other row before it appends the new records, so that the
    persisted table holds, of the current month, the first new record of
    that month and nothing else ([c] itself only if it was fetched again);
    and after a second merge in the same month it holds, of that month,
    the first such record of the second fetch, with one row per period. *)
Theorem merge_replaces_current_month (w : World) (df df2 : DataFrame) (product : string)
    (existing_df : DataFrame) (c : RateRecord) :
  persisted' product w = Some existing_df →
  filter is_current' existing_df = [c] →
  df ≠ [] → df2 ≠ [] →
  try_writes_ok disk w →
  try_writes_ok disk (writing_all_file' df product w).1 →
  let w1 := (writing_all_file' df product w).1 in
  let w2 := (writing_all_file' df2 product w1).1 in
  (c ∈ existing_df ∧ is_current' c ∧ (c ∉ purge existing_df) ∧
   (∀ x, x ∈ purge existing_df ↔ (x ∈ existing_df ∧ ¬ is_current' x))) ∧
  (∃ t1, persisted' product w1 = Some t1 ∧
         filter is_current' t1 = take 1 (filter is_current' df) ∧
         (c ∈ t1 → c ∈ df)) ∧
  (∃ t2, persisted' product w2 = Some t2 ∧
         filter is_current' t2 = take 1 (filter is_current' df2) ∧
         one_per_period t2).
Proof.
  intros Hex Hf Hne Hne2 Hok Hok1 w1 w2.
  assert (c ∈ existing_df ∧ is_current' c) as [Hc Hcur].
  { assert (c ∈ filter is_current' existing_df) as Hin by (rewrite Hf; by left).
    apply list_elem_of_filter in Hin. tauto. }
  pose proof (purge_current_single current_year current_month existing_df c Hf) as Hp.
  assert (∀ x, x ∈ purge existing_df ↔ (x ∈ existing_df ∧ ¬ is_current' x)) as Hpurge.
  { intros x. rewrite Hp, list_elem_of_filter. tauto. }
  assert (∀ existing t df0,
            (∀ x, x ∈ purge existing → ¬ is_current' x) →
            t = merged' existing df0 →
            filter is_current' t = take 1 (filter is_current' df0)) as Hfresh.
  { intros existing t df0 Hno ->.
    rewrite (list_filter_iff _ (λ r, period r = (current_year, current_month)))
      by (intros; apply is_current_period).
    rewrite (list_filter_iff is_current' (λ r, period r = (current_year, current_month)))
      by (intros; apply is_current_period).
    rewrite merged_filter, filter_app.
    rewrite (filter_none _ (purge existing)); [done |].
    intros x Hx Hper. apply (Hno x Hx). by apply is_current_period. }
  assert (persisted' product w1 = Some (merged' existing_df df)) as H1
    by (by apply persisted_after_loaded).
  assert (filter is_current' (merged' existing_df df) = take 1 (filter is_current' df)) as Hf1.
  { apply (Hfresh existing_df); [| done]. intros x Hx. by apply Hpurge in Hx as [_ ?]. }
  split; [| split].
  - split; [done |]. split; [done |]. split; [| done].
    intros Hin. apply Hpurge in Hin as [_ Hn]. by apply Hn.
  - exists (merged' existing_df df). split; [done |]. split; [done |].
    intros Hin.
    assert (c ∈ filter is_current' (merged' existing_df df)) as Hin'
      by (by apply list_elem_of_filter).
    rewrite Hf1 in Hin'. apply elem_of_take in Hin' as (i & Hi & _).
    apply list_elem_of_lookup_2 in Hi. by apply list_elem_of_filter in Hi as [_ ?].
  - exists (merged' (merged' existing_df df) df2).
    split; [by apply persisted_after_loaded |]. split.
    + apply (Hfresh (merged' existing_df df)); [| done].
      apply purge_current_clean, merged_NoDup.
    + apply NoDup_one_per_period, merged_NoDup.
Qed.

(** C8, as amended.  When the sheet of the currency could be read and both
    writes of the [try] succeed, the merge writes one backup: its content is
    the existing table as it stands after the row of the current month is
    removed and before the new records are appended, and its file name is
    formed from the greatest [Month] entry and the greatest [Year] entry of
    the new records, each taken over its own column. *)
Theorem backup_snapshot_of_merge (w : World) (df : DataFrame) (product : string)
    (existing_df : DataFrame) :
  persisted' product w = Some existing_df → df ≠ [] → try_writes_ok disk w →
  ∃ month year,
    (month ∈ Month <$> df ∧ ∀ r, r ∈ df → Month r ≤ month) ∧
    (year ∈ Year <$> df ∧ ∀ r, r ∈ df → Year r ≤ year) ∧
    let w' := (writing_all_file' df product w).1 in
    log w' = EvWriteRates (backup_file data_path month year) product
               :: EvWriteRates (hist_file data_path) product :: log w ∧
    backup_file data_path month year
      = Py.path_join (Py.path_join data_path "Backups")
          (pretty month +:+ " " +:+ pretty year +:+ " All-Xrates-Data.xlsx") ∧
    snapshot' month year product w' = Some (purge existing_df).
Proof.
  intros Hex Hne Hok.
  destruct (writing_all_file_loaded disk data_path current_year current_month
              w df product existing_df Hex Hne Hok) as (month & year & Hm & Hy & Hrun).
  destruct (py_max_spec (Month <$> df)) as (month' & Hm' & Hmin & Hmax); [by destruct df |].
  destruct (py_max_spec (Year <$> df)) as (year' & Hy' & Hyin & Hymax); [by destruct df |].
  rewrite Hm in Hm'. rewrite Hy in Hy'. injection Hm' as <-. injection Hy' as <-.
  exists month, year. split; [| split].
  - split; [done |]. intros r Hr. apply Hmax. by apply list_elem_of_fmap_2.
  - split; [done |]. intros r Hr. apply Hymax. by apply list_elem_of_fmap_2.
  - rewrite Hrun. simpl. split; [done |]. split; [done |].
    unfold snapshot. simpl. apply written_lookup_eq.
Qed.

End MergeClaims.

(** *** The merge on concrete tables *)

Lemma sound_try_writes_ok w : try_writes_ok sound w.
Proof. by split. Qed.

(** C1, a merge the claim as first stated fails on: on the first run (no
    sheet to read) the new records are sorted and persisted as they are, so
    a month listed twice is persisted twice. *)
Lemma merge_first_run_keeps_duplicates :
  ∃ t a b,
    persisted "data" "EUR" (writing_all_file sound "data" 2023 6 repeated "EUR" first_run).1
      = Some t ∧
    t !! 0%nat = Some a ∧ t !! 1%nat = Some b ∧ period a = period b.
Proof.
  exists repeated, (rate 2023 1 1.25), (rate 2023 1 1.5).
  split; [vm_compute; reflexivity |]. by repeat split.
Qed.

Lemma merge_no_duplicate_periods_witness :
  (∃ t, persisted "data" "EUR"
          (writing_all_file sound "data" 2023 6 fetched "EUR" (with_history history)).1 = Some t ∧
        one_per_period t) ∧
  (persisted "data" "EUR" (writing_all_file (locked_at 0) "data" 2023 6 fetched "EUR" first_run).1
   = persisted "data" "EUR" first_run ∨
   ∃ t, persisted "data" "EUR"
          (writing_all_file (locked_at 0) "data" 2023 6 fetched "EUR" first_run).1 = Some t ∧
        one_per_period t).
Proof.
  split.
  - apply (merge_no_duplicate_periods sound "data" 2023 6 (with_history history) fetched "EUR").
    + exists history. vm_compute. reflexivity.
    + done.
    + apply sound_try_writes_ok.
  - apply (merge_no_duplicate_periods (locked_at 0) "data" 2023 6 first_run fetched "EUR").
    apply (bool_decide_unpack _). vm_compute. exact I.
Defined.

(** C4, a merge the claim as first stated fails on: the table persisted on
    the first run from a month listed twice has two neighbours of one
    period, neither strictly before the other. *)
Lemma merge_first_run_not_strict :
  ∃ a b rest,
    persisted "data" "EUR" (writing_all_file sound "data" 2023 6 repeated "EUR" first_run).1
      = Some (a :: b :: rest) ∧
    ¬ strictly_before a b.
Proof.
  exists (rate 2023 1 1.25), (rate 2023 1 1.5), [].
  split; [vm_compute; reflexivity |].
  unfold strictly_before. simpl. lia.
Qed.

Lemma merge_strictly_descending_witness :
  (∃ t, persisted "data" "EUR"
          (writing_all_file sound "data" 2023 6 fetched "EUR" (with_history history)).1 = Some t ∧
        StronglySorted strictly_before t) ∧
  (persisted "data" "EUR" (writing_all_file sound "data" 2023 6 fetched "EUR" first_run).1
   = persisted "data" "EUR" first_run ∨
   ∃ t, persisted "data" "EUR" (writing_all_file sound "data" 2023 6 fetched "EUR" first_run).1
        = Some t ∧
        StronglySorted strictly_before t).
Proof.
  split.
  - apply (merge_strictly_descending sound "data" 2023 6 (with_history history) fetched "EUR").
    + exists history. vm_compute. reflexivity.
    + done.
    + apply sound_try_writes_ok.
  - apply (merge_strictly_descending sound "data" 2023 6 first_run fetched "EUR").
    apply (bool_decide_unpack _). vm_compute. exact I.
Defined.



(** C2, a merge the claim as first stated fails on: the existing table holds
    two records of the current month, June 2023.  The scan removes the
    first; the second stands before the newly fetched record of June in
    the concatenation, so [drop_duplicates] keeps the old record and drops
    the new one: the month's record is not replaced. *)
Lemma merge_keeps_stale_current_row :
  is_current 2023 6 (rate 2023 6 1.25) ∧
  persisted "data" "EUR"
    (writing_all_file sound "data" 2023 6 [rate 2023 6 2] "EUR"
       (with_history [rate 2023 6 1.125; rate 2023 6 1.25; rate 2023 5 1.5])).1
  = Some [rate 2023 6 1.25; rate 2023 5 1.5].
Proof. split; [by split |]. vm_compute. reflexivity. Qed.

Lemma merge_replaces_current_month_witness :
  let w1 := (writing_all_file sound "data" 2023 6 fetched "EUR" (with_history history)).1 in
  let w2 := (writing_all_file sound "data" 2023 6 fetched "EUR" w1).1 in
  (rate 2023 6 1.125 ∈ history ∧ is_current 2023 6 (rate 2023 6 1.125) ∧
   (rate 2023 6 1.125 ∉ purge_current 2023 6 history) ∧
   (∀ x, x ∈ purge_current 2023 6 history ↔ (x ∈ history ∧ ¬ is_current 2023 6 x))) ∧
  (∃ t1, persisted "data" "EUR" w1 = Some t1 ∧
         filter (is_current 2023 6) t1 = take 1 (filter (is_current 2023 6) fetched) ∧
         (rate 2023 6 1.125 ∈ t1 → rate 2023 6 1.125 ∈ fetched)) ∧
  (∃ t2, persisted "data" "EUR" w2 = Some t2 ∧
         filter (is_current 2023 6) t2 = take 1 (filter (is_current 2023 6) fetched) ∧
         one_per_period t2).
Proof.
  apply (merge_replaces_current_month sound "data" 2023 6 (with_history history) fetched fetched
           "EUR" history (rate 2023 6 1.125)).
  - vm_compute. reflexivity.
  - vm_compute. reflexivity.
  - done.
  - done.
  - apply sound_try_writes_ok.
  - apply sound_try_writes_ok.
Defined.

(** C8, a merge the claim as first stated fails on: from records of December
    2022 and January 2023 the backup is named after month 12 and year 2023,
    a (month, year) pair that none of the new records has. *)
Lemma backup_name_not_a_fetched_period :
  head (log (writing_all_file sound "data" 2023 1 two_years "EUR" (with_history history)).1)
    = Some (EvWriteRates "data/Backups/12 2023 All-Xrates-Data.xlsx" "EUR") ∧
  ∀ r, r ∈ two_years → (Month r, Year r) ≠ (12, 2023).
Proof.
  split; [vm_compute; reflexivity |].
  intros r Hr. unfold two_years in Hr.
  apply elem_of_cons in Hr as [-> | Hr]; [by simpl |].
  apply elem_of_cons in Hr as [-> | Hr]; [by simpl |].
  by apply elem_of_nil in Hr.
Qed.

Lemma backup_snapshot_of_merge_witness :
  ∃ month year,
    (month ∈ Month <$> two_years ∧ ∀ r, r ∈ two_years → Month r ≤ month) ∧
    (year ∈ Year <$> two_years ∧ ∀ r, r ∈ two_years → Year r ≤ year) ∧
    let w' := (writing_all_file sound "data" 2023 1 two_years "EUR" (with_history history)).1 in
    log w' = EvWriteRates (backup_file "data" month year) "EUR"
               :: EvWriteRates (hist_file "data") "EUR" :: log (with_history history) ∧
    backup_file "data" month year
      = Py.path_join (Py.path_join "data" "Backups")
          (pretty month +:+ " " +:+ pretty year +:+ " All-Xrates-Data.xlsx") ∧
    snapshot "data" month year "EUR" w' = Some (purge_current 2023 1 history).
Proof.
  apply (backup_snapshot_of_merge sound "data" 2023 1 (with_history history) two_years "EUR"
           history).
  - vm_compute. reflexivity.
  - done.
  - apply sound_try_writes_ok.
Defined.

(** ** The record builder *)

(** A float that compares below or above zero does not compare equal to
    zero. *)
Lemma float_lt_zero_neq (x : float) :
  PrimFloat.ltb 0 x = true ∨ PrimFloat.ltb x 0 = true → PrimFloat.eqb x 0 = false.
Proof.
  rewrite !FloatAxioms.ltb_spec, FloatAxioms.eqb_spec.
  change (Prim2SF 0) with (S754_zero false).
  destruct (Prim2SF x) as [[|] | [|] | | [|] m e]; vm_compute; intuition congruence.
Qed.

Lemma inverse_rate_nonzero (crate : float) :
  PrimFloat.eqb crate 0 = false → inverse_rate crate = PrimFloat.div 1 crate.
Proof. intros H. unfold inverse_rate, Py.truediv. by rewrite H. Qed.

Lemma inverse_rate_zero (crate : float) :
  PrimFloat.eqb crate 0 = true → inverse_rate crate = 0%float.
Proof. intros H. unfold inverse_rate, Py.truediv. by rewrite H. Qed.

Section BuilderFacts.

Variable parse_float : string → option float.

(** A line of fewer than two tokens is skipped. *)
Lemma build_line_skip curr year lis data :
  (length (Py.split " " lis) ≤ 1)%nat → build_line parse_float curr year lis data = Ok data.
Proof.
  unfold build_line. destruct (Py.split " " lis) as [|t0 [|t1 extra]]; simpl; [done | done | lia].
Qed.

(** A line of two tokens or more: the first two decide the outcome. *)
Lemma build_line_tokens curr year lis data month crate extra :
  Py.split " " lis = month :: crate :: extra →
  build_line parse_float curr year lis data =
    result_bind (py_float parse_float crate) (λ x,
    result_bind (extract_date month year) (λ d,
    Ok (data ++ [mkRate curr "USD" year (date_month d) x (inverse_rate x)]))).
Proof. intros H. unfold build_line. by rewrite H. Qed.

(** What a turn of the line loop does to [data]: nothing, or one record
    appended whose inverse rate is [inverse_rate] of its rate. *)
Lemma build_line_Ok curr year lis data data' :
  build_line parse_float curr year lis data = Ok data' →
  data' = data ∨
  ∃ rec, data' = data ++ [rec] ∧ Year rec = year ∧ Currency_1 rec = curr ∧
         from_USD rec = inverse_rate (to_USD rec).
Proof.
  unfold build_line. destruct (Py.split " " lis) as [|month [|crate extra]].
  - intros [= <-]. by left.
  - intros [= <-]. by left.
  - unfold py_float. destruct (parse_float crate) as [x|]; simpl; [| done].
    destruct (extract_date month year) as [d|]; simpl; [| done].
    intros [= <-]. right. by eexists.
Qed.

(** C5, as amended.  A line whose second token parses to the rate [r], and
    whose first token names a month, appends one record to [data]: its rate
    is [r], and its inverse rate is [1/r] for every [r] that does not
    compare equal to zero, a negative [r] included, and 0 for an [r] that
    compares equal to zero. *)
Theorem built_record_inverse_rate (curr : string) (year : Z) (lis : string)
    (data : DataFrame) (month crate : string) (extra : list string) (r : float) (d : date) :
  Py.split " " lis = month :: crate :: extra →
  parse_float crate = Some r →
  extract_date month year = Ok d →
  ∃ rec,
    build_line parse_float curr year lis data = Ok (data ++ [rec]) ∧
    to_USD rec = r ∧
    (PrimFloat.ltb 0 r = true → from_USD rec = PrimFloat.div 1 r) ∧
    (PrimFloat.ltb r 0 = true → from_USD rec = PrimFloat.div 1 r) ∧
    (PrimFloat.eqb r 0 = false → from_USD rec = PrimFloat.div 1 r) ∧
    (PrimFloat.eqb r 0 = true → from_USD rec = 0%float).
Proof.
  intros Htok Hr Hd.
  exists (mkRate curr "USD" year (date_month d) r (inverse_rate r)).
  split.
  - rewrite (build_line_tokens curr year lis data month crate extra Htok).
    unfold py_float. rewrite Hr. simpl. by rewrite Hd.
  - split; [done |]. simpl. repeat split; intros Hc.
    + apply inverse_rate_nonzero, float_lt_zero_neq. by left.
    + apply inverse_rate_nonzero, float_lt_zero_neq. by right.
    + by apply inverse_rate_nonzero.
    + by apply inverse_rate_zero.
Qed.

End BuilderFacts.

(** *** The builder on concrete lines *)

(** The line ["Jan 1.10"] fetched for 2023 gives the record of January 2023
    with rate 1.10 and inverse 0.909..., and the one-token line ["Total"] is
    skipped. *)
Example build_line_january :
  build_line example_float "EUR" 2023 "Jan 1.10" []
  = Ok [mkRate "EUR" "USD" 2023 1 1.1 0.90909090909090906].
Proof. vm_compute. reflexivity. Qed.

Example build_line_total (data : DataFrame) :
  build_line example_float "EUR" 2023 "Total" data = Ok data.
Proof. reflexivity. Qed.

(** C5, a rate the claim as first stated fails on: the rate -2 is below
    zero, and the record gets the inverse -0.5, not 0. *)
Lemma negative_rate_inverse_not_zero :
  ∃ rec,
    build_line example_float "EUR" 2023 "Jan -2" [] = Ok [rec] ∧
    PrimFloat.leb (to_USD rec) 0 = true ∧
    from_USD rec = (-0.5)%float ∧
    PrimFloat.eqb (from_USD rec) 0 = false.
Proof.
  exists (mkRate "EUR" "USD" 2023 1 (-2) (-0.5)).
  split; [vm_compute; reflexivity |]. by repeat split.
Qed.

Lemma built_record_inverse_rate_witness :
  ∃ rec,
    build_line example_float "EUR" 2023 "Jan 0.5 extra" [rate 2022 12 2]
    = Ok ([rate 2022 12 2] ++ [rec]) ∧
    to_USD rec = 0.5%float ∧
    (PrimFloat.ltb 0 0.5 = true → from_USD rec = PrimFloat.div 1 0.5) ∧
    (PrimFloat.ltb 0.5 0 = true → from_USD rec = PrimFloat.div 1 0.5) ∧
    (PrimFloat.eqb 0.5 0 = false → from_USD rec = PrimFloat.div 1 0.5) ∧
    (PrimFloat.eqb 0.5 0 = true → from_USD rec = 0%float).
Proof.
  apply (built_record_inverse_rate example_float "EUR" 2023 "Jan 0.5 extra" [rate 2022 12 2]
           "Jan" "0.5" ["extra"] 0.5 (mkDate 2023 1 1)).
  - vm_compute. reflexivity.
  - vm_compute. reflexivity.
  - vm_compute. reflexivity.
Defined.

(** ** The fetcher *)

Section FetchFacts.

Variable net : nat → option string.
Variable parse_float : string → option float.

Lemma failed_attempts_shift curr year k (l : list Event) :
  failed_attempts curr year k ++ EvSleep 1 :: EvGet curr year :: l
  = EvSleep 1 :: EvGet curr year :: failed_attempts curr year k ++ l.
Proof.
  induction k as [|k IH]; [done |].
  change (failed_attempts curr year (S k))
    with (EvSleep 1 :: EvGet curr year :: failed_attempts curr year k).
  rewrite <- !app_comm_cons, IH. reflexivity.
Qed.

(** Every attempt fails: the loop runs its budget down and leaves [flag] and
    [lists] as they were. *)
Lemma retry_loop_exhausted retry curr year flag lists w :
  (∀ i, (i < retry)%nat → net (requests w + i)%nat = None) →
  retry_loop net retry curr year flag lists w =
    (mkWorld (files w) (inputs w) (requests w + retry)%nat
             (failed_attempts curr year retry ++ log w) (writes w),
     Ok (flag, lists)).
Proof.
  revert w. induction retry as [|retry IH]; intros w Hnet.
  - simpl. unfold ret. destruct w. simpl. by rewrite Nat.add_0_r.
  - pose proof (Hnet 0%nat ltac:(lia)) as H0. rewrite Nat.add_0_r in H0.
    simpl. unfold try_except, bind, request_lines, emit. rewrite H0. simpl.
    rewrite IH.
    + simpl. rewrite failed_attempts_shift.
      f_equal. f_equal. lia.
    + intros i Hi. simpl. rewrite <- Nat.add_succ_r. apply Hnet. lia.
Qed.

(** The first [k] attempts fail and the next one succeeds: the loop breaks
    with [flag = 0] and the lines of that page. *)
Lemma retry_loop_success retry curr year flag lists w k text :
  (k < retry)%nat →
  (∀ i, (i < k)%nat → net (requests w + i)%nat = None) →
  net (requests w + k)%nat = Some text →
  retry_loop net retry curr year flag lists w =
    (mkWorld (files w) (inputs w) (requests w + S k)%nat
             (EvGet curr year :: failed_attempts curr year k ++ log w) (writes w),
     Ok (0, Py.split "010" text)).
Proof.
  revert w k. induction retry as [|retry IH]; intros w k Hk Hfail Hok; [lia |].
  simpl. unfold try_except, bind, request_lines, emit, ret.
  destruct k as [|k].
  - rewrite Nat.add_0_r in Hok. rewrite Hok. simpl.
    f_equal. f_equal. lia.
  - pose proof (Hfail 0%nat ltac:(lia)) as H0. rewrite Nat.add_0_r in H0.
    rewrite H0. simpl.
    rewrite (IH _ k); [| lia | |]; simpl.
    + rewrite failed_attempts_shift.
      f_equal. f_equal. lia.
    + intros i Hi. rewrite <- Nat.add_succ_r. apply Hfail. lia.
    + by rewrite <- Nat.add_succ_r.
Qed.

(** Within a budget either every attempt fails or there is a first one that
    succeeds. *)
Lemma first_success (start retry : nat) :
  (∀ i, (i < retry)%nat → net (start + i)%nat = None) ∨
  ∃ k text, (k < retry)%nat ∧ (∀ i, (i < k)%nat → net (start + i)%nat = None) ∧
            net (start + k)%nat = Some text.
Proof.
  induction retry as [|retry IH]; [left; lia |].
  destruct IH as [Hall | (k & text & Hk & Hfail & Hok)].
  - destruct (net (start + retry)%nat) as [text|] eqn:E.
    + right. exists retry, text. split; [lia |]. by split.
    + left. intros i Hi. destruct (decide (i = retry)) as [-> | Hne]; [done |].
      apply Hall. lia.
  - right. exists k, text. split; [lia |]. by split.
Qed.

(** One turn of the year loop when the fetch gave up: the year is skipped
    and the loop goes on with the next year and the same [data]. *)
Lemma year_loop_skip turns curr year lists data w :
  (∀ i, (i < 5)%nat → net (requests w + i)%nat = None) →
  year_loop net parse_float (S turns) curr year lists data w
  = year_loop net parse_float turns curr (year + 1) lists data
      (after_fetch w 5 (failed_attempts curr year 5)).
Proof.
  intros Hnet.
  change (year_loop net parse_float (S turns) curr year lists data w)
    with (bind (fetch net curr year lists)
            (λ fl, let '(flag, lists) := fl in
                   if bool_decide (flag ≠ 0)
                   then year_loop net parse_float turns curr (year + 1) lists data
                   else bind (lift (build_lines parse_float curr year lists data))
                          (λ data, year_loop net parse_float turns curr (year + 1) lists data))
            w).
  unfold bind, fetch. by rewrite (retry_loop_exhausted 5 curr year 1 lists w Hnet).
Qed.

(** One turn of the year loop when the page came after [k] failures: its
    lines are parsed; an exception of the parser leaves the loop. *)
Lemma year_loop_parse turns curr year lists data w k text :
  (k < 5)%nat →
  (∀ i, (i < k)%nat → net (requests w + i)%nat = None) →
  net (requests w + k)%nat = Some text →
  year_loop net parse_float (S turns) curr year lists data w
  = let w' := after_fetch w (S k) (EvGet curr year :: failed_attempts curr year k) in
    match build_lines parse_float curr year (Py.split "010" text) data with
    | Ok data' => year_loop net parse_float turns curr (year + 1) (Py.split "010" text) data' w'
    | Raise e => (w', Raise e)
    end.
Proof.
  intros Hk Hfail Hok.
  change (year_loop net parse_float (S turns) curr year lists data w)
    with (bind (fetch net curr year lists)
            (λ fl, let '(flag, lists) := fl in
                   if bool_decide (flag ≠ 0)
                   then year_loop net parse_float turns curr (year + 1) lists data
                   else bind (lift (build_lines parse_float curr year lists data))
                          (λ data, year_loop net parse_float turns curr (year + 1) lists data))
            w).
  unfold bind, fetch.
  rewrite (retry_loop_success 5 curr year 1 lists w k text Hk Hfail Hok).
  simpl. unfold lift, after_fetch. simpl.
  by destruct (build_lines parse_float curr year (Py.split "010" text) data).
Qed.

(** The turn count stands for the loop condition: the loop is left as soon as
    [year] passes [current_year], and takes one more turn otherwise. *)
Lemma while_years_exit current_year curr year lists data :
  current_year < year →
  while_years net parse_float current_year curr year lists data = ret (lists, data).
Proof.
  intros Hlt. unfold while_years.
  by replace (Z.to_nat (current_year + 1 - year)) with 0%nat by lia.
Qed.

Lemma while_years_turn current_year curr year lists data :
  year ≤ current_year →
  while_years net parse_float current_year curr year lists data =
    (fl <- fetch net curr year lists ;;
     let '(flag, lists) := fl in
     if bool_decide (flag ≠ 0) then
       while_years net parse_float current_year curr (year + 1) lists data
     else
       data <- lift (build_lines parse_float curr year lists data) ;;
       while_years net parse_float current_year curr (year + 1) lists data)%py.
Proof.
  intros Hle. unfold while_years.
  replace (Z.to_nat (current_year + 1 - year))
    with (S (Z.to_nat (current_year + 1 - (year + 1)))) by lia.
  reflexivity.
Qed.

(** C6.  For a currency and a year the fetcher issues at most 5 requests
    and sleeps one second after each failed one: either some attempt among
    the five succeeds, after as many sleeps as there were failures, or all
    five fail, and then the fetcher signals failure ([flag = 1], no new
    lines), the year is skipped with [data] untouched, and the loop goes on
    with the next year. *)
Theorem fetch_bounded_retries (curr : string) (year : Z) (lists : list string)
    (data : DataFrame) (turns : nat) (w : World) :
  ((∃ k text,
       (k < 5)%nat ∧ net (requests w + k)%nat = Some text ∧
       fetch net curr year lists w =
         (after_fetch w (S k) (EvGet curr year :: failed_attempts curr year k),
          Ok (0, Py.split "010" text))) ∨
   fetch net curr year lists w =
     (after_fetch w 5 (failed_attempts curr year 5), Ok (1, lists))) ∧
  ((∀ i, (i < 5)%nat → net (requests w + i)%nat = None) →
   fetch net curr year lists w =
     (after_fetch w 5 (failed_attempts curr year 5), Ok (1, lists)) ∧
   year_loop net parse_float (S turns) curr year lists data w
   = year_loop net parse_float turns curr (year + 1) lists data
       (after_fetch w 5 (failed_attempts curr year 5))).
Proof.
  split.
  - destruct (first_success (requests w) 5) as [Hall | (k & text & Hk & Hfail & Hok)].
    + right. unfold fetch. by rewrite retry_loop_exhausted.
    + left. exists k, text. split; [done |]. split; [done |].
      unfold fetch. by rewrite (retry_loop_success 5 curr year 1 lists w k text).
  - intros Hall. split.
    + unfold fetch. by rewrite retry_loop_exhausted.
    + by apply year_loop_skip.
Qed.

End FetchFacts.

(** *** The fetcher against a source that is down *)

Lemma fetch_bounded_retries_witness :
  (∀ i, (i < 5)%nat → down (requests start + i)%nat = None) ∧
  fetch down "EUR" 2023 [] start =
    (after_fetch start 5 (failed_attempts "EUR" 2023 5), Ok (1, [])) ∧
  year_loop down example_float 2 "EUR" 2023 [] [] start
  = year_loop down example_float 1 "EUR" (2023 + 1) [] []
      (after_fetch start 5 (failed_attempts "EUR" 2023 5)).
Proof.
  assert (∀ i, (i < 5)%nat → down (requests start + i)%nat = None) as H by done.
  split; [exact H |].
  exact (proj2 (fetch_bounded_retries down example_float "EUR" 2023 [] [] 1 start) H).
Defined.

(** With a source that answers the third request, the fetch takes three
    requests and two sleeps. *)
Example fetch_flaky :
  fetch flaky "EUR" 2023 [] start =
    (mkWorld ∅ ∅ 3
       [EvGet "EUR" 2023; EvSleep 1; EvGet "EUR" 2023; EvSleep 1; EvGet "EUR" 2023] 0,
     Ok (0, ["Jan 0.5"])).
Proof. vm_compute. reflexivity. Qed.

(** ** The run as a whole *)

Section RunFacts.

Variable disk : nat → option exn.
Variable data_path : string.
Variables current_year current_month : Z.
Variable net : nat → option string.
Variable parse_float : string → option float.

Local Abbreviation malformed' := (malformed parse_float).
Local Abbreviation clean' := (clean net parse_float).
Local Abbreviation loop_inv' := (loop_inv net parse_float).

Local Abbreviation writing_all_file' :=
  (writing_all_file disk data_path current_year current_month).

Lemma build_line_malformed curr year lis data :
  malformed' lis → ∃ e, build_line parse_float curr year lis data = Raise e.
Proof.
  intros (month & crate & extra & Hsplit & Hbad).
  rewrite (build_line_tokens parse_float curr year lis data month crate extra Hsplit).
  unfold py_float, extract_date, Py.getitem.
  destruct (parse_float crate) as [x|] eqn:Hx; simpl; [| by eexists].
  destruct Hbad as [Hm | Hc]; [| congruence].
  rewrite Hm. simpl. by eexists.
Qed.

Lemma build_lines_malformed curr year lists data lis :
  lis ∈ lists → malformed' lis →
  ∃ e, build_lines parse_float curr year lists data = Raise e.
Proof.
  revert data. induction lists as [|l rest IH]; intros data Hin Hbad.
  - by apply elem_of_nil in Hin.
  - simpl. destruct (build_line parse_float curr year l data) as [data1|e] eqn:E; simpl.
    + apply elem_of_cons in Hin as [-> | Hin]; [| by apply IH].
      destruct (build_line_malformed curr year l data Hbad) as [e He]. congruence.
    + by eexists.
Qed.

(** *** The effects of [writing_all_file] *)

Lemma writing_all_file_effects w df product :
  inputs (writing_all_file' df product w).1 = inputs w ∧
  requests (writing_all_file' df product w).1 = requests w ∧
  ∃ evs, log (writing_all_file' df product w).1 = evs ++ log w ∧
         (∀ e, e ∈ evs → ∃ path, e = EvWriteRates path product) ∧
         ((writing_all_file' df product w).2 = Ok tt → wrote_rates evs product).
Proof.
  destruct (writing_all_file_steps disk data_path current_year current_month w df product)
    as [Hsteps Hok].
  destruct (merge_steps_frame _ _ _ _ Hsteps) as (Hi & Hr & _ & evs & Hl & He).
  split; [done |]. split; [done |]. exists evs. split; [done |]. split.
  - intros e Hin. rewrite Forall_forall in He.
    destruct (He e Hin) as (path & t & -> & _). by exists path.
  - intros Hres. specialize (Hok Hres). rewrite Hl, length_app in Hok.
    destruct evs as [|e evs']; [simpl in Hok; lia |].
    apply Forall_cons in He as [(path & t & -> & _) _]. exists path. by left.
Qed.

(** *** What the year loop does to the world *)

Lemma failed_attempts_quiet curr year k : Forall quiet (failed_attempts curr year k).
Proof. induction k as [|k IH]; [constructor |]. simpl. by repeat constructor. Qed.

Lemma clean_refl w : clean' w w.
Proof. intros k text lis Hk. lia. Qed.

Lemma year_loop_inv turns curr year lists data w :
  files (year_loop net parse_float turns curr year lists data w).1 = files w ∧
  inputs (year_loop net parse_float turns curr year lists data w).1 = inputs w ∧
  (requests w ≤ requests (year_loop net parse_float turns curr year lists data w).1)%nat ∧
  (∃ evs, log (year_loop net parse_float turns curr year lists data w).1 = evs ++ log w ∧
          Forall quiet evs) ∧
  (is_ok (year_loop net parse_float turns curr year lists data w).2 = true →
   clean' w (year_loop net parse_float turns curr year lists data w).1).
Proof.
  revert curr year lists data w. induction turns as [|turns IH]; intros curr year lists data w.
  - simpl. repeat split; [lia | by exists [] | intros _; apply clean_refl].
  - destruct (first_success net (requests w) 5) as [Hall | (k & text & Hk & Hfail & Hok)].
    + rewrite (year_loop_skip net parse_float turns curr year lists data w Hall).
      set (w1 := after_fetch w 5 (failed_attempts curr year 5)).
      destruct (IH curr (year + 1) lists data w1) as (Hf & Hi & Hr & (evs & Hl & Hq) & Hc).
      split; [by rewrite Hf |]. split; [by rewrite Hi |].
      split; [simpl in Hr; lia |]. split.
      * exists (evs ++ failed_attempts curr year 5). split.
        -- rewrite Hl. unfold w1, after_fetch. cbn [log]. by rewrite app_assoc.
        -- apply Forall_app. split; [done | apply failed_attempts_quiet].
      * intros Hok k text lis Hk Hnet Hin.
        destruct (decide (k < requests w + 5)%nat) as [Hlt | Hge].
        -- rewrite <- (Nat.sub_add (requests w) k) in Hnet by lia.
           rewrite (Nat.add_comm _ (requests w)) in Hnet.
           rewrite Hall in Hnet by lia. discriminate.
        -- apply (Hc Hok k text lis); [simpl; lia | done | done].
    + rewrite (year_loop_parse net parse_float turns curr year lists data w k text Hk Hfail Hok).
      set (w1 := after_fetch w (S k) (EvGet curr year :: failed_attempts curr year k)).
      simpl.
      destruct (build_lines parse_float curr year (Py.split "010" text) data)
        as [data'|e] eqn:Hbuild.
      * destruct (IH curr (year + 1) (Py.split "010" text) data' w1)
          as (Hf & Hi & Hr & (evs & Hl & Hq) & Hc).
        split; [by rewrite Hf |]. split; [by rewrite Hi |].
        split; [simpl in Hr; lia |]. split.
        -- exists (evs ++ EvGet curr year :: failed_attempts curr year k). split.
           ++ rewrite Hl. unfold w1, after_fetch. cbn [log]. by rewrite app_assoc.
           ++ apply Forall_app. split; [done |].
              constructor; [done | apply failed_attempts_quiet].
        -- intros Hok' k' text' lis Hk' Hnet Hin Hbad.
           destruct (decide (k' < requests w + k)%nat) as [Hlt | Hge].
           { rewrite <- (Nat.sub_add (requests w) k') in Hnet by lia.
             rewrite (Nat.add_comm _ (requests w)) in Hnet.
             rewrite Hfail in Hnet by lia. discriminate. }
           destruct (decide (k' = requests w + k)%nat) as [-> | Hne].
           { rewrite Hok in Hnet. injection Hnet as <-.
             destruct (build_lines_malformed curr year _ data lis Hin Hbad) as [e He].
             congruence. }
           apply (Hc Hok' k' text' lis); [simpl; lia | done | done | done].
      * split; [done |]. split; [done |]. split; [simpl; lia |]. split.
        -- exists (EvGet curr year :: failed_attempts curr year k). split; [done |].
           constructor; [done | apply failed_attempts_quiet].
        -- simpl. discriminate.
Qed.

(** *** What a turn of the main loop does to the world *)

Lemma clean_trans w w1 w2 :
  clean' w w1 → clean' w1 w2 → clean' w w2.
Proof.
  intros H1 H2 k text lis Hk Hnet Hin.
  destruct (decide (k < requests w1)%nat).
  - apply (H1 k text lis); [lia | done | done].
  - apply (H2 k text lis); [lia | done | done].
Qed.

Lemma clean_same_requests w w1 w2 :
  requests w2 = requests w1 → clean' w w1 → clean' w w2.
Proof. intros Heq H k text lis Hk. apply H. lia. Qed.

Lemma quiet_no_input_write evs : Forall quiet evs → no_input_write evs.
Proof.
  intros Hq path sheet Hin. rewrite Forall_forall in Hq.
  by apply (Hq _ Hin).
Qed.

Lemma quiet_wrote_rates evs sheet : Forall quiet evs → ¬ wrote_rates evs sheet.
Proof.
  intros Hq [path Hin]. rewrite Forall_forall in Hq.
  by apply (Hq _ Hin).
Qed.

Lemma no_input_write_app evs1 evs2 :
  no_input_write evs1 → no_input_write evs2 → no_input_write (evs1 ++ evs2).
Proof.
  intros H1 H2 path sheet Hin. apply elem_of_app in Hin as [Hin | Hin].
  - by apply (H1 path sheet).
  - by apply (H2 path sheet).
Qed.

Lemma wrote_rates_app evs1 evs2 sheet :
  wrote_rates (evs1 ++ evs2) sheet ↔ wrote_rates evs1 sheet ∨ wrote_rates evs2 sheet.
Proof.
  unfold wrote_rates. split.
  - intros [path Hin]. apply elem_of_app in Hin as [Hin | Hin]; [left | right]; by exists path.
  - intros [[path Hin] | [path Hin]]; exists path; apply elem_of_app; [by left | by right].
Qed.

Lemma process_row_inv row c w :
  inputs (process_row disk data_path current_year current_month net parse_float row c w).1
    = inputs w ∧
  (requests w ≤
     requests (process_row disk data_path current_year current_month net parse_float row c w).1)%nat ∧
  (∃ evs,
      log (process_row disk data_path current_year current_month net parse_float row c w).1
        = evs ++ log w ∧
      no_input_write evs ∧
      ∀ c', (process_row disk data_path current_year current_month net parse_float row c w).2 = Ok c' →
            keys_grow c c' evs) ∧
  (is_ok (process_row disk data_path current_year current_month net parse_float row c w).2 = true →
   clean' w (process_row disk data_path current_year current_month net parse_float row c w).1).
Proof.
  unfold process_row. case_bool_decide as Husd.
  { simpl. split; [done |]. split; [lia |]. split; [| intros _; apply clean_refl].
    exists []. split; [done |]. split; [intros p s H; by apply elem_of_nil in H |].
    intros c' [= <-] s. unfold wrote_rates.
    split; (split; [by left | intros [? | [p H]]; [done | by apply elem_of_nil in H]]). }
  unfold bind, while_years.
  pose proof (year_loop_inv (Z.to_nat (current_year + 1 - Fetched_Year row))
                (Initial_Currency row) (Fetched_Year row) (lists_of c) [] w)
    as (Hf & Hi & Hr & (evs & Hl & Hq) & Hc).
  destruct (year_loop net parse_float (Z.to_nat (current_year + 1 - Fetched_Year row))
              (Initial_Currency row) (Fetched_Year row) (lists_of c) [] w)
    as [w1 [[lists1 data1]|e]]; simpl in *.
  - destruct data1 as [|r0 data0].
    + simpl. split; [done |]. split; [done |]. split; [| done].
      exists evs. split; [done |]. split; [by apply quiet_no_input_write |].
      intros c' [= <-] s. simpl.
      split; (split; [by left | intros [? | Hw]; [done | by apply quiet_wrote_rates in Hw]]).
    + set (df := r0 :: data0).
      destruct (py_max_spec (Month <$> df)) as (m & Hm & _); [done |].
      destruct (py_max_spec (Year <$> df)) as (y & Hy & _); [done |].
      unfold lift. rewrite Hm, Hy.
      pose proof (writing_all_file_effects w1 df (Initial_Currency row))
        as (Hi2 & Hr2 & evs2 & Hl2 & Hall2 & Hw2).
      destruct (writing_all_file' df (Initial_Currency row) w1) as [w2 [[]|e2]]; simpl in *;
        [specialize (Hw2 eq_refl) | clear Hw2].
      2: { split; [congruence |]. split; [lia |]. split; [| discriminate].
           exists (evs2 ++ evs). split; [rewrite Hl2, Hl; by rewrite app_assoc |].
           split; [| discriminate].
           apply no_input_write_app; [| by apply quiet_no_input_write].
           intros p s Hin. by destruct (Hall2 _ Hin) as [? ?]. }
      split; [congruence |]. split; [lia |]. split.
      * exists (evs2 ++ evs). split; [rewrite Hl2, Hl; by rewrite app_assoc |].
        split.
        -- apply no_input_write_app; [| by apply quiet_no_input_write].
           intros p s Hin. by destruct (Hall2 _ Hin) as [? ?].
        -- intros c' [= <-] s. simpl. rewrite !wrote_rates_app.
           destruct (decide (Initial_Currency row = s)) as [<- | Hne].
           ++ rewrite !lookup_insert_eq.
              split; (split; [intros _; right; by left | intros _; by eexists]).
           ++ rewrite !lookup_insert_ne by done.
              split; (split; [by left |
                intros [? | [[p Hw] | Hw]];
                  [done | by destruct (Hall2 _ Hw) as [? [= ? ?]]
                        | by apply quiet_wrote_rates in Hw]]).
      * intros _. apply (clean_same_requests w w1 w2); [done | by apply Hc].
  - split; [done |]. split; [done |]. split; [| discriminate].
    exists evs. split; [done |]. split; [by apply quiet_no_input_write | discriminate].
Qed.

Lemma keys_grow_trans c c1 c2 evs1 evs2 :
  keys_grow c c1 evs1 → keys_grow c1 c2 evs2 → keys_grow c c2 (evs2 ++ evs1).
Proof.
  intros H1 H2 s. destruct (H1 s) as [H1y H1m]. destruct (H2 s) as [H2y H2m].
  rewrite wrote_rates_app. split; [rewrite H2y, H1y | rewrite H2m, H1m]; tauto.
Qed.

Lemma for_rows_inv rows c w :
  loop_inv' c w (for_rows disk data_path current_year current_month net parse_float rows c w).
Proof.
  revert c w. induction rows as [|row rest IH]; intros c w.
  - unfold loop_inv'. simpl. unfold ret. simpl.
    split; [done |]. split; [lia |]. split; [| intros _; apply clean_refl].
    exists []. split; [done |]. split; [intros p s H; by apply elem_of_nil in H |].
    intros c' [= <-] s. unfold wrote_rates.
    split; (split; [by left | intros [? | [p H]]; [done | by apply elem_of_nil in H]]).
  - change (for_rows disk data_path current_year current_month net parse_float (row :: rest) c w)
      with (bind (process_row disk data_path current_year current_month net parse_float row c)
              (λ c, for_rows disk data_path current_year current_month net parse_float rest c) w).
    unfold bind, loop_inv'.
    pose proof (process_row_inv row c w) as (Hi & Hr & (evs & Hl & Hn & Hk) & Hc).
    destruct (process_row disk data_path current_year current_month net parse_float row c w)
      as [w1 [c1|e]]; simpl in *.
    + destruct (IH c1 w1) as (Hi2 & Hr2 & (evs2 & Hl2 & Hn2 & Hk2) & Hc2).
      split; [congruence |]. split; [lia |]. split.
      * exists (evs2 ++ evs). split; [rewrite Hl2, Hl; by rewrite app_assoc |].
        split; [by apply no_input_write_app |].
        intros c' Hc'. apply (keys_grow_trans c c1 c'); [by apply Hk | by apply Hk2].
      * intros Hok. apply (clean_trans w w1); [by apply Hc | by apply Hc2].
    + split; [done |]. split; [done |]. split; [| discriminate].
      exists evs. split; [done |]. split; [done | discriminate].
Qed.

(** A row whose currency is no key of [years] is left as it is. *)
Lemma update_row_frame years row :
  years !! Initial_Currency row = None → update_row years row = row.
Proof. intros H. unfold update_row, Py.getitem. by rewrite H. Qed.

Lemma update_row_hit years row y :
  years !! Initial_Currency row = Some y →
  update_row years row = mkInput (Initial_Currency row) y.
Proof. intros H. unfold update_row, Py.getitem. by rewrite H. Qed.

Local Abbreviation main' := (main disk data_path current_year current_month net parse_float).
Local Abbreviation for_rows' :=
  (for_rows disk data_path current_year current_month net parse_float).
Local Abbreviation process_row' :=
  (process_row disk data_path current_year current_month net parse_float).
Local Abbreviation update_input_file' := (update_input_file disk data_path).
Local Abbreviation no_records' :=
  (no_records disk data_path current_year current_month net parse_float).
Local Abbreviation fetched_records' :=
  (fetched_records disk data_path current_year current_month net parse_float).

(** [main] after its loop: the update is skipped on empty dictionaries. *)
Lemma main_unfold input_df w :
  main' input_df w =
    match for_rows' input_df (mkCarry [] ∅ ∅) w with
    | (w1, Ok c) =>
        if (size (max_years c) =? 0)%nat || (size (max_month c) =? 0)%nat
        then (w1, Ok tt)
        else update_input_file' input_df (max_month c) (max_years c) w1
    | (w1, Raise e) => (w1, Raise e)
    end.
Proof.
  unfold main, bind.
  destruct (for_rows' input_df (mkCarry [] ∅ ∅) w) as [w1 [c|e]]; [| done].
  by destruct ((size (max_years c) =? 0)%nat || (size (max_month c) =? 0)%nat).
Qed.

(** C10.  A line of two tokens or more is judged by its first two tokens
    alone: the tokens after them do not enter the outcome, and the line gives
    a record when the two parse.  When the first token is no month
    abbreviation or the second is no number, the exception leaves the line
    loop, and a run in which such a line came back from the source ends in
    an exception. *)
Theorem malformed_line_aborts_run :
  (∀ curr year lis data month crate extra,
      Py.split " " lis = month :: crate :: extra →
      build_line parse_float curr year lis data =
        result_bind (py_float parse_float crate) (λ x,
        result_bind (extract_date month year) (λ d,
        Ok (data ++ [mkRate curr "USD" year (date_month d) x (inverse_rate x)])))) ∧
  (∀ curr year lists data lis,
      lis ∈ lists → malformed' lis →
      ∃ e, build_lines parse_float curr year lists data = Raise e) ∧
  (∀ input_df w k text lis,
      (requests w ≤ k < requests (main' input_df w).1)%nat →
      net k = Some text → lis ∈ Py.split "010" text → malformed' lis →
      ∃ e, (main' input_df w).2 = Raise e).
Proof.
  split; [| split].
  - intros curr year lis data month crate extra H.
    exact (build_line_tokens parse_float curr year lis data month crate extra H).
  - intros. by eapply build_lines_malformed.
  - intros input_df w k text lis Hk Hnet Hin Hbad.
    rewrite main_unfold in *.
    pose proof (for_rows_inv input_df (mkCarry [] ∅ ∅) w) as (_ & _ & _ & Hc).
    destruct (for_rows' input_df (mkCarry [] ∅ ∅) w) as [w1 [c|e]]; simpl in *;
      [| by eexists].
    exfalso. apply (Hc eq_refl k text lis); [| done | done | done].
    destruct ((size (max_years c) =? 0)%nat || (size (max_month c) =? 0)%nat);
      [simpl in Hk; lia |].
    unfold update_input_file, touch_excel_inputs in Hk.
    destruct (write_outcome disk (writes w1)); simpl in Hk; lia.
Qed.

(** The keys of [max_years] after the loop: the keys it had, and the
    currencies of rows whose fetch handed on records. *)
Lemma for_rows_keys rows c w c' :
  (for_rows' rows c w).2 = Ok c' →
  ∀ s, is_Some (max_years c' !! s) →
       is_Some (max_years c !! s) ∨ ∃ df, (s, df) ∈ fetched_records' rows c w ∧ df ≠ [].
Proof.
  revert c w. induction rows as [|row rest IH]; intros c w.
  - intros [= <-] s Hs. by left.
  - change (for_rows' (row :: rest) c w)
      with (bind (process_row' row c) (λ c, for_rows' rest c) w).
    change (fetched_records' (row :: rest) c w)
      with ((Initial_Currency row,
             if bool_decide ("USD" = Initial_Currency row) then []
             else
               match (while_years net parse_float current_year (Initial_Currency row)
                        (Fetched_Year row) (lists_of c) [] w).2 with
               | Ok (_, data) => data
               | Raise _ => []
               end) ::
            match process_row' row c w with
            | (w', Ok c1) => fetched_records' rest c1 w'
            | (_, Raise _) => []
            end).
    unfold bind.
    assert (∀ w1 c1, process_row' row c w = (w1, Ok c1) →
              ∀ s, is_Some (max_years c1 !! s) →
                   is_Some (max_years c !! s) ∨
                   (s = Initial_Currency row ∧
                    (if bool_decide ("USD" = Initial_Currency row) then []
                     else
                       match (while_years net parse_float current_year (Initial_Currency row)
                                (Fetched_Year row) (lists_of c) [] w).2 with
                       | Ok (_, data) => data
                       | Raise _ => []
                       end) ≠ [])) as Hstep.
    { intros w1 c1. unfold process_row. case_bool_decide as Husd.
      - intros [= _ <-] s Hs. by left.
      - unfold bind.
        destruct (while_years net parse_float current_year (Initial_Currency row)
                    (Fetched_Year row) (lists_of c) [] w) as [w0 [[lists data]|e]]; [| done].
        cbn [snd]. destruct data as [|r0 data0].
        + intros [= _ <-] s Hs. by left.
        + unfold lift.
          destruct (Py.max (Month <$> r0 :: data0)) as [m|]; [| done].
          destruct (Py.max (Year <$> r0 :: data0)) as [y|]; [| done].
          destruct (writing_all_file' (r0 :: data0) (Initial_Currency row) w0)
            as [w2 [[]|e2]]; [| done].
          intros [= _ <-] s Hs. cbn [max_years] in Hs.
          destruct (decide (Initial_Currency row = s)) as [<- | Hne].
          * right. done.
          * rewrite lookup_insert_ne in Hs by done. by left. }
    destruct (process_row' row c w) as [w1 [c1|e]] eqn:Hrow; [| done].
    cbn [fst snd]. intros Hrest s Hs.
    destruct (IH c1 w1 Hrest s Hs) as [Hc1 | (df & Hin & Hne)].
    + destruct (Hstep w1 c1 eq_refl s Hc1) as [? | [-> Hdata]]; [by left |].
      right. eexists. split; [by left | done].
    + right. exists df. split; [by right | done].
Qed.

(** C9.  The progress update leaves every row whose currency is no key of
    [years] as it is in the table it writes, and changes the input tracking
    tables by that write alone; in a run, a row whose currency produced no
    fetched records keeps its [Fetched Year] in the progress sheet, if the
    run writes one; and when no currency produced records the run leaves
    the input tracking tables as they were and does not write them. *)
Theorem progress_update_frame :
  (∀ input_df months years w i row,
      input_df !! i = Some row → years !! Initial_Currency row = None →
      (update_row years <$> input_df) !! i = Some row ∧
      (inputs (update_input_file' input_df months years w).1 = inputs w ∨
       inputs (update_input_file' input_df months years w).1
         !! inputs_file data_path ≫= (λ sheets, sheets !! "All Currencies")
       = Some (update_row years <$> input_df))) ∧
  (∀ input_df w,
      inputs (main' input_df w).1 = inputs w ∨
      ∃ t, inputs (main' input_df w).1
             !! inputs_file data_path ≫= (λ sheets, sheets !! "All Currencies") = Some t ∧
           ∀ i row, input_df !! i = Some row →
                    no_records' input_df w (Initial_Currency row) → t !! i = Some row) ∧
  (∀ input_df w,
      (∀ s, no_records' input_df w s) →
      inputs (main' input_df w).1 = inputs w ∧
      ∃ evs, log (main' input_df w).1 = evs ++ log w ∧ no_input_write evs).
Proof.
  assert (∀ input_df months years w,
            inputs (update_input_file' input_df months years w).1 = inputs w ∨
            inputs (update_input_file' input_df months years w).1
              !! inputs_file data_path ≫= (λ sheets, sheets !! "All Currencies")
            = Some (update_row years <$> input_df)) as Hupdate.
  { intros input_df months years w. unfold update_input_file, touch_excel_inputs.
    destruct (write_outcome disk (writes w)); cbn [fst inputs]; [by left |].
    right. rewrite lookup_insert_eq. simpl. apply put_sheet_lookup. }
  split; [| split].
  - intros input_df months years w i row Hi Hnone. split; [| apply Hupdate].
    rewrite list_lookup_fmap, Hi. simpl. by rewrite update_row_frame.
  - intros input_df w. rewrite main_unfold.
    pose proof (for_rows_inv input_df (mkCarry [] ∅ ∅) w) as (Hi & _).
    pose proof (for_rows_keys input_df (mkCarry [] ∅ ∅) w) as Hkeys.
    destruct (for_rows' input_df (mkCarry [] ∅ ∅) w) as [w1 [c|e]]; cbn [fst snd] in *;
      [| by left].
    destruct ((size (max_years c) =? 0)%nat || (size (max_month c) =? 0)%nat); [by left |].
    destruct (Hupdate input_df (max_month c) (max_years c) w1) as [Hsame | Hwritten];
      [left; congruence |].
    right. exists (update_row (max_years c) <$> input_df). split; [done |].
    intros i row Hrow Hnone. rewrite list_lookup_fmap, Hrow. simpl.
    rewrite update_row_frame; [done |].
    destruct (max_years c !! Initial_Currency row) as [y|] eqn:Hy; [| done].
    destruct (Hkeys c eq_refl (Initial_Currency row)) as [[? Hempty] | (df & Hin & Hne)];
      [by eexists | cbn [max_years] in Hempty; by rewrite lookup_empty in Hempty |].
    by destruct (Hne (Hnone df Hin)).
  - intros input_df w Hnone. rewrite main_unfold.
    pose proof (for_rows_inv input_df (mkCarry [] ∅ ∅) w) as (Hi & _ & (evs & Hl & Hn & _) & _).
    pose proof (for_rows_keys input_df (mkCarry [] ∅ ∅) w) as Hkeys.
    destruct (for_rows' input_df (mkCarry [] ∅ ∅) w) as [w1 [c|e]]; cbn [fst snd] in *;
      [| split; [done | by exists evs]].
    assert (max_years c = ∅) as Hempty.
    { apply map_empty. intros s. destruct (max_years c !! s) as [y|] eqn:Hy; [| done].
      destruct (Hkeys c eq_refl s) as [[? Hemp] | (df & Hin & Hne)];
        [by eexists | cbn [max_years] in Hemp; by rewrite lookup_empty in Hemp |].
      by destruct (Hne (Hnone s df Hin)). }
    rewrite Hempty, map_size_empty. simpl. split; [done | by exists evs].
Qed.

End RunFacts.

(** *** Concrete runs *)

Lemma malformed_line_aborts_run_witness :
  ∃ e, (main sound "data" 2023 6 bad_page example_float tracked start).2 = Raise e.
Proof.
  apply (proj2 (proj2 (malformed_line_aborts_run sound "data" 2023 6 bad_page example_float))
           tracked start 0%nat ("Jan 0.5" +:+ String "010" "Foo 0.5") "Foo 0.5").
  - vm_compute. lia.
  - reflexivity.
  - vm_compute. right. by left.
  - exists "Foo", "0.5", []. split; [vm_compute; reflexivity |].
    left. vm_compute. reflexivity.
Defined.

(** The same run, evaluated: the exception is the [KeyError] of the month
    table, raised before anything was written. *)
Example bad_page_run :
  main sound "data" 2023 6 bad_page example_float tracked start
  = (mkWorld ∅ ∅ 1 [EvGet "EUR" 2023] 0, Raise (KeyError "Foo")).
Proof. vm_compute. reflexivity. Qed.

(** C9 on two runs.  In the first, EUR gives a record and GBP, already ahead
    of the current year, gives none: the row of GBP is in the progress
    sheet as it was.  In the second the source is down, no currency gives
    records, and the input tracking tables are not written. *)
Lemma progress_update_frame_witness :
  no_records sound "data" 2023 6 up example_float
    [mkInput "EUR" 2023; mkInput "GBP" 2024] start "GBP" ∧
  (inputs (main sound "data" 2023 6 up example_float
             [mkInput "EUR" 2023; mkInput "GBP" 2024] start).1 = inputs start ∨
   ∃ t, inputs (main sound "data" 2023 6 up example_float
                  [mkInput "EUR" 2023; mkInput "GBP" 2024] start).1
          !! inputs_file "data" ≫= (λ sheets, sheets !! "All Currencies") = Some t ∧
        ∀ i row, [mkInput "EUR" 2023; mkInput "GBP" 2024] !! i = Some row →
                 no_records sound "data" 2023 6 up example_float
                   [mkInput "EUR" 2023; mkInput "GBP" 2024] start (Initial_Currency row) →
                 t !! i = Some row) ∧
  (inputs (main sound "data" 2023 6 down example_float tracked start).1 = inputs start ∧
   ∃ evs, log (main sound "data" 2023 6 down example_float tracked start).1
          = evs ++ log start ∧ no_input_write evs).
Proof.
  split; [| split].
  - intros df Hin. vm_compute in Hin.
    apply elem_of_cons in Hin as [[=] | Hin].
    apply elem_of_cons in Hin as [[= ->] | Hin]; [done |].
    by apply elem_of_nil in Hin.
  - apply (proj1 (proj2 (progress_update_frame sound "data" 2023 6 up example_float))).
  - apply (proj2 (proj2 (progress_update_frame sound "data" 2023 6 down example_float))).
    intros s df Hin. vm_compute in Hin.
    repeat (apply elem_of_cons in Hin as [[= _ ->] | Hin]; [done |]).
    by apply elem_of_nil in Hin.
Defined.

(** A run in which EUR gives records for 2022 and 2023: its row moves to
    2023; USD is never fetched and GBP, already ahead of the current year,
    gives nothing, and both rows stay. *)
Example good_run_progress :
  inputs (main sound "data" 2023 6 up example_float
            [mkInput "USD" 2020; mkInput "EUR" 2022; mkInput "GBP" 2024] start).1
    !! "data/Inputs.xlsx" ≫= (λ sheets, sheets !! "All Currencies")
  = Some [mkInput "USD" 2020; mkInput "EUR" 2023; mkInput "GBP" 2024].
Proof. vm_compute. reflexivity. Qed.

(** The same run with the inputs file open elsewhere: the rate sheets are
    written, the write of the progress sheet is refused, and the run ends in
    the exception of [touch_excel], the input tracking tables untouched. *)
Example good_run_inputs_locked :
  let r := main (locked_at 2) "data" 2023 6 up example_float
             [mkInput "USD" 2020; mkInput "EUR" 2022; mkInput "GBP" 2024] start in
  r.2 = Raise (Exception "File might be open. Close it.") ∧ inputs r.1 = ∅.
Proof. vm_compute. by split. Qed.

(** ** The unit converter *)

Lemma labelled_filter_lookup {A} (P : nat * A → Prop) `{∀ x, Decision (P x)}
    (l : list A) (i : nat) :
  filter P (labelled l) !! i
  = match l !! i with
    | Some x => if decide (P (i, x)) then Some x else None
    | None => None
    end.
Proof.
  unfold labelled. rewrite map_lookup_filter, lookup_map_seq_0.
  destruct (l !! i) as [x|]; simpl; [| done].
  destruct (decide (P (i, x))); [by rewrite option_guard_True | by rewrite option_guard_False].
Qed.

Section UomFacts.

Variable lower : string → string.
Variable mass_conversion_rates : gmap string float.

Local Abbreviation pass_of' := (pass_of lower mass_conversion_rates).
Local Abbreviation known' := (known lower mass_conversion_rates).

Lemma uom_pass_Ok initial_unit final_unit temp_df df to_SI_unit_rate to_final_unit_rate :
  length temp_df = length df →
  mass_conversion_rates !! lower initial_unit = Some to_SI_unit_rate →
  mass_conversion_rates !! lower final_unit = Some to_final_unit_rate →
  ∃ temp_df',
    uom_pass lower mass_conversion_rates initial_unit final_unit (temp_df, df)
    = Ok (temp_df',
          pass_row initial_unit final_unit to_SI_unit_rate to_final_unit_rate <$> df) ∧
    length temp_df' = length df.
Proof.
  intros Hlen Hi Hf. unfold uom_pass, Py.getitem. rewrite Hi, Hf. simpl.
  eexists. split.
  - f_equal. f_equal. apply list_eq. intros i.
    rewrite list_lookup_imap, list_lookup_fmap.
    destruct (df !! i) as [row|] eqn:Hrow; simpl; [| done].
    f_equal. unfold pass_row.
    destruct (combo_mask initial_unit final_unit row) eqn:Hmask; [| done].
    f_equal. rewrite labelled_filter_lookup, list_lookup_fmap, list_lookup_imap.
    destruct (lookup_lt_is_Some_2 temp_df i) as [t Ht].
    { rewrite Hlen. by apply lookup_lt_Some in Hrow. }
    rewrite Ht. simpl. rewrite labelled_filter_lookup, Hrow. simpl.
    by rewrite decide_True by done.
  - by rewrite length_fmap, length_imap.
Qed.

Lemma uom_loop_Ok combos temp_df df :
  length temp_df = length df → Forall known' combos →
  ∃ temp_df',
    uom_loop lower mass_conversion_rates combos (temp_df, df)
    = Ok (temp_df', (λ row, foldl (λ r c, pass_of' c r) row combos) <$> df).
Proof.
  revert temp_df df. induction combos as [|[iu fu] rest IH]; intros temp_df df Hlen Hknown.
  - exists temp_df. simpl. by rewrite list_fmap_id.
  - apply Forall_cons in Hknown as [[[fi Hi] [ff Hf]] Hrest]. simpl in Hi, Hf.
    destruct (uom_pass_Ok iu fu temp_df df fi ff Hlen Hi Hf) as (temp1 & Hpass & Hlen1).
    change (uom_loop lower mass_conversion_rates ((iu, fu) :: rest) (temp_df, df))
      with (result_bind (uom_pass lower mass_conversion_rates iu fu (temp_df, df))
              (uom_loop lower mass_conversion_rates rest)).
    rewrite Hpass. simpl.
    destruct (IH temp1 (pass_row iu fu fi ff <$> df)) as (temp2 & Hloop);
      [by rewrite length_fmap | done |].
    exists temp2. rewrite Hloop. f_equal. f_equal.
    rewrite <- list_fmap_compose. apply list_fmap_ext. intros i row _. simpl.
    f_equal. unfold pass_of'. simpl. by rewrite Hi, Hf.
Qed.

(** A pass leaves the units and the initial price of a row alone. *)
Lemma pass_of_units combo row :
  units (pass_of' combo row) = units row ∧
  Initial_Price (pass_of' combo row) = Initial_Price row.
Proof.
  unfold pass_of', pass_row.
  destruct (mass_conversion_rates !! lower combo.1); [| done].
  destruct (mass_conversion_rates !! lower combo.2); [| done].
  by destruct (combo_mask combo.1 combo.2 row).
Qed.

Lemma combo_mask_units combo row :
  combo_mask combo.1 combo.2 row = true ↔ units row = combo.
Proof.
  unfold combo_mask, units. destruct combo as [iu fu]. simpl.
  rewrite andb_true_iff, !bool_decide_eq_true. split; [intros [-> ->]; done | intros [= -> ->]; done].
Qed.

(** After the passes for [combos], a row whose pair is among them carries
    its own conversion; any other row is as it was. *)
Lemma passes_row combos row fi ff :
  mass_conversion_rates !! lower (Initial_Unit row) = Some fi →
  mass_conversion_rates !! lower (Final_Unit row) = Some ff →
  foldl (λ r c, pass_of' c r) row combos
  = if bool_decide (units row ∈ combos) then set_uom row (via_SI fi ff row) else row.
Proof.
  intros Hi Hf.
  assert (∀ r, units r = units row → Initial_Price r = Initial_Price row →
               (r = row ∨ r = set_uom row (via_SI fi ff row)) →
               foldl (λ r c, pass_of' c r) r combos
               = if bool_decide (units row ∈ combos) then set_uom row (via_SI fi ff row)
                 else r) as Hgen.
  { induction combos as [|c rest IH]; intros r Hu Hp Hr.
    - by rewrite bool_decide_eq_false_2 by apply not_elem_of_nil.
    - change (foldl (λ r c, pass_of' c r) r (c :: rest))
        with (foldl (λ r c, pass_of' c r) (pass_of' c r) rest).
      destruct (decide (units row = c)) as [<- | Hne].
      + assert (pass_of' (units row) r = set_uom row (via_SI fi ff row)) as ->.
        { unfold pass_of'. cbn [units fst snd]. rewrite Hi, Hf. unfold pass_row.
          assert (combo_mask (Initial_Unit row) (Final_Unit row) r = true) as ->.
          { by apply (combo_mask_units (units row) r). }
          unfold via_SI, set_uom. rewrite Hp.
          unfold units in Hu. injection Hu as -> ->. done. }
        rewrite IH; [| done | done | by right].
        rewrite (bool_decide_eq_true_2 (units row ∈ units row :: rest)) by (by left).
        by destruct (bool_decide (units row ∈ rest)).
      + assert (pass_of' c r = r) as ->.
        { unfold pass_of'.
          destruct (mass_conversion_rates !! lower c.1); [| done].
          destruct (mass_conversion_rates !! lower c.2); [| done].
          unfold pass_row.
          destruct (combo_mask c.1 c.2 r) eqn:E; [| done].
          apply combo_mask_units in E. congruence. }
        rewrite IH by done.
        rewrite (bool_decide_ext (units row ∈ c :: rest) (units row ∈ rest)); [done |].
        rewrite elem_of_cons. split; [intros [? | ?]; [congruence | done] | by right]. }
  apply Hgen; [done | done | by left].
Qed.

(** Every row of a table whose pairs are all known ends with its own
    conversion: the loop runs one pass for each pair present. *)
Lemma convert_price_for_uom_all df :
  (∀ row, row ∈ df → known' (units row)) →
  ∃ result,
    convert_price_for_uom lower mass_conversion_rates df = Ok result ∧
    length result = length df ∧
    ∀ i row, df !! i = Some row →
      ∃ fi ff,
        mass_conversion_rates !! lower (Initial_Unit row) = Some fi ∧
        mass_conversion_rates !! lower (Final_Unit row) = Some ff ∧
        result !! i = Some (set_uom row (via_SI fi ff row)).
Proof.
  intros Hknown. unfold convert_price_for_uom.
  destruct (uom_loop_Ok (Pd.drop_duplicates id (units <$> df)) df df) as (temp & Hloop).
  { done. }
  { apply Forall_forall. intros c Hc. apply drop_duplicates_elem in Hc.
    apply list_elem_of_fmap in Hc as (row & -> & Hrow). by apply Hknown. }
  rewrite Hloop. simpl. eexists. split; [done |]. split; [by rewrite length_fmap |].
  intros i row Hrow.
  destruct (Hknown row) as [[fi Hi] [ff Hf]]; [by eapply list_elem_of_lookup_2 |].
  exists fi, ff. split; [done |]. split; [done |].
  rewrite list_lookup_fmap, Hrow. simpl. f_equal.
  rewrite (passes_row _ row fi ff Hi Hf).
  rewrite bool_decide_eq_true_2; [done |].
  apply (drop_duplicates_complete id); [done |]. apply list_elem_of_fmap_2.
  by eapply list_elem_of_lookup_2.
Qed.

End UomFacts.

(** *** The unit converter on the table of the specification *)

(** C7.  A pass for a pair whose units are both in the conversion table
    gives exactly the rows of that pair the price
    [initial_price * factor(initial_unit) / factor(final_unit)], which the
    code computes in binary64 as the product first and then the quotient,
    and leaves every other row as it was; the loop runs such a pass for
    every pair present, so every row ends with its own conversion; and kg
    to lb with the factors 1.0 and 0.453592 takes the price 10 to
    22.046244201837776, which is within 0.0001 of 22.0462, as is the price
    times the quotient of the factors. *)
Theorem uom_conversion_row_scoped :
  (∀ (lower : string → string) (mass_conversion_rates : gmap string float)
      temp_df df initial_unit final_unit fi ff,
      length temp_df = length df →
      mass_conversion_rates !! lower initial_unit = Some fi →
      mass_conversion_rates !! lower final_unit = Some ff →
      ∃ temp_df' df',
        uom_pass lower mass_conversion_rates initial_unit final_unit (temp_df, df)
          = Ok (temp_df', df') ∧
        length df' = length df ∧
        ∀ i row, df !! i = Some row →
          (Initial_Unit row = initial_unit ∧ Final_Unit row = final_unit →
           df' !! i = Some (set_uom row
                              (PrimFloat.div (PrimFloat.mul (Initial_Price row) fi) ff))) ∧
          (¬ (Initial_Unit row = initial_unit ∧ Final_Unit row = final_unit) →
           df' !! i = Some row)) ∧
  (∀ (lower : string → string) (mass_conversion_rates : gmap string float) df,
      (∀ row, row ∈ df → known lower mass_conversion_rates (units row)) →
      ∃ result,
        convert_price_for_uom lower mass_conversion_rates df = Ok result ∧
        length result = length df ∧
        ∀ i row, df !! i = Some row →
          ∃ fi ff,
            mass_conversion_rates !! lower (Initial_Unit row) = Some fi ∧
            mass_conversion_rates !! lower (Final_Unit row) = Some ff ∧
            result !! i = Some (set_uom row
                                  (PrimFloat.div (PrimFloat.mul (Initial_Price row) fi) ff))) ∧
  (convert_price_for_uom example_lower rates [mkItem "kg" "lb" 10 nan]
     = Ok [mkItem "kg" "lb" 10 22.046244201837776%float] ∧
   PrimFloat.ltb
     (PrimFloat.abs (PrimFloat.sub 22.046244201837776 22.0462)) 0.0001 = true ∧
   PrimFloat.ltb
     (PrimFloat.abs (PrimFloat.sub (PrimFloat.mul 10 (PrimFloat.div 1.0 0.453592)) 22.0462))
     0.0001 = true).
Proof.
  split; [| split].
  - intros lower mass_conversion_rates temp_df df initial_unit final_unit fi ff Hlen Hi Hf.
    destruct (uom_pass_Ok lower mass_conversion_rates initial_unit final_unit temp_df df fi ff
                Hlen Hi Hf) as (temp_df' & Hpass & _).
    eexists _, _. split; [exact Hpass |]. split; [by rewrite length_fmap |].
    intros i row Hrow. rewrite list_lookup_fmap, Hrow. simpl. unfold pass_row.
    split.
    + intros Hunits.
      assert (combo_mask initial_unit final_unit row = true) as ->; [| done].
      unfold combo_mask. destruct Hunits as [-> ->].
      by rewrite !bool_decide_eq_true_2.
    + intros Hunits.
      assert (combo_mask initial_unit final_unit row = false) as ->; [| done].
      unfold combo_mask. apply andb_false_iff.
      rewrite !bool_decide_eq_false.
      destruct (decide (Initial_Unit row = initial_unit)); [right | by left].
      intros ?. by apply Hunits.
  - intros lower mass_conversion_rates df Hknown.
    exact (convert_price_for_uom_all lower mass_conversion_rates df Hknown).
  - repeat split; vm_compute; reflexivity.
Qed.

Lemma uom_conversion_row_scoped_witness :
  ∃ temp_df' df',
    uom_pass example_lower rates "kg" "lb" (priced, priced) = Ok (temp_df', df') ∧
    length df' = length priced ∧
    ∀ i row, priced !! i = Some row →
      (Initial_Unit row = "kg" ∧ Final_Unit row = "lb" →
       df' !! i = Some (set_uom row
                          (PrimFloat.div (PrimFloat.mul (Initial_Price row) 1.0) 0.453592))) ∧
      (¬ (Initial_Unit row = "kg" ∧ Final_Unit row = "lb") → df' !! i = Some row).
Proof.
  apply (proj1 uom_conversion_row_scoped example_lower rates priced priced "kg" "lb" 1.0%float 0.453592%float).
  - reflexivity.
  - vm_compute. reflexivity.
  - vm_compute. reflexivity.
Defined.

(** The table of the examples, converted: the pair ["KG"], ["lb"] is a pair
    of its own, looked up in lower case. *)
Example priced_converted :
  convert_price_for_uom example_lower rates priced
  = Ok [mkItem "kg" "lb" 10 22.046244201837776%float;
        mkItem "lb" "kg" 3 1.360776%float;
        mkItem "KG" "lb" 1 2.2046244201837775%float].
Proof. vm_compute. reflexivity. Qed.

(** * Further properties of the program *)

(** ** Strictly descending tables *)

(** Two strictly descending tables with the same rows are the same
    table. *)
Lemma strictly_sorted_unique (l1 l2 : DataFrame) :
  StronglySorted strictly_before l1 → StronglySorted strictly_before l2 →
  (∀ r, r ∈ l1 ↔ r ∈ l2) → l1 = l2.
Proof.
  intros H1. revert l2. induction H1 as [|a l1 Hs1 IH Ha]; intros l2 H2 Hel.
  - destruct l2 as [|b l2]; [done |].
    exfalso. eapply not_elem_of_nil, Hel. by left.
  - destruct H2 as [|b l2 Hs2 Hb].
    + exfalso. eapply not_elem_of_nil, Hel. by left.
    + rewrite Forall_forall in Ha, Hb.
      assert (a = b) as <-.
      { assert (a ∈ b :: l2) as Ha2 by (apply Hel; by left).
        assert (b ∈ a :: l1) as Hb1 by (apply Hel; by left).
        apply elem_of_cons in Ha2 as [-> | Ha2]; [done |].
        apply elem_of_cons in Hb1 as [-> | Hb1]; [done |].
        apply Ha in Hb1. apply Hb in Ha2. unfold strictly_before in *. lia. }
      f_equal. apply IH; [done |]. intros r. split; intros Hr.
      * assert (r ∈ a :: l2) as Hr2 by (apply Hel; by right).
        apply elem_of_cons in Hr2 as [-> | Hr2]; [| done].
        apply Ha in Hr. unfold strictly_before in Hr. lia.
      * assert (r ∈ a :: l1) as Hr1 by (apply Hel; by right).
        apply elem_of_cons in Hr1 as [-> | Hr1]; [| done].
        apply Hb in Hr. unfold strictly_before in Hr. lia.
Qed.

Lemma strictly_before_StronglySorted (df : DataFrame) :
  Sorted may_stand_before df → NoDup (period <$> df) →
  StronglySorted strictly_before df.
Proof.
  intros Hs Hnd. apply Sorted_StronglySorted; [| by apply Sorted_strictly].
  intros a b c. unfold strictly_before. lia.
Qed.

(** Two strictly descending tables that agree period by period are the same
    table. *)
Lemma strictly_sorted_by_period (l1 l2 : DataFrame) :
  StronglySorted strictly_before l1 → StronglySorted strictly_before l2 →
  (∀ k, filter (λ r, period r = k) l1 = filter (λ r, period r = k) l2) →
  l1 = l2.
Proof.
  intros H1 H2 Hf. apply strictly_sorted_unique; [done | done |].
  intros r. split; intros Hr.
  - assert (r ∈ filter (λ x, period x = period r) l2) as Hin
      by (rewrite <- Hf; by apply list_elem_of_filter).
    by apply list_elem_of_filter in Hin as [_ ?].
  - assert (r ∈ filter (λ x, period x = period r) l1) as Hin
      by (rewrite Hf; by apply list_elem_of_filter).
    by apply list_elem_of_filter in Hin as [_ ?].
Qed.

(** In a table with one row per period the rows of a period are at most
    one. *)
Lemma NoDup_period_filter (l : DataFrame) k :
  NoDup (period <$> l) → (length (filter (λ r, period r = k) l) ≤ 1)%nat.
Proof.
  induction l as [|a l IH]; intros Hnd; [simpl; lia |].
  rewrite fmap_cons in Hnd. apply NoDup_cons in Hnd as [Ha Hnd].
  rewrite filter_cons. destruct (decide (period a = k)) as [<- | Hne]; [| by apply IH].
  rewrite (filter_none (λ r, period r = period a) l); [simpl; lia |].
  intros x Hx Hp. apply Ha. rewrite <- Hp. by apply list_elem_of_fmap_2.
Qed.

(** ** More on the historical merge *)

Lemma put_sheet_lookup_ne {T} (df : T) sheet sheet' (fs : gmap string (gmap string T)) path :
  sheet ≠ sheet' →
  put_sheet df sheet (fs !! path) !! sheet' = fs !! path ≫= (λ sheets, sheets !! sheet').
Proof.
  intros Hne. destruct (fs !! path) as [sheets|]; simpl.
  - by rewrite lookup_insert_ne.
  - by rewrite lookup_singleton_ne.
Qed.

(** A write of one sheet leaves every other sheet of every workbook as it
    was. *)
Lemma written_sheet_ne df path sheet fs path' sheet' :
  sheet ≠ sheet' →
  written df path sheet fs !! path' ≫= (λ sheets, sheets !! sheet')
  = fs !! path' ≫= (λ sheets, sheets !! sheet').
Proof.
  intros Hne. unfold written. destruct (decide (path = path')) as [<- | Hp].
  - rewrite lookup_insert_eq. simpl. by apply put_sheet_lookup_ne.
  - by rewrite lookup_insert_ne.
Qed.

Section MergeMore.

Variable disk : nat → option exn.
Variable data_path : string.
Variables current_year current_month : Z.

Local Abbreviation is_current' := (is_current current_year current_month).
Local Abbreviation merged' := (merged current_year current_month).
Local Abbreviation writing_all_file' :=
  (writing_all_file disk data_path current_year current_month).
Local Abbreviation merge_write' := (merge_write data_path current_year current_month).
Local Abbreviation purge := (purge_current current_year current_month).
Local Abbreviation persisted' := (persisted data_path).
Local Abbreviation snapshot' := (snapshot data_path).

(** A workbook on which no write is admitted is left as it was. *)
Lemma merge_steps_paths admits product w w' path :
  merge_steps admits product w w' → (∀ t, ¬ admits path t) →
  files w' !! path = files w !! path.
Proof.
  intros Hsteps Hno.
  induction Hsteps as [| fs ins rq lg n p t _ IH Hadm | fs ins rq lg n _ IH]; cbn [files] in *.
  - done.
  - rewrite <- IH. apply written_lookup_ne. intros ->. by apply (Hno t).
  - exact IH.
Qed.

(** X1.  A merge for one currency touches nothing but the sheet of that
    currency: every sheet of another name, in the historical file, in the
    backups and in any other workbook, is after the call what it was
    before, a workbook other than the historical file and the backups is
    untouched, and so are the input tracking tables and the request
    counter. *)
Theorem merge_touches_only_its_sheet (w : World) (df : DataFrame) (product : string) :
  let w' := (writing_all_file' df product w).1 in
  (∀ path sheet, sheet ≠ product →
     files w' !! path ≫= (λ sheets, sheets !! sheet)
     = files w !! path ≫= (λ sheets, sheets !! sheet)) ∧
  (∀ path, path ≠ hist_file data_path →
           (∀ month year, path ≠ backup_file data_path month year) →
           files w' !! path = files w !! path) ∧
  inputs w' = inputs w ∧ requests w' = requests w.
Proof.
  intros w'.
  destruct (writing_all_file_steps disk data_path current_year current_month w df product)
    as [Hsteps _].
  split; [| split].
  - intros path sheet Hne. by apply (merge_steps_other _ _ _ _ _ _ Hsteps).
  - intros path Hh Hb. apply (merge_steps_paths _ _ _ _ _ Hsteps).
    intros t [[-> _] | (m & y & ->)]; [done | by apply (Hb m y)].
  - by destruct (merge_steps_frame _ _ _ _ Hsteps) as (Hi & Hr & _).
Qed.

(** The scan and the [drop] remove at most the one row of the current
    month: every other row stays, and no row comes in. *)
Lemma purge_current_elem rows r :
  r ∈ purge rows → r ∈ rows.
Proof.
  destruct (first_current_split current_year current_month rows)
    as [Hno | (l1 & c & l2 & -> & Hno & Hc)].
  - by rewrite purge_current_none.
  - rewrite purge_current_found by done.
    rewrite !elem_of_app, elem_of_cons. tauto.
Qed.

Lemma purge_current_keeps rows r :
  r ∈ rows → ¬ is_current' r → r ∈ purge rows.
Proof.
  intros Hr Hcur.
  destruct (first_current_split current_year current_month rows)
    as [Hno | (l1 & c & l2 & -> & Hno & Hc)].
  - by rewrite purge_current_none.
  - rewrite purge_current_found by done.
    revert Hr. rewrite !elem_of_app, elem_of_cons. intros [? | [-> | ?]]; tauto.
Qed.

Lemma purge_current_filter rows k :
  k ≠ (current_year, current_month) →
  filter (λ r, period r = k) (purge rows) = filter (λ r, period r = k) rows.
Proof.
  intros Hk.
  destruct (first_current_split current_year current_month rows)
    as [Hno | (l1 & c & l2 & -> & Hno & Hc)].
  - by rewrite purge_current_none.
  - rewrite purge_current_found by done.
    rewrite !filter_app, filter_cons.
    destruct (decide (period c = k)) as [Hp | _]; [| done].
    apply is_current_period in Hc. congruence.
Qed.

Lemma merged_StronglySorted existing_df df :
  StronglySorted strictly_before (merged' existing_df df).
Proof.
  apply strictly_before_StronglySorted; [apply sort_values_Sorted | apply merged_NoDup].
Qed.

Lemma elem_of_merged existing_df df r :
  r ∈ merged' existing_df df → r ∈ purge existing_df ∨ r ∈ df.
Proof.
  unfold merged. rewrite sort_values_Permutation. intros Hr.
  apply drop_duplicates_elem in Hr. by apply elem_of_app in Hr.
Qed.

(** X2.  A merge into a sheet that could be read, whose two writes
    succeed, loses no month: the
    persisted table is made of rows of the existing table (the row of the
    current month set aside) and of new records only, every period of
    either is a period of the persisted table, and a period the existing
    table had outside the current month is still held by a row of the
    existing table. *)
Theorem merge_loses_no_period (w : World) (df : DataFrame) (product : string)
    (existing_df : DataFrame) :
  persisted' product w = Some existing_df → df ≠ [] → try_writes_ok disk w →
  ∃ t, persisted' product (writing_all_file' df product w).1 = Some t ∧
       (∀ r, r ∈ t → r ∈ purge existing_df ∨ r ∈ df) ∧
       (∀ r, r ∈ purge existing_df ∨ r ∈ df → ∃ r', r' ∈ t ∧ period r' = period r) ∧
       (∀ r, r ∈ existing_df → ¬ is_current' r →
             ∃ r', r' ∈ t ∧ r' ∈ existing_df ∧ period r' = period r).
Proof.
  intros Hex Hne Hok. exists (merged' existing_df df).
  split; [by apply persisted_after_loaded |]. split; [apply elem_of_merged |].
  assert (∀ r, r ∈ purge existing_df ∨ r ∈ df →
               ∃ r', r' ∈ merged' existing_df df ∧ period r' = period r) as Hall.
  { intros r Hr.
    destruct (drop_duplicates_seen_complete period [] (purge existing_df ++ df) r)
      as (y & Hy & Hp); [by apply elem_of_app | apply not_elem_of_nil |].
    exists y. split; [| done]. unfold merged. by rewrite sort_values_Permutation. }
  split; [exact Hall |].
  intros r Hr Hcur.
  destruct (Hall r) as (r' & Hr' & Hp); [left; by apply purge_current_keeps |].
  exists r'. split; [done |]. split; [| done].
  assert (r' ∈ filter (λ x, period x = period r) (merged' existing_df df)) as Hin
    by (by apply list_elem_of_filter).
  rewrite merged_filter, filter_app in Hin.
  assert (r ∈ filter (λ x, period x = period r) (purge existing_df)) as Hrf
    by (apply list_elem_of_filter; split; [done | by apply purge_current_keeps]).
  destruct (filter (λ x, period x = period r) (purge existing_df)) as [|x l] eqn:E;
    [by apply elem_of_nil in Hrf |].
  simpl in Hin. apply list_elem_of_singleton in Hin as ->.
  apply purge_current_elem.
  assert (x ∈ filter (λ x, period x = period r) (purge existing_df)) as Hx
    by (rewrite E; by left).
  by apply list_elem_of_filter in Hx as [_ ?].
Qed.

(** X3.  The first merge for a currency (no sheet to read), when its two
    writes succeed, returns normally, persists all the new records, none
    dropped and none added, in descending order, and the backup named after
    the greatest month and the greatest year holds that same table. *)
Theorem first_merge_keeps_every_record (w : World) (df : DataFrame) (product : string) :
  persisted' product w = None → df ≠ [] → try_writes_ok disk w →
  ∃ month year t,
    Py.max (Month <$> df) = Ok month ∧ Py.max (Year <$> df) = Ok year ∧
    (writing_all_file' df product w).2 = Ok tt ∧
    persisted' product (writing_all_file' df product w).1 = Some t ∧
    snapshot' month year product (writing_all_file' df product w).1 = Some t ∧
    t ≡ₚ df ∧ Sorted may_stand_before t.
Proof.
  intros Hex Hne Hok.
  destruct (writing_all_file_fresh disk data_path current_year current_month w df product
              Hex Hne Hok) as (month & year & Hm & Hy & Hrun).
  exists month, year, (Pd.sort_values df).
  split; [done |]. split; [done |]. split; [by rewrite Hrun |]. split.
  - by apply persisted_after_fresh.
  - rewrite Hrun. unfold snapshot. cbn [fst files].
    split; [apply written_lookup_eq |].
    split; [apply sort_values_Permutation | apply sort_values_Sorted].
Qed.

Lemma take_1_absorb {A} (a b : list A) : take 1 (take 1 (a ++ b) ++ b) = take 1 (a ++ b).
Proof.
  destruct a as [|x a]; simpl; [| done].
  destruct b as [|y b]; simpl; done.
Qed.

(** X4.  Merging the same records a second time changes nothing: when the
    sheet that could be read has one row per period and the writes of both
    merges succeed, the table persisted by a second merge of the same
    records is the table persisted by the first. *)
Theorem merge_idempotent (w : World) (df : DataFrame) (product : string)
    (existing_df : DataFrame) :
  persisted' product w = Some existing_df → NoDup (period <$> existing_df) → df ≠ [] →
  try_writes_ok disk w → try_writes_ok disk (writing_all_file' df product w).1 →
  let w1 := (writing_all_file' df product w).1 in
  let w2 := (writing_all_file' df product w1).1 in
  persisted' product w2 = persisted' product w1.
Proof.
  intros Hex Hnd Hne Hok Hok1 w1 w2.
  assert (persisted' product w1 = Some (merged' existing_df df)) as H1
    by (by apply persisted_after_loaded).
  unfold w2.
  rewrite (persisted_after_loaded disk data_path current_year current_month
             w1 df product _ H1 Hne Hok1), H1. f_equal.
  apply strictly_sorted_by_period; [apply merged_StronglySorted | apply merged_StronglySorted |].
  intros k. rewrite !merged_filter, !filter_app.
  destruct (decide (k = (current_year, current_month))) as [-> | Hk].
  - rewrite (filter_none _ (purge (merged' existing_df df))).
    + rewrite (filter_none _ (purge existing_df)); [done |].
      intros x Hx Hp. apply (purge_current_clean current_year current_month existing_df Hnd x Hx).
      by apply is_current_period.
    + intros x Hx Hp.
      apply (purge_current_clean current_year current_month (merged' existing_df df)
               (merged_NoDup _ _ _ _) x Hx).
      by apply is_current_period.
  - rewrite purge_current_filter by done.
    rewrite merged_filter, filter_app. apply take_1_absorb.
Qed.

Lemma strictly_sorted_NoDup (l : DataFrame) :
  StronglySorted strictly_before l → NoDup (period <$> l).
Proof.
  induction 1 as [|a l Hs IH Ha]; [constructor |].
  rewrite fmap_cons. apply NoDup_cons. split; [| done].
  intros Hin. apply list_elem_of_fmap in Hin as (x & Hp & Hx).
  rewrite Forall_forall in Ha. apply Ha in Hx.
  unfold strictly_before, period in *. injection Hp as ? ?. lia.
Qed.

(** X5.  A merge whose writes succeed does not rewrite past months: when
    the existing sheet is strictly descending and holds no row of the
    current month, and every new record is of a period the sheet already
    has, the merge persists the existing table as it was, whatever rates
    the new records carry. *)
Theorem merge_nothing_new (w : World) (df : DataFrame) (product : string)
    (existing_df : DataFrame) :
  persisted' product w = Some existing_df →
  StronglySorted strictly_before existing_df →
  (∀ r, r ∈ existing_df → ¬ is_current' r) →
  df ≠ [] → (∀ r, r ∈ df → period r ∈ period <$> existing_df) →
  try_writes_ok disk w →
  persisted' product (writing_all_file' df product w).1 = Some existing_df.
Proof.
  intros Hex Hs Hno Hne Hold Hok.
  rewrite (persisted_after_loaded disk data_path current_year current_month
             w df product _ Hex Hne Hok). f_equal.
  apply strictly_sorted_by_period; [apply merged_StronglySorted | done |].
  intros k. rewrite merged_filter, purge_current_none, filter_app by done.
  pose proof (NoDup_period_filter existing_df k (strictly_sorted_NoDup _ Hs)) as Hlen.
  destruct (filter (λ r, period r = k) existing_df) as [|x [|y l]] eqn:E;
    [| done | simpl in Hlen; lia].
  simpl. rewrite (filter_none _ df); [done |].
  intros r Hr Hp. apply Hold in Hr. apply list_elem_of_fmap in Hr as (e & He & Hin).
  assert (e ∈ filter (λ r, period r = k) existing_df) as Hf
    by (apply list_elem_of_filter; split; [congruence | done]).
  rewrite E in Hf. by apply elem_of_nil in Hf.
Qed.

(** X24.  A refused backup costs the history: when the sheet could be read
    and the merged table is written, but the write of the backup is
    refused, the handler runs, and if its two writes succeed the call
    returns normally with the historical sheet holding the new records
    alone, sorted; the rows of the existing table are gone from it. *)
Theorem merge_fallback_overwrites_history (w : World) (df : DataFrame) (product : string)
    (existing_df : DataFrame) (e : exn) :
  persisted' product w = Some existing_df → df ≠ [] →
  disk (writes w) = None → disk (1 + writes w)%nat = Some e →
  disk (2 + writes w)%nat = None → disk (3 + writes w)%nat = None →
  (writing_all_file' df product w).2 = Ok tt ∧
  persisted' product (writing_all_file' df product w).1 = Some (Pd.sort_values df) ∧
  Pd.sort_values df ≡ₚ df.
Proof.
  intros Hex Hne H0 H1 H2 H3.
  destruct (py_max_spec (Month <$> df)) as (month & Hm & _); [by destruct df |].
  destruct (py_max_spec (Year <$> df)) as (year & Hy & _); [by destruct df |].
  assert (∃ e', write_outcome disk (1 + writes w) = Some e') as [e' H1'].
  { unfold write_outcome. rewrite H1. destruct e; by eexists. }
  apply write_outcome_None in H0, H2, H3.
  unfold writing_all_file, try_except, bind, read_excel, lift, touch_excel.
  unfold persisted in Hex. rewrite Hex. cbn [writes]. rewrite H0. cbn [writes].
  rewrite Hm, Hy. cbn [writes]. simpl in H1'. rewrite H1'. cbn [writes].
  simpl in H2. rewrite H2. cbn [writes].
  simpl in H3. rewrite H3. cbn [fst snd].
  split; [done |]. split; [| apply sort_values_Permutation].
  unfold persisted. cbn [files].
  change (<[ ?p := put_sheet ?t product (?fs !! ?p) ]> ?fs) with (written t p product fs).
  rewrite written_lookup_ne by (intros H; symmetry in H; by apply hist_file_not_backup in H).
  apply written_lookup_eq.
Qed.

End MergeMore.

(** *** The further merge properties on concrete tables *)

Lemma merge_loses_no_period_witness :
  ∃ t, persisted "data" "EUR"
         (writing_all_file sound "data" 2023 6 fetched "EUR" (with_history history)).1 = Some t ∧
       (∀ r, r ∈ t → r ∈ purge_current 2023 6 history ∨ r ∈ fetched) ∧
       (∀ r, r ∈ purge_current 2023 6 history ∨ r ∈ fetched →
             ∃ r', r' ∈ t ∧ period r' = period r) ∧
       (∀ r, r ∈ history → ¬ is_current 2023 6 r →
             ∃ r', r' ∈ t ∧ r' ∈ history ∧ period r' = period r).
Proof.
  apply (merge_loses_no_period sound "data" 2023 6 (with_history history) fetched "EUR" history).
  - vm_compute. reflexivity.
  - done.
  - apply sound_try_writes_ok.
Defined.

Lemma first_merge_keeps_every_record_witness :
  ∃ month year t,
    Py.max (Month <$> fetched) = Ok month ∧ Py.max (Year <$> fetched) = Ok year ∧
    (writing_all_file sound "data" 2023 6 fetched "EUR" first_run).2 = Ok tt ∧
    persisted "data" "EUR" (writing_all_file sound "data" 2023 6 fetched "EUR" first_run).1
      = Some t ∧
    snapshot "data" month year "EUR"
      (writing_all_file sound "data" 2023 6 fetched "EUR" first_run).1 = Some t ∧
    t ≡ₚ fetched ∧ Sorted may_stand_before t.
Proof.
  apply (first_merge_keeps_every_record sound "data" 2023 6 first_run fetched "EUR").
  - vm_compute. reflexivity.
  - done.
  - apply sound_try_writes_ok.
Defined.

Lemma merge_idempotent_witness :
  let w1 := (writing_all_file sound "data" 2023 6 fetched "EUR" (with_history history)).1 in
  let w2 := (writing_all_file sound "data" 2023 6 fetched "EUR" w1).1 in
  persisted "data" "EUR" w2 = persisted "data" "EUR" w1.
Proof.
  apply (merge_idempotent sound "data" 2023 6 (with_history history) fetched "EUR" history).
  - vm_compute. reflexivity.
  - apply (bool_decide_unpack _). vm_compute. exact I.
  - done.
  - apply sound_try_writes_ok.
  - apply sound_try_writes_ok.
Defined.

Lemma merge_nothing_new_witness :
  persisted "data" "EUR"
    (writing_all_file sound "data" 2023 8 [rate 2023 5 2; rate 2023 4 3] "EUR"
       (with_history history)).1
  = Some history.
Proof.
  apply (merge_nothing_new sound "data" 2023 8 (with_history history)
           [rate 2023 5 2; rate 2023 4 3] "EUR" history).
  - vm_compute. reflexivity.
  - unfold history. repeat constructor; unfold strictly_before; simpl; lia.
  - intros r Hr [Hm _]. unfold history in Hr.
    repeat (apply elem_of_cons in Hr as [-> | Hr]; [simpl in Hm; lia |]).
    by apply elem_of_nil in Hr.
  - done.
  - intros r Hr.
    apply elem_of_cons in Hr as [-> | Hr]; [right; by left |].
    apply elem_of_cons in Hr as [-> | Hr]; [right; right; by left |].
    by apply elem_of_nil in Hr.
  - apply sound_try_writes_ok.
Defined.

Lemma merge_fallback_overwrites_history_witness :
  (writing_all_file (locked_at 1) "data" 2023 6 fetched "EUR" (with_history history)).2 = Ok tt ∧
  persisted "data" "EUR"
    (writing_all_file (locked_at 1) "data" 2023 6 fetched "EUR" (with_history history)).1
  = Some (Pd.sort_values fetched) ∧
  Pd.sort_values fetched ≡ₚ fetched.
Proof.
  apply (merge_fallback_overwrites_history (locked_at 1) "data" 2023 6 (with_history history)
           fetched "EUR" history PermissionError).
  - vm_compute. reflexivity.
  - done.
  - reflexivity.
  - reflexivity.
  - reflexivity.
  - reflexivity.
Defined.

(** ** More on the record builder *)

(** The months of [month_mapping] are the twelve months of the year. *)
Lemma month_mapping_range (month : string) (n : Z) :
  month_mapping !! month = Some n → 1 ≤ n ≤ 12.
Proof.
  intros H. unfold month_mapping in H. apply elem_of_list_to_map_2 in H.
  repeat (apply elem_of_cons in H as [[= _ ->] | H]; [lia |]).
  by apply elem_of_nil in H.
Qed.

(** A date that [extract_date] gives. *)
Lemma extract_date_Ok (month : string) (year : Z) (d : date) :
  extract_date month year = Ok d →
  month_mapping !! month = Some (date_month d) ∧ 1 ≤ date_month d ≤ 12 ∧
  date_year d = year ∧ 1 ≤ year ≤ 9999.
Proof.
  unfold extract_date, Py.getitem.
  destruct (month_mapping !! month) as [n|] eqn:Hm; simpl; [| done].
  pose proof (month_mapping_range month n Hm) as Hn.
  unfold date_first. case_bool_decide as Hc; [| done].
  case_bool_decide as Hy; [| done].
  rewrite bool_decide_eq_true_2 by done. intros [= <-]. done.
Qed.

(** X6.  [extract_date] gives the first day of the month the token names in
    the given year, with a month between 1 and 12; it raises [KeyError] with
    the token when the token is not one of the twelve abbreviations,
    [OverflowError] when the month is known and the year does not fit a C
    int, and [ValueError] when the month is known and the year fits a C int
    but lies outside 1..9999; it never raises for any other reason. *)
Theorem extract_date_first_of_month (month : string) (year : Z) :
  match extract_date month year with
  | Ok d =>
      month_mapping !! month = Some (date_month d) ∧ 1 ≤ date_month d ≤ 12 ∧
      date_year d = year ∧ 1 ≤ year ≤ 9999 ∧ date_day d = 1
  | Raise e =>
      (month_mapping !! month = None ∧ e = KeyError month) ∨
      (is_Some (month_mapping !! month) ∧ ¬ c_int year ∧
       e = OverflowError) ∨
      (is_Some (month_mapping !! month) ∧ c_int year ∧
       ¬ (1 ≤ year ≤ 9999) ∧ e = ValueError "year is out of range")
  end.
Proof.
  unfold extract_date, Py.getitem.
  destruct (month_mapping !! month) as [n|] eqn:Hm; simpl; [| by left].
  pose proof (month_mapping_range month n Hm) as Hn.
  assert (c_int n) as Hcn by (unfold c_int; lia).
  unfold date_first. destruct (decide (c_int year)) as [Hc | Hc].
  - rewrite bool_decide_eq_true_2 by done.
    destruct (decide (1 ≤ year ≤ 9999)) as [Hy | Hy].
    + rewrite bool_decide_eq_true_2 by done.
      rewrite bool_decide_eq_true_2 by done. simpl. done.
    + rewrite bool_decide_eq_false_2 by done. right. right. done.
  - rewrite bool_decide_eq_false_2 by (intros [? _]; done).
    right. left. done.
Qed.

Section BuilderMore.

Variable parse_float : string → option float.

Lemma build_line_shape curr year lis data data' :
  build_line parse_float curr year lis data = Ok data' →
  ∃ new, data' = data ++ new ∧
         length new = length (filter two_tokens [lis]) ∧
         Forall (built_for curr year year) new.
Proof.
  unfold build_line. rewrite filter_cons, filter_nil.
  destruct (decide (two_tokens lis)) as [Ht | Ht]; unfold two_tokens in Ht;
    destruct (Py.split " " lis) as [|month [|crate extra]] eqn:E; simpl in Ht; try lia.
  - unfold py_float. destruct (parse_float crate) as [x|]; simpl; [| done].
    destruct (extract_date month year) as [d|] eqn:Hd; simpl; [| done].
    apply extract_date_Ok in Hd as (_ & ? & _ & ?).
    intros [= <-]. eexists. split; [reflexivity |]. split; [done |].
    constructor; [| constructor]. unfold built_for. simpl.
    repeat split; done || lia.
  - intros [= <-]. exists []. rewrite app_nil_r. by repeat split.
  - intros [= <-]. exists []. rewrite app_nil_r. by repeat split.
Qed.

(** The line loop only appends records built for the currency and the
    year. *)
Lemma build_lines_built curr year lists data data' :
  build_lines parse_float curr year lists data = Ok data' →
  ∃ new, data' = data ++ new ∧ Forall (built_for curr year year) new.
Proof.
  revert data. induction lists as [|lis rest IH]; intros data; simpl.
  - intros [= <-]. exists []. by rewrite app_nil_r.
  - destruct (build_line parse_float curr year lis data) as [data1|] eqn:E1; simpl; [| done].
    intros Hrest. apply build_line_shape in E1 as (new1 & -> & _ & Hf1).
    apply IH in Hrest as (new2 & -> & Hf2).
    exists (new1 ++ new2). split; [by rewrite app_assoc | by apply Forall_app].
Qed.

(** X7.  The line loop only appends: what [data] held stays in front, each
    line of two tokens or more adds exactly one record and any other line
    none, and every record added is of the currency asked for against USD,
    of the year asked for, which lies in 1..9999, and of a month between 1
    and 12. *)
Theorem build_lines_shape (curr : string) (year : Z) (lists : list string)
    (data data' : DataFrame) :
  build_lines parse_float curr year lists data = Ok data' →
  ∃ new, data' = data ++ new ∧
         length new = length (filter two_tokens lists) ∧
         Forall (built_for curr year year) new.
Proof.
  revert data. induction lists as [|lis rest IH]; intros data; simpl.
  - intros [= <-]. exists []. by rewrite app_nil_r.
  - destruct (build_line parse_float curr year lis data) as [data1|] eqn:E1; simpl; [| done].
    intros Hrest. apply build_line_shape in E1 as (new1 & -> & Hl1 & Hf1).
    apply IH in Hrest as (new2 & -> & Hl2 & Hf2).
    exists (new1 ++ new2). split; [by rewrite app_assoc |]. split.
    + change (lis :: rest) with ([lis] ++ rest).
      rewrite filter_app, !length_app. lia.
    + by apply Forall_app.
Qed.

End BuilderMore.

Lemma build_lines_shape_witness :
  ∃ new, [rate 2022 12 2] ++ [mkRate "EUR" "USD" 2023 1 0.5 2] = [rate 2022 12 2] ++ new ∧
         length new = length (filter two_tokens ["Jan 0.5"; "header"]) ∧
         Forall (built_for "EUR" 2023 2023) new.
Proof.
  apply (build_lines_shape example_float "EUR" 2023 ["Jan 0.5"; "header"] [rate 2022 12 2]).
  vm_compute. reflexivity.
Defined.

(** ** More on the fetcher *)

Lemma built_for_weaken curr lo hi lo' hi' r :
  lo' ≤ lo → hi ≤ hi' → built_for curr lo hi r → built_for curr lo' hi' r.
Proof. unfold built_for. intros ? ? (? & ? & ? & ? & ?). repeat split; done || lia. Qed.

Lemma fetch_event_weaken curr lo hi lo' hi' e :
  lo' ≤ lo → hi ≤ hi' → fetch_event curr lo hi e → fetch_event curr lo' hi' e.
Proof. destruct e; simpl; try done. intros ? ? [? ?]. split; done || lia. Qed.

Lemma failed_attempts_fetch_event curr year k :
  Forall (fetch_event curr year year) (failed_attempts curr year k).
Proof.
  induction k as [|k IH]; [constructor |]. simpl.
  constructor; [done |]. constructor; [| done]. simpl. split; done || lia.
Qed.

Lemma ascending_app (l1 l2 : DataFrame) :
  StronglySorted (λ a b, Year a ≤ Year b) l1 →
  StronglySorted (λ a b, Year a ≤ Year b) l2 →
  (∀ a b, a ∈ l1 → b ∈ l2 → Year a ≤ Year b) →
  StronglySorted (λ a b, Year a ≤ Year b) (l1 ++ l2).
Proof.
  induction 1 as [|a l1 Hs IH Ha]; intros H2 Hle; [done |].
  simpl. constructor.
  - apply IH; [done |]. intros x y Hx Hy. apply Hle; [by right | done].
  - apply Forall_app. split; [done |].
    apply Forall_forall. intros y Hy. apply Hle; [by left | done].
Qed.

Lemma same_year_ascending curr year (l : DataFrame) :
  Forall (built_for curr year year) l → StronglySorted (λ a b, Year a ≤ Year b) l.
Proof.
  induction 1 as [|a l Ha Hl IH]; constructor; [done |].
  eapply Forall_impl; [exact Hl |]. intros b Hb.
  destruct Ha as (_ & _ & ? & _), Hb as (_ & _ & ? & _). lia.
Qed.

Section FetchMore.

Variable net : nat → option string.
Variable parse_float : string → option float.

(** What [turns] turns of the year loop do, from the year [year] on. *)
Lemma year_loop_trace turns curr year lists data w :
  let r := year_loop net parse_float turns curr year lists data w in
  (requests r.1 ≤ requests w + 5 * turns)%nat ∧
  (is_ok r.2 = true → (requests w + turns ≤ requests r.1)%nat) ∧
  (∃ evs, log r.1 = evs ++ log w ∧
          Forall (fetch_event curr year (year + Z.of_nat turns - 1)) evs) ∧
  (∀ lists' data', r.2 = Ok (lists', data') →
     ∃ new, data' = data ++ new ∧
            Forall (built_for curr year (year + Z.of_nat turns - 1)) new ∧
            StronglySorted (λ a b, Year a ≤ Year b) new).
Proof.
  revert year lists data w. induction turns as [|turns IH]; intros year lists data w.
  - simpl. split; [lia |]. split; [lia |]. split; [by exists [] |].
    intros lists' data' [= _ <-]. exists []. rewrite app_nil_r. by repeat constructor.
  - assert (year + 1 + Z.of_nat turns - 1 = year + Z.of_nat (S turns) - 1) as Hhi by lia.
    destruct (first_success net (requests w) 5) as [Hall | (k & text & Hk & Hfail & Hok)].
    + rewrite (year_loop_skip net parse_float turns curr year lists data w Hall).
      set (w1 := after_fetch w 5 (failed_attempts curr year 5)).
      destruct (IH (year + 1) lists data w1) as (Hr & Hr' & (evs & Hl & He) & Hd).
      rewrite Hhi in He, Hd.
      split; [simpl in Hr; lia |]. split; [intros Hok; specialize (Hr' Hok); simpl in Hr'; lia |].
      split.
      * exists (evs ++ failed_attempts curr year 5). split.
        -- rewrite Hl. unfold w1, after_fetch. cbn [log]. by rewrite app_assoc.
        -- apply Forall_app. split.
           ++ eapply Forall_impl; [exact He |]. intros e. apply fetch_event_weaken; lia.
           ++ eapply Forall_impl; [apply failed_attempts_fetch_event |].
              intros e. apply fetch_event_weaken; lia.
      * intros lists' data' Hres. destruct (Hd lists' data' Hres) as (new & -> & Hb & Hs).
        exists new. split; [done |]. split; [| done].
        eapply Forall_impl; [exact Hb |]. intros r. apply built_for_weaken; lia.
    + rewrite (year_loop_parse net parse_float turns curr year lists data w k text Hk Hfail Hok).
      set (w1 := after_fetch w (S k) (EvGet curr year :: failed_attempts curr year k)).
      assert (Forall (fetch_event curr year (year + Z.of_nat (S turns) - 1))
                (EvGet curr year :: failed_attempts curr year k)) as Hev.
      { constructor; [simpl; split; done || lia |].
        eapply Forall_impl; [apply failed_attempts_fetch_event |].
        intros e. apply fetch_event_weaken; lia. }
      simpl.
      destruct (build_lines parse_float curr year (Py.split "010" text) data)
        as [data1|e] eqn:Hbuild.
      * apply build_lines_built in Hbuild as (new1 & -> & Hb1).
        destruct (IH (year + 1) (Py.split "010" text) (data ++ new1) w1)
          as (Hr & Hr' & (evs & Hl & He) & Hd).
        rewrite Hhi in He, Hd.
        split; [simpl in Hr; lia |].
        split; [intros Hok'; specialize (Hr' Hok'); simpl in Hr'; lia |].
        split.
        -- exists (evs ++ EvGet curr year :: failed_attempts curr year k). split.
           ++ rewrite Hl. unfold w1, after_fetch. cbn [log]. by rewrite app_assoc.
           ++ apply Forall_app. split; [| done].
              eapply Forall_impl; [exact He |]. intros e. apply fetch_event_weaken; lia.
        -- intros lists' data' Hres. destruct (Hd lists' data' Hres) as (new2 & -> & Hb2 & Hs2).
           exists (new1 ++ new2). split; [by rewrite app_assoc |]. split.
           ++ apply Forall_app. split.
              ** eapply Forall_impl; [exact Hb1 |]. intros r. apply built_for_weaken; lia.
              ** eapply Forall_impl; [exact Hb2 |]. intros r. apply built_for_weaken; lia.
           ++ apply ascending_app; [by eapply same_year_ascending | done |].
              intros a b Ha Hb. rewrite Forall_forall in Hb1, Hb2.
              destruct (Hb1 a Ha) as (_ & _ & ? & _), (Hb2 b Hb) as (_ & _ & ? & _). lia.
      * split; [simpl; lia |]. split; [simpl; discriminate |]. split; [by eexists |].
        simpl. discriminate.
Qed.

(** The year loop as [main] enters it, up to the current year. *)
Lemma while_years_trace current_year curr year lists data w :
  (requests (while_years net parse_float current_year curr year lists data w).1
   ≤ requests w + 5 * Z.to_nat (current_year + 1 - year))%nat ∧
  (∃ evs, log (while_years net parse_float current_year curr year lists data w).1
            = evs ++ log w ∧
          Forall (fetch_event curr year current_year) evs) ∧
  (∀ lists' data',
     (while_years net parse_float current_year curr year lists data w).2 = Ok (lists', data') →
     ∃ new, data' = data ++ new ∧
            Forall (built_for curr year current_year) new ∧
            StronglySorted (λ a b, Year a ≤ Year b) new).
Proof.
  unfold while_years. set (turns := Z.to_nat (current_year + 1 - year)).
  destruct (year_loop_trace turns curr year lists data w) as (Hr & _ & (evs & Hl & He) & Hd).
  split; [done |]. split.
  - exists evs. split; [done |].
    destruct (decide (year ≤ current_year)) as [Hle | Hgt].
    + eapply Forall_impl; [exact He |]. intros e. apply fetch_event_weaken; lia.
    + assert (turns = 0%nat) as Ht by lia. rewrite Ht in Hl. simpl in Hl.
      apply (f_equal length) in Hl. rewrite length_app in Hl.
      destruct evs; [constructor | simpl in Hl; lia].
  - intros lists' data' Hres. destruct (Hd lists' data' Hres) as (new & -> & Hb & Hs).
    exists new. split; [done |]. split; [| done].
    destruct (decide (year ≤ current_year)) as [Hle | Hgt].
    + eapply Forall_impl; [exact Hb |]. intros x. apply built_for_weaken; lia.
    + eapply Forall_impl; [exact Hb |]. intros x (_ & _ & ? & _). lia.
Qed.

(** X8.  Fetching one currency from the year [year] on touches neither
    the rate workbooks nor the input tracking tables, issues at most five
    requests for each year from [year] to the current year (and at least
    one for each when it returns normally), and does nothing else than
    requests for that currency and one of those years and sleeps of one
    second; when [year] is past the current year it issues no request at
    all. *)
Theorem fetch_years_bounded (current_year : Z) (curr : string) (year : Z)
    (lists : list string) (data : DataFrame) (w : World) :
  let r := while_years net parse_float current_year curr year lists data w in
  files r.1 = files w ∧ inputs r.1 = inputs w ∧
  (requests r.1 ≤ requests w + 5 * Z.to_nat (current_year + 1 - year))%nat ∧
  (is_ok r.2 = true → (requests w + Z.to_nat (current_year + 1 - year) ≤ requests r.1)%nat) ∧
  ∃ evs, log r.1 = evs ++ log w ∧ Forall (fetch_event curr year current_year) evs.
Proof.
  intros r. unfold r.
  destruct (while_years_trace current_year curr year lists data w) as (Hr & Hev & _).
  unfold while_years in *. set (turns := Z.to_nat (current_year + 1 - year)) in *.
  destruct (year_loop_inv net parse_float turns curr year lists data w) as (Hf & Hi & _).
  destruct (year_loop_trace turns curr year lists data w) as (_ & Hr' & _).
  split; [done |]. split; [done |]. split; [done |]. by split.
Qed.

(** X9.  When the fetch of a currency returns normally, the records it
    hands on are what [data] held followed by new records that are all of
    that currency against USD, of a year between the year the fetch started
    from and the current year, of a month between 1 and 12, and that come in
    ascending order of their years. *)
Theorem fetched_records_in_range (current_year : Z) (curr : string) (year : Z)
    (lists lists' : list string) (data data' : DataFrame) (w w' : World) :
  while_years net parse_float current_year curr year lists data w = (w', Ok (lists', data')) →
  ∃ new, data' = data ++ new ∧
         Forall (built_for curr year current_year) new ∧
         StronglySorted (λ a b, Year a ≤ Year b) new.
Proof.
  intros Hrun.
  destruct (while_years_trace current_year curr year lists data w) as (_ & _ & Hd).
  apply (Hd lists'). by rewrite Hrun.
Qed.

End FetchMore.

Lemma fetched_records_in_range_witness :
  ∃ new, [mkRate "EUR" "USD" 2022 1 0.5 2; mkRate "EUR" "USD" 2023 1 0.5 2] = [] ++ new ∧
         Forall (built_for "EUR" 2022 2023) new ∧
         StronglySorted (λ a b, Year a ≤ Year b) new.
Proof.
  eapply (fetched_records_in_range up example_float 2023 "EUR" 2022 [] _ [] _ start _).
  vm_compute. reflexivity.
Defined.

(** ** More on the run as a whole *)

Lemma run_event_weaken data_path current_year rows rows' e :
  (∀ row, row ∈ rows → row ∈ rows') →
  run_event data_path current_year rows e → run_event data_path current_year rows' e.
Proof.
  intros Hsub. destruct e as [curr year | s | path sheet | path sheet]; simpl; try done.
  - intros [Hne (row & Hrow & Hc & Hy)]. split; [done |]. exists row. by split; [apply Hsub |].
  - intros (Hne & Hin & Hp). split; [done |]. split; [| done].
    apply list_elem_of_fmap in Hin as (row & -> & Hrow).
    apply list_elem_of_fmap_2. by apply Hsub.
Qed.

Lemma progress_of_weaken current_year rows rows' before after :
  (∀ row, row ∈ rows → row ∈ rows') →
  progress_of current_year rows before after → progress_of current_year rows' before after.
Proof.
  intros Hsub H s y Hs. destruct (H s y Hs) as [? | (Hne & row & Hrow & Hrest)]; [by left |].
  right. split; [done |]. exists row. by split; [apply Hsub |].
Qed.

Lemma progress_of_trans current_year rows m0 m1 m2 :
  progress_of current_year rows m0 m1 → progress_of current_year rows m1 m2 →
  progress_of current_year rows m0 m2.
Proof.
  intros H1 H2 s y Hs. destruct (H2 s y Hs) as [Hs1 | ?]; [by apply H1 | by right].
Qed.

Lemma fetch_event_run data_path current_year row e :
  "USD" ≠ Initial_Currency row →
  fetch_event (Initial_Currency row) (Fetched_Year row) current_year e →
  run_event data_path current_year [row] e.
Proof.
  intros Husd. destruct e as [curr year | s | path sheet | path sheet]; simpl; try done.
  intros [-> Hy]. split; [congruence |]. exists row. split; [by left | done].
Qed.

Lemma request_budget_cons current_year row rows :
  request_budget current_year (row :: rows)
  = (5 * years_to_fetch current_year row + request_budget current_year rows)%nat.
Proof. unfold request_budget. rewrite fmap_cons. simpl. lia. Qed.

Section RunMore.

Variable disk : nat → option exn.
Variable data_path : string.
Variables current_year current_month : Z.
Variable net : nat → option string.
Variable parse_float : string → option float.

Local Abbreviation writing_all_file' := (writing_all_file disk data_path current_year current_month).
Local Abbreviation process_row' :=
  (process_row disk data_path current_year current_month net parse_float).
Local Abbreviation for_rows' := (for_rows disk data_path current_year current_month net parse_float).
Local Abbreviation main' := (main disk data_path current_year current_month net parse_float).
Local Abbreviation run_event' := (run_event data_path current_year).
Local Abbreviation progress_of' := (progress_of current_year).
Local Abbreviation years_to_fetch' := (years_to_fetch current_year).

(** Whatever the disk does, a merge issues no request and logs only writes
    of the sheet of the product, to the historical file or to a backup. *)
Lemma writing_all_file_log w df product :
  requests (writing_all_file' df product w).1 = requests w ∧
  ∃ evs, log (writing_all_file' df product w).1 = evs ++ log w ∧
         Forall (λ e, ∃ path, e = EvWriteRates path product ∧
                   (path = hist_file data_path ∨
                    ∃ month year, path = backup_file data_path month year)) evs.
Proof.
  destruct (writing_all_file_steps disk data_path current_year current_month w df product)
    as [Hsteps _].
  destruct (merge_steps_frame _ _ _ _ Hsteps) as (_ & Hr & _ & evs & Hl & He).
  split; [done |]. exists evs. split; [done |].
  eapply Forall_impl; [exact He |]. intros e (path & t & -> & Hadm).
  exists path. split; [done |].
  destruct Hadm as [[-> _] | (month & year & ->)]; [by left | right; by eexists _, _].
Qed.

(** What one turn of the loop over the input rows does. *)
Lemma process_row_run row c w :
  (requests (process_row' row c w).1 ≤ requests w + 5 * years_to_fetch' row)%nat ∧
  (∃ evs, log (process_row' row c w).1 = evs ++ log w ∧ Forall (run_event' [row]) evs) ∧
  (∀ c', (process_row' row c w).2 = Ok c' →
         progress_of' [row] (max_years c) (max_years c')).
Proof.
  unfold process_row, years_to_fetch. case_bool_decide as Husd.
  { simpl. split; [lia |]. split; [by exists [] |].
    intros c' [= <-] s y Hs. by left. }
  unfold bind.
  destruct (while_years_trace net parse_float current_year (Initial_Currency row)
              (Fetched_Year row) (lists_of c) [] w) as (Hr & (evs & Hl & He) & Hd).
  assert (Forall (run_event' [row]) evs) as Hev.
  { eapply Forall_impl; [exact He |]. intros e. by apply fetch_event_run. }
  destruct (while_years net parse_float current_year (Initial_Currency row)
              (Fetched_Year row) (lists_of c) [] w) as [w1 [[lists1 data1]|e]]; simpl in *.
  - destruct (Hd lists1 data1 eq_refl) as (new & -> & Hb & _).
    destruct new as [|r0 data0].
    + simpl. split; [done |]. split; [by exists evs |].
      intros c' [= <-] s y Hs. by left.
    + set (df := r0 :: data0) in *.
      destruct (py_max_spec (Month <$> df)) as (m & Hm & _); [done |].
      destruct (py_max_spec (Year <$> df)) as (y & Hy & Hyin & _); [done |].
      unfold lift. rewrite Hm, Hy.
      destruct (writing_all_file_log w1 df (Initial_Currency row)) as (Hr2 & evs2 & Hl2 & He2).
      assert (Forall (run_event' [row]) evs2) as Hev2.
      { eapply Forall_impl; [exact He2 |]. intros e (path & -> & Hpath). simpl.
        split; [congruence |]. split; [by left | done]. }
      destruct (writing_all_file' df (Initial_Currency row) w1) as [w2 [[]|e2]];
        cbn [fst snd] in *.
      2: { split; [lia |]. split; [| discriminate].
           exists (evs2 ++ evs). split; [rewrite Hl2, Hl; by rewrite app_assoc |].
           by apply Forall_app. }
      unfold ret. cbn [fst snd].
      split; [lia |]. split.
      * exists (evs2 ++ evs). split; [rewrite Hl2, Hl; by rewrite app_assoc |].
        by apply Forall_app.
      * intros c' [= <-] s y' Hs. simpl in Hs.
        destruct (decide (Initial_Currency row = s)) as [<- | Hne].
        -- rewrite lookup_insert_eq in Hs. injection Hs as <-.
           right. split; [congruence |]. exists row. split; [by left |]. split; [done |].
           apply list_elem_of_fmap in Hyin as (r & -> & Hr0).
           rewrite Forall_forall in Hb. destruct (Hb r Hr0) as (_ & _ & ? & _). done.
        -- rewrite lookup_insert_ne in Hs by done. by left.
  - split; [done |]. split; [by exists evs | discriminate].
Qed.

(** What the loop over the input rows does. *)
Lemma for_rows_run rows c w :
  (requests (for_rows' rows c w).1 ≤ requests w + request_budget current_year rows)%nat ∧
  (∃ evs, log (for_rows' rows c w).1 = evs ++ log w ∧ Forall (run_event' rows) evs) ∧
  (∀ c', (for_rows' rows c w).2 = Ok c' → progress_of' rows (max_years c) (max_years c')).
Proof.
  revert c w. induction rows as [|row rest IH]; intros c w.
  - simpl. split; [lia |]. split; [by exists [] |]. intros c' [= <-] s y Hs. by left.
  - change (for_rows' (row :: rest) c w)
      with (bind (process_row' row c) (λ c, for_rows' rest c) w).
    unfold bind. rewrite request_budget_cons.
    destruct (process_row_run row c w) as (Hr & (evs & Hl & He) & Hp).
    assert (∀ x, x ∈ [row] → x ∈ row :: rest) as Hsub1
      by (intros x Hx; apply list_elem_of_singleton in Hx as ->; by left).
    assert (∀ x, x ∈ rest → x ∈ row :: rest) as Hsub2 by (intros x Hx; by right).
    destruct (process_row' row c w) as [w1 [c1|e]]; cbn [fst snd] in *.
    + destruct (IH c1 w1) as (Hr2 & (evs2 & Hl2 & He2) & Hp2).
      split; [lia |]. split.
      * exists (evs2 ++ evs). split; [rewrite Hl2, Hl; by rewrite app_assoc |].
        apply Forall_app. split.
        -- eapply Forall_impl; [exact He2 |]. intros e. by apply run_event_weaken.
        -- eapply Forall_impl; [exact He |]. intros e. by apply run_event_weaken.
      * intros c' Hc'. apply (progress_of_trans _ _ _ (max_years c1)).
        -- eapply progress_of_weaken; [exact Hsub1 | by apply Hp].
        -- eapply progress_of_weaken; [exact Hsub2 | by apply Hp2].
    + split; [lia |]. split; [| discriminate].
      exists evs. split; [done |].
      eapply Forall_impl; [exact He |]. intros e'. by apply run_event_weaken.
Qed.


(** X10.  What a run never does: every event of a run is a request for a
    currency of the input table other than USD and a year between the
    [Fetched Year] of a row of that currency and the current year, a sleep
    of one second, a write of the sheet of such a currency to the
    historical file or to a backup file, or the write of the progress sheet
    [All Currencies] of the inputs file. *)
Theorem run_does_nothing_else (input_df : list InputRow) (w : World) :
  ∃ evs, log (main' input_df w).1 = evs ++ log w ∧ Forall (run_event' input_df) evs.
Proof.
  rewrite main_unfold.
  destruct (for_rows_run input_df (mkCarry [] ∅ ∅) w) as (_ & (evs & Hl & He) & _).
  destruct (for_rows' input_df (mkCarry [] ∅ ∅) w) as [w1 [c|e]]; cbn [fst snd] in *;
    [| by exists evs].
  destruct ((size (max_years c) =? 0)%nat || (size (max_month c) =? 0)%nat);
    [by exists evs |].
  unfold update_input_file, touch_excel_inputs.
  destruct (write_outcome disk (writes w1)); cbn [fst log]; [by exists evs |].
  exists (EvWriteInputs (inputs_file data_path) "All Currencies" :: evs).
  split; [by rewrite Hl |]. by constructor.
Qed.

(** X11.  A run issues at most five requests for each year from the
    [Fetched Year] of a row to the current year, over the rows whose
    currency is not USD. *)
Theorem run_request_budget (input_df : list InputRow) (w : World) :
  (requests (main' input_df w).1 ≤ requests w + request_budget current_year input_df)%nat.
Proof.
  rewrite main_unfold.
  destruct (for_rows_run input_df (mkCarry [] ∅ ∅) w) as (Hr & _).
  destruct (for_rows' input_df (mkCarry [] ∅ ∅) w) as [w1 [c|e]]; cbn [fst snd] in *;
    [| done].
  destruct ((size (max_years c) =? 0)%nat || (size (max_month c) =? 0)%nat); [done |].
  unfold update_input_file, touch_excel_inputs.
  by destruct (write_outcome disk (writes w1)).
Qed.

Lemma NoDup_fmap_elem {A B} (f : A → B) (l : list A) x y :
  NoDup (f <$> l) → x ∈ l → y ∈ l → f x = f y → x = y.
Proof.
  intros Hnd Hx Hy Hf.
  apply list_elem_of_lookup in Hx as [i Hi]. apply list_elem_of_lookup in Hy as [j Hj].
  assert (i = j) as ->.
  { apply (NoDup_lookup (f <$> l) i j (f x) Hnd).
    - by rewrite list_lookup_fmap, Hi.
    - by rewrite list_lookup_fmap, Hj, Hf. }
  congruence.
Qed.

(** X12.  Progress never goes backwards: over an input table that lists
    each currency once, a run either leaves the input tracking tables as
    they were, or writes the progress sheet with the same rows in the same
    order, where each row is as it was or, for a currency other than USD,
    carries a [Fetched Year] that is at least the one it had and at most
    the current year. *)
Theorem progress_never_regresses (input_df : list InputRow) (w : World) :
  NoDup (Initial_Currency <$> input_df) →
  inputs (main' input_df w).1 = inputs w ∨
  ∃ t, inputs (main' input_df w).1
       = <[ inputs_file data_path :=
              put_sheet t "All Currencies" (inputs w !! inputs_file data_path) ]> (inputs w) ∧
       length t = length input_df ∧
       ∀ i row, input_df !! i = Some row →
         ∃ row', t !! i = Some row' ∧ Initial_Currency row' = Initial_Currency row ∧
                 (row' = row ∨
                  (Initial_Currency row ≠ "USD" ∧
                   Fetched_Year row ≤ Fetched_Year row' ≤ current_year)).
Proof.
  intros Hnd. rewrite main_unfold.
  destruct (for_rows_run input_df (mkCarry [] ∅ ∅) w) as (_ & _ & Hp).
  pose proof (for_rows_inv disk data_path current_year current_month net parse_float
                input_df (mkCarry [] ∅ ∅) w) as (Hi & _).
  destruct (for_rows' input_df (mkCarry [] ∅ ∅) w) as [w1 [c|e]]; cbn [fst snd] in *;
    [| by left].
  destruct ((size (max_years c) =? 0)%nat || (size (max_month c) =? 0)%nat); [by left |].
  unfold update_input_file, touch_excel_inputs.
  destruct (write_outcome disk (writes w1)); cbn [fst inputs]; [by left |].
  right. exists (update_row (max_years c) <$> input_df). rewrite Hi.
  split; [done |]. split; [by rewrite length_fmap |].
  intros i row Hrow. exists (update_row (max_years c) row).
  split; [by rewrite list_lookup_fmap, Hrow |].
  destruct (max_years c !! Initial_Currency row) as [y|] eqn:Hy.
  - rewrite (update_row_hit _ _ y Hy). simpl. split; [done |]. right.
    destruct (Hp c eq_refl _ _ Hy) as [Hempty | (Hne & row2 & Hrow2 & Hc2 & Hrange)];
      [cbn [max_years] in Hempty; by rewrite lookup_empty in Hempty |].
    split; [done |].
    assert (row2 = row) as ->; [| done].
    apply (NoDup_fmap_elem Initial_Currency input_df); [done | done | | done].
    by eapply list_elem_of_lookup_2.
  - rewrite (update_row_frame _ _ Hy). split; [done | by left].
Qed.

(** *** A source that is down *)

Section SourceDown.

Hypothesis every_request_fails : ∀ k, net k = None.

Lemma year_loop_down turns curr year lists data w :
  ∃ evs, year_loop net parse_float turns curr year lists data w
         = (mkWorld (files w) (inputs w) (requests w + 5 * turns)%nat (evs ++ log w)
              (writes w),
            Ok (lists, data)).
Proof.
  revert year w. induction turns as [|turns IH]; intros year w.
  - exists []. simpl. unfold ret. destruct w. simpl. do 2 f_equal. f_equal. lia.
  - rewrite (year_loop_skip net parse_float turns curr year lists data w)
      by (intros i _; apply every_request_fails).
    destruct (IH (year + 1) (after_fetch w 5 (failed_attempts curr year 5))) as (evs & ->).
    exists (evs ++ failed_attempts curr year 5).
    unfold after_fetch. cbn [files inputs requests log writes].
    rewrite app_assoc. do 2 f_equal. lia.
Qed.

Lemma for_rows_down rows c w :
  ∃ evs, for_rows' rows c w
         = (mkWorld (files w) (inputs w) (requests w + request_budget current_year rows)%nat
              (evs ++ log w) (writes w),
            Ok c).
Proof.
  revert w. induction rows as [|row rest IH]; intros w.
  - exists []. simpl. unfold ret, request_budget. destruct w. simpl. do 2 f_equal. lia.
  - change (for_rows' (row :: rest) c w)
      with (bind (process_row' row c) (λ c, for_rows' rest c) w).
    rewrite request_budget_cons. unfold process_row, years_to_fetch.
    case_bool_decide as Husd; unfold bind.
    + unfold ret. destruct (IH w) as (evs & ->). exists evs. do 2 f_equal; try lia.
    + unfold while_years.
      destruct (year_loop_down (Z.to_nat (current_year + 1 - Fetched_Year row))
                  (Initial_Currency row) (Fetched_Year row) (lists_of c) [] w) as (evs & ->).
      unfold ret.
      replace (mkCarry (lists_of c) (max_month c) (max_years c)) with c by (by destruct c).
      destruct (IH (mkWorld (files w) (inputs w)
                      (requests w + 5 * Z.to_nat (current_year + 1 - Fetched_Year row))%nat
                      (evs ++ log w) (writes w))) as (evs2 & ->).
      exists (evs2 ++ evs). cbn [files inputs requests log writes].
      rewrite app_assoc. do 2 f_equal. lia.
Qed.

(** X13.  When every request fails, the run still ends normally: it writes
    no rate sheet and no progress sheet, and it has spent its whole budget
    of requests, five for each year of each currency other than USD. *)
Theorem run_with_source_down (input_df : list InputRow) (w : World) :
  (main' input_df w).2 = Ok tt ∧
  files (main' input_df w).1 = files w ∧
  inputs (main' input_df w).1 = inputs w ∧
  requests (main' input_df w).1 = (requests w + request_budget current_year input_df)%nat.
Proof.
  rewrite main_unfold.
  destruct (for_rows_down input_df (mkCarry [] ∅ ∅) w) as (evs & ->).
  cbn [max_years max_month]. rewrite map_size_empty. simpl. done.
Qed.

End SourceDown.

End RunMore.

(** *** The further run properties on concrete runs *)

Lemma progress_never_regresses_witness :
  inputs (main sound "data" 2023 6 up example_float tracked start).1 = inputs start ∨
  ∃ t, inputs (main sound "data" 2023 6 up example_float tracked start).1
       = <[ inputs_file "data" :=
              put_sheet t "All Currencies" (inputs start !! inputs_file "data") ]> (inputs start) ∧
       length t = length tracked ∧
       ∀ i row, tracked !! i = Some row →
         ∃ row', t !! i = Some row' ∧ Initial_Currency row' = Initial_Currency row ∧
                 (row' = row ∨
                  (Initial_Currency row ≠ "USD" ∧
                   Fetched_Year row ≤ Fetched_Year row' ≤ 2023)).
Proof.
  apply (progress_never_regresses sound "data" 2023 6 up example_float tracked start).
  apply (bool_decide_unpack _). vm_compute. exact I.
Defined.

Lemma run_with_source_down_witness :
  (main sound "data" 2023 6 down example_float tracked start).2 = Ok tt ∧
  files (main sound "data" 2023 6 down example_float tracked start).1 = files start ∧
  inputs (main sound "data" 2023 6 down example_float tracked start).1 = inputs start ∧
  requests (main sound "data" 2023 6 down example_float tracked start).1
  = (requests start + request_budget 2023 tracked)%nat.
Proof.
  apply (run_with_source_down sound "data" 2023 6 down example_float).
  intros k. reflexivity.
Defined.

(** ** More on the unit converter *)

Section UomMore.

Variable lower : string → string.
Variable mass_conversion_rates : gmap string float.

Local Abbreviation known' := (known lower mass_conversion_rates).
Local Abbreviation pass_of' := (pass_of lower mass_conversion_rates).
Local Abbreviation convert_price_for_uom' := (convert_price_for_uom lower mass_conversion_rates).

(** A pass for a pair with a unit that is no key of the conversion table
    raises [KeyError] with that unit in lower case; the initial unit is
    looked up first. *)
Lemma uom_pass_unknown initial_unit final_unit st :
  ¬ known' (initial_unit, final_unit) →
  ∃ u, (u = initial_unit ∨ u = final_unit) ∧
       mass_conversion_rates !! lower u = None ∧
       uom_pass lower mass_conversion_rates initial_unit final_unit st = Raise (KeyError (lower u)).
Proof.
  intros Hk. destruct st as [temp_df df]. unfold uom_pass, Py.getitem.
  destruct (mass_conversion_rates !! lower initial_unit) as [fi|] eqn:Hi; simpl.
  - destruct (mass_conversion_rates !! lower final_unit) as [ff|] eqn:Hf; simpl.
    + exfalso. apply Hk. split; simpl; by eexists.
    + exists final_unit. split; [by right | done].
  - exists initial_unit. split; [by left | done].
Qed.

(** The loop over the pairs either finds all of them known, or stops at the
    first pair with an unknown unit. *)
Lemma uom_loop_unknown combos temp_df df :
  length temp_df = length df →
  Forall known' combos ∨
  ∃ c u, c ∈ combos ∧ (u = c.1 ∨ u = c.2) ∧
         mass_conversion_rates !! lower u = None ∧
         uom_loop lower mass_conversion_rates combos (temp_df, df) = Raise (KeyError (lower u)).
Proof.
  revert temp_df df. induction combos as [|[iu fu] rest IH]; intros temp_df df Hlen.
  - left. constructor.
  - destruct (decide (known' (iu, fu))) as [Hk | Hk].
    + destruct Hk as [[fi Hi] [ff Hf]]. simpl in Hi, Hf.
      destruct (uom_pass_Ok lower mass_conversion_rates iu fu temp_df df fi ff Hlen Hi Hf)
        as (temp_df' & Hpass & Hlen').
      destruct (IH temp_df' (pass_row iu fu fi ff <$> df)) as [Hall | (c & u & Hc & Hu & Hn & Hr)].
      * by rewrite length_fmap.
      * left. constructor; [split; simpl; by eexists | done].
      * right. exists c, u. split; [by right |]. split; [done |]. split; [done |].
        change (uom_loop lower mass_conversion_rates ((iu, fu) :: rest) (temp_df, df))
          with (result_bind (uom_pass lower mass_conversion_rates iu fu (temp_df, df))
                  (uom_loop lower mass_conversion_rates rest)).
        rewrite Hpass. exact Hr.
    + right. destruct (uom_pass_unknown iu fu (temp_df, df) Hk) as (u & Hu & Hn & Hr).
      exists (iu, fu), u. split; [by left |]. split; [done |]. split; [done |].
      change (uom_loop lower mass_conversion_rates ((iu, fu) :: rest) (temp_df, df))
        with (result_bind (uom_pass lower mass_conversion_rates iu fu (temp_df, df))
                (uom_loop lower mass_conversion_rates rest)).
      by rewrite Hr.
Qed.

Lemma convert_price_for_uom_known df :
  is_ok (convert_price_for_uom' df) = true → ∀ row, row ∈ df → known' (units row).
Proof.
  unfold convert_price_for_uom. intros Hok row Hrow.
  destruct (uom_loop_unknown (Pd.drop_duplicates id (units <$> df)) df df eq_refl)
    as [Hall | (c & u & _ & _ & _ & Hr)].
  - rewrite Forall_forall in Hall. apply Hall.
    apply (drop_duplicates_complete id); [done |]. by apply list_elem_of_fmap_2.
  - rewrite Hr in Hok. discriminate.
Qed.

(** X14.  Whatever function [lower] is (Python's [str.lower] among them),
    the unit converter succeeds exactly when both units of every row are
    keys of the conversion table once put in lower case; otherwise it raises
    [KeyError] with the lower-case form of a unit of one of the rows that is
    no key of the table, and no row is converted. *)
Theorem uom_unknown_unit_raises (df : list PricedItem) :
  (is_ok (convert_price_for_uom' df) = true ↔ ∀ row, row ∈ df → known' (units row)) ∧
  (∀ e, convert_price_for_uom' df = Raise e →
        ∃ row u, row ∈ df ∧ (u = Initial_Unit row ∨ u = Final_Unit row) ∧
                 mass_conversion_rates !! lower u = None ∧
                 e = KeyError (lower u)).
Proof.
  split; [split |].
  - apply convert_price_for_uom_known.
  - intros Hall.
    destruct (convert_price_for_uom_all lower mass_conversion_rates df Hall) as (result & -> & _).
    done.
  - unfold convert_price_for_uom. intros e He.
    destruct (uom_loop_unknown (Pd.drop_duplicates id (units <$> df)) df df eq_refl)
      as [Hall | (c & u & Hc & Hu & Hn & Hr)].
    + destruct (uom_loop_Ok lower mass_conversion_rates _ df df eq_refl Hall) as (temp & Hloop).
      rewrite Hloop in He. discriminate.
    + rewrite Hr in He. simpl in He. injection He as <-.
      apply drop_duplicates_elem in Hc. apply list_elem_of_fmap in Hc as (row & -> & Hrow).
      exists row, u. by repeat split.
Qed.

(** What the converter makes of a row with known units depends on the units
    and the initial price alone. *)
Lemma converted_row row row' fi ff :
  units row' = units row → Initial_Price row' = Initial_Price row →
  set_uom row' (via_SI fi ff row') = set_uom row (via_SI fi ff row).
Proof.
  destruct row, row'. unfold units, set_uom, via_SI. simpl. intros [= -> ->] ->. done.
Qed.

(** X15.  A successful conversion keeps the number and order of the rows,
    their units and their initial prices; it does not depend on what the
    column [UOM Converted Price] held before: a table with the same units
    and initial prices row by row converts to the same table, and
    converting the result again gives the result. *)
Theorem uom_conversion_stable (df result : list PricedItem) :
  convert_price_for_uom' df = Ok result →
  length result = length df ∧
  (∀ i row, df !! i = Some row →
     ∃ row', result !! i = Some row' ∧ units row' = units row ∧
             Initial_Price row' = Initial_Price row) ∧
  (∀ df2, (λ r, (units r, Initial_Price r)) <$> df2 = (λ r, (units r, Initial_Price r)) <$> df →
          convert_price_for_uom' df2 = Ok result) ∧
  convert_price_for_uom' result = Ok result.
Proof.
  intros Hres.
  assert (∀ row, row ∈ df → known' (units row)) as Hknown
    by (apply convert_price_for_uom_known; by rewrite Hres).
  destruct (convert_price_for_uom_all lower mass_conversion_rates df Hknown)
    as (result' & Hres' & Hlen & Hrows).
  rewrite Hres in Hres'. injection Hres' as <-.
  assert (∀ df2,
            (λ r, (units r, Initial_Price r)) <$> df2 = (λ r, (units r, Initial_Price r)) <$> df →
            convert_price_for_uom' df2 = Ok result) as Hsame.
  { intros df2 Hcols.
    assert (∀ i row2, df2 !! i = Some row2 →
              ∃ row, df !! i = Some row ∧ units row2 = units row ∧
                     Initial_Price row2 = Initial_Price row) as Hrow2.
    { intros i row2 Hi.
      assert (((λ r, (units r, Initial_Price r)) <$> df) !! i
              = Some (units row2, Initial_Price row2)) as Hc
        by (by rewrite <- Hcols, list_lookup_fmap, Hi).
      rewrite list_lookup_fmap in Hc. destruct (df !! i) as [row|]; [| done].
      exists row. split; [done |]. simpl in Hc. split; congruence. }
    assert (∀ row2, row2 ∈ df2 → known' (units row2)) as Hknown2.
    { intros row2 Hin. apply list_elem_of_lookup in Hin as [i Hi].
      destruct (Hrow2 i row2 Hi) as (row & Hrow & -> & _).
      apply Hknown. by eapply list_elem_of_lookup_2. }
    destruct (convert_price_for_uom_all lower mass_conversion_rates df2 Hknown2)
      as (result2 & -> & Hlen2 & Hrows2).
    f_equal. apply list_eq. intros i.
    destruct (df2 !! i) as [row2|] eqn:Hi.
    - destruct (Hrow2 i row2 Hi) as (row & Hrow & Hu & Hp).
      destruct (Hrows2 i row2 Hi) as (fi2 & ff2 & Hfi2 & Hff2 & ->).
      destruct (Hrows i row Hrow) as (fi & ff & Hfi & Hff & ->).
      injection Hu as Hiu Hfu. rewrite Hiu in Hfi2. rewrite Hfu in Hff2.
      rewrite Hfi in Hfi2. rewrite Hff in Hff2. injection Hfi2 as <-. injection Hff2 as <-.
      f_equal. apply converted_row; [unfold units; congruence | done].
    - assert (length df2 = length df) as Hl
        by (apply (f_equal length) in Hcols; by rewrite !length_fmap in Hcols).
      apply lookup_ge_None in Hi.
      rewrite (proj2 (lookup_ge_None result2 i)) by lia.
      rewrite (proj2 (lookup_ge_None result i)) by lia. done. }
  split; [done |]. split; [| split; [done |]].
  - intros i row Hrow. destruct (Hrows i row Hrow) as (fi & ff & _ & _ & ->).
    eexists. split; [done |]. by destruct row.
  - apply Hsame. apply list_eq. intros i. rewrite !list_lookup_fmap.
    destruct (df !! i) as [row|] eqn:Hi.
    + destruct (Hrows i row Hi) as (fi & ff & _ & _ & ->). simpl. by destruct row.
    + apply lookup_ge_None in Hi.
      rewrite (proj2 (lookup_ge_None result i)) by lia. done.
Qed.

(** X23.  Units are matched without regard to letter case, whatever
    function [lower] is (Python's [str.lower] among them): in a successful
    conversion, two rows whose initial units agree in lower case, whose
    final units agree in lower case and whose initial prices are the same
    come out with the same [UOM Converted Price], even though rows that
    spell a unit differently are converted in different turns of the
    loop. *)
Theorem uom_units_case_insensitive (df result : list PricedItem) (i j : nat)
    (row_i row_j : PricedItem) :
  convert_price_for_uom' df = Ok result →
  df !! i = Some row_i → df !! j = Some row_j →
  lower (Initial_Unit row_i) = lower (Initial_Unit row_j) →
  lower (Final_Unit row_i) = lower (Final_Unit row_j) →
  Initial_Price row_i = Initial_Price row_j →
  UOM_Converted_Price <$> result !! i = UOM_Converted_Price <$> result !! j.
Proof.
  intros Hres Hi Hj Hiu Hfu Hp.
  assert (∀ row, row ∈ df → known' (units row)) as Hknown
    by (apply convert_price_for_uom_known; by rewrite Hres).
  destruct (convert_price_for_uom_all lower mass_conversion_rates df Hknown)
    as (result' & Hres' & _ & Hrows).
  rewrite Hres in Hres'. injection Hres' as <-.
  destruct (Hrows i row_i Hi) as (fi & ff & Hfi & Hff & ->).
  destruct (Hrows j row_j Hj) as (fi' & ff' & Hfi' & Hff' & ->).
  rewrite Hiu, Hfi' in Hfi. rewrite Hfu, Hff' in Hff.
  injection Hfi as <-. injection Hff as <-.
  unfold set_uom, via_SI. simpl. by rewrite Hp.
Qed.

End UomMore.

(** *** The further converter properties on the table of the examples *)

Example uom_unknown_unit_example :
  convert_price_for_uom example_lower rates [mkItem "kg" "lb" 10 nan; mkItem "kg" "stone" 1 0]
  = Raise (KeyError "stone").
Proof. vm_compute. reflexivity. Qed.

Lemma uom_conversion_stable_witness :
  ∃ result,
    convert_price_for_uom example_lower rates priced = Ok result ∧
    length result = length priced ∧
    (∀ i row, priced !! i = Some row →
       ∃ row', result !! i = Some row' ∧ units row' = units row ∧
               Initial_Price row' = Initial_Price row) ∧
    (∀ df2, (λ r, (units r, Initial_Price r)) <$> df2
            = (λ r, (units r, Initial_Price r)) <$> priced →
            convert_price_for_uom example_lower rates df2 = Ok result) ∧
    convert_price_for_uom example_lower rates result = Ok result.
Proof.
  eexists. split; [vm_compute; reflexivity |].
  apply (uom_conversion_stable example_lower rates priced). vm_compute. reflexivity.
Defined.

Lemma uom_units_case_insensitive_witness :
  ∃ result,
    convert_price_for_uom example_lower rates [mkItem "kg" "lb" 10 nan; mkItem "KG" "LB" 10 0] = Ok result ∧
    UOM_Converted_Price <$> result !! 0%nat = UOM_Converted_Price <$> result !! 1%nat.
Proof.
  eexists. split; [vm_compute; reflexivity |].
  apply (uom_units_case_insensitive example_lower rates [mkItem "kg" "lb" 10 nan; mkItem "KG" "LB" 10 0]
           _ 0 1 (mkItem "kg" "lb" 10 nan) (mkItem "KG" "LB" 10 0));
    reflexivity || (vm_compute; reflexivity).
Defined.

(** ** The currency converter *)

Section CurrencyFacts.

Variable get_conversion_rate : nat → string → string → Z → Z → result float.

Local Abbreviation rate_call' := (Currency.rate_call get_conversion_rate).
Local Abbreviation currency_pass' := (Currency.currency_pass get_conversion_rate).
Local Abbreviation currency_loop' := (Currency.currency_loop get_conversion_rate).
Local Abbreviation convert_price_for_currency' :=
  (Currency.convert_price_for_currency get_conversion_rate).

Lemma currency_mask_combo c row :
  Currency.combo_mask c.1.1 c.1.2 c.2 row = true ↔ Currency.combo row = c.
Proof.
  destruct c as [[ic fc] d]. unfold Currency.combo_mask, Currency.combo. simpl.
  rewrite !andb_true_iff, !bool_decide_eq_true.
  split; [intros [[-> ->] ->]; done | intros [= -> -> ->]; done].
Qed.

(** What one turn makes of a row. *)
Lemma currency_pass_unfold calls c df :
  currency_pass' calls c df =
    result_bind (rate_call' calls c) (λ rate,
      Ok ((λ r, Currency.set_price
                  (if bool_decide (Currency.combo r = c) then Currency.set_rate r rate else r))
            <$> df)).
Proof.
  destruct c as [[ic fc] d]. unfold Currency.currency_pass, Currency.rate_call. simpl.
  destruct (get_conversion_rate calls ic fc (date_year d) (date_month d)) as [rate|e];
    simpl; [| done].
  f_equal. rewrite <- list_fmap_compose. apply list_fmap_ext. intros i r _. simpl.
  f_equal. case_bool_decide as Hc.
  - pose proof (proj2 (currency_mask_combo (ic, fc, d) r) Hc) as Hm. simpl in Hm.
    by rewrite Hm.
  - destruct (Currency.combo_mask ic fc d r) eqn:Hm; [| done].
    exfalso. apply Hc. by apply (currency_mask_combo (ic, fc, d) r).
Qed.

Lemma currency_loop_cons calls c rest df :
  currency_loop' calls (c :: rest) df
  = result_bind (currency_pass' calls c df) (currency_loop' (S calls) rest).
Proof. reflexivity. Qed.

(** The loop over combinations that are pairwise distinct, entered after
    [calls] calls. *)
Lemma currency_loop_Ok calls combos df df' :
  NoDup combos → currency_loop' calls combos df = Ok df' →
  length df' = length df ∧
  ∀ i row, df !! i = Some row →
    ∃ row', df' !! i = Some row' ∧
      Currency.combo row' = Currency.combo row ∧
      Currency.UOM_Converted_Price row' = Currency.UOM_Converted_Price row ∧
      (combos = [] → row' = row) ∧
      (combos ≠ [] →
       Currency.Price row'
       = PrimFloat.mul (Currency.Conversion_Rate row') (Currency.UOM_Converted_Price row')) ∧
      (Currency.combo row ∉ combos →
       Currency.Conversion_Rate row' = Currency.Conversion_Rate row) ∧
      (∀ k, combos !! k = Some (Currency.combo row) →
            rate_call' (calls + k) (Currency.combo row) = Ok (Currency.Conversion_Rate row')).
Proof.
  revert calls df. induction combos as [|c rest IH]; intros calls df Hnd.
  - intros [= <-]. split; [done |]. intros i row Hrow. exists row.
    repeat split; try done; intros k Hk; by rewrite lookup_nil in Hk.
  - apply NoDup_cons in Hnd as [Hc Hnd].
    rewrite currency_loop_cons, currency_pass_unfold.
    destruct (rate_call' calls c) as [rate|e] eqn:Hcall; simpl; [| done].
    intros Hloop. destruct (IH _ _ Hnd Hloop) as [Hlen Hrows].
    rewrite length_fmap in Hlen. split; [done |].
    intros i row Hrow.
    set (row1 := Currency.set_price
                   (if bool_decide (Currency.combo row = c)
                    then Currency.set_rate row rate else row)).
    destruct (Hrows i row1) as (row' & Hi & Hcombo & Huom & Hnil & Hprice & Hkeep & Hrate).
    { by rewrite list_lookup_fmap, Hrow. }
    assert (Currency.combo row1 = Currency.combo row ∧
            Currency.UOM_Converted_Price row1 = Currency.UOM_Converted_Price row ∧
            Currency.Price row1
            = PrimFloat.mul (Currency.Conversion_Rate row1)
                (Currency.UOM_Converted_Price row1) ∧
            Currency.Conversion_Rate row1
            = (if bool_decide (Currency.combo row = c) then rate
               else Currency.Conversion_Rate row)) as (H1c & H1u & H1p & H1r).
    { unfold row1. by case_bool_decide. }
    exists row'. split; [done |]. split; [congruence |]. split; [congruence |].
    split; [done |]. split; [| split].
    + intros _. destruct rest as [|c2 rest2].
      * rewrite (Hnil eq_refl). exact H1p.
      * by apply Hprice.
    + intros Hnotin. rewrite Hkeep, H1r.
      * rewrite bool_decide_eq_false_2; [done |]. intros <-. apply Hnotin. by left.
      * rewrite H1c. intros Hin. apply Hnotin. by right.
    + intros [|k] Hk.
      * injection Hk as Hc0. rewrite Nat.add_0_r, <- Hc0, Hcall. f_equal.
        rewrite Hkeep, H1r; [by rewrite bool_decide_eq_true_2 | by rewrite H1c, <- Hc0].
      * rewrite <- Nat.add_succ_comm. rewrite <- H1c. apply Hrate. by rewrite H1c.
Qed.

Lemma unique_currency_combos_NoDup df : NoDup (Currency.unique_currency_combos df).
Proof.
  unfold Currency.unique_currency_combos.
  rewrite <- (list_fmap_id (Pd.drop_duplicates id _)). apply drop_duplicates_NoDup.
Qed.

(** X17.  On success the currency converter keeps the number and order of
    the rows, and every row comes back as it went in but for two columns:
    its conversion rate is the rate that [get_conversion_rate] gave for the
    row's own (initial currency, final currency, date) combination, asked
    with the year and the month of the date in the turn of that
    combination among the distinct combinations, and its price is that rate
    times its [UOM Converted Price]. *)
Theorem currency_conversion_per_row (df result : list Currency.Item) :
  convert_price_for_currency' df = Ok result →
  length result = length df ∧
  ∀ i row, df !! i = Some row →
    ∃ k rate,
      Currency.unique_currency_combos df !! k = Some (Currency.combo row) ∧
      rate_call' k (Currency.combo row) = Ok rate ∧
      result !! i = Some (Currency.set_price (Currency.set_rate row rate)).
Proof.
  unfold Currency.convert_price_for_currency. intros Hres.
  destruct (currency_loop_Ok 0 _ df result (unique_currency_combos_NoDup df) Hres)
    as [Hlen Hrows].
  split; [done |]. intros i row Hrow.
  destruct (Hrows i row Hrow) as (row' & Hi & Hcombo & Huom & _ & Hprice & _ & Hrate).
  assert (Currency.combo row ∈ Currency.unique_currency_combos df) as Hin.
  { apply (drop_duplicates_complete id); [done |]. apply list_elem_of_fmap_2.
    by eapply list_elem_of_lookup_2. }
  apply list_elem_of_lookup in Hin as [k Hk].
  exists k, (Currency.Conversion_Rate row'). split; [done |].
  split; [by apply Hrate |]. rewrite Hi. f_equal.
  assert (Currency.unique_currency_combos df ≠ []) as Hne
    by (intros Hnil; by rewrite Hnil, lookup_nil in Hk).
  specialize (Hprice Hne).
  destruct row, row'. unfold Currency.combo, Currency.set_price, Currency.set_rate in *.
  simpl in *. injection Hcombo as -> -> ->. by subst.
Qed.

(** The loop stops at the first call that raises. *)
Lemma currency_loop_raises calls combos df :
  ((∀ k c, combos !! k = Some c → is_ok (rate_call' (calls + k) c) = true) →
   is_ok (currency_loop' calls combos df) = true) ∧
  (∀ k c e, combos !! k = Some c → rate_call' (calls + k) c = Raise e →
     (∀ j c', (j < k)%nat → combos !! j = Some c' →
              is_ok (rate_call' (calls + j) c') = true) →
     currency_loop' calls combos df = Raise e).
Proof.
  revert calls df. induction combos as [|c rest IH]; intros calls df.
  - split; [done |]. intros k c e Hk. by rewrite lookup_nil in Hk.
  - rewrite currency_loop_cons, currency_pass_unfold. split.
    + intros Hall. pose proof (Hall 0%nat c eq_refl) as H0. rewrite Nat.add_0_r in H0.
      destruct (rate_call' calls c) as [rate|e]; [| done]. simpl.
      apply IH. intros k c' Hk. rewrite Nat.add_succ_comm. by apply Hall.
    + intros [|k] c' e Hk Hraise Hbefore.
      * injection Hk as <-. rewrite Nat.add_0_r in Hraise. by rewrite Hraise.
      * pose proof (Hbefore 0%nat c ltac:(lia) eq_refl) as H0. rewrite Nat.add_0_r in H0.
        destruct (rate_call' calls c) as [rate|e0]; [| done]. simpl.
        apply (proj2 (IH (S calls) _) k c' e); [done | by rewrite Nat.add_succ_comm |].
        intros j c2 Hj Hc2. rewrite Nat.add_succ_comm. apply Hbefore; [lia | done].
Qed.

(** X18.  The currency converter asks [get_conversion_rate] once for each
    distinct (initial currency, final currency, date) combination, in the
    order of first occurrence, and fails only through it: when every call
    gives a rate the conversion succeeds, and when a call raises after the
    calls before it gave rates, the conversion raises that same exception. *)
Theorem currency_conversion_raises (df : list Currency.Item) :
  let combos := Currency.unique_currency_combos df in
  ((∀ k c, combos !! k = Some c → is_ok (rate_call' k c) = true) →
   is_ok (convert_price_for_currency' df) = true) ∧
  (∀ k c e, combos !! k = Some c → rate_call' k c = Raise e →
     (∀ j c', (j < k)%nat → combos !! j = Some c' → is_ok (rate_call' j c') = true) →
     convert_price_for_currency' df = Raise e).
Proof.
  intros combos. unfold Currency.convert_price_for_currency. fold combos.
  destruct (currency_loop_raises 0 combos df) as [Hok Hraise].
  split; [exact Hok |]. intros k c e. apply Hraise.
Qed.

End CurrencyFacts.

(** *** The currency converter on a concrete table *)

Lemma currency_conversion_per_row_witness :
  ∃ result,
    Currency.convert_price_for_currency monthly items = Ok result ∧
    length result = length items ∧
    ∀ i row, items !! i = Some row →
      ∃ k rate,
        Currency.unique_currency_combos items !! k = Some (Currency.combo row) ∧
        Currency.rate_call monthly k (Currency.combo row) = Ok rate ∧
        result !! i = Some (Currency.set_price (Currency.set_rate row rate)).
Proof.
  eexists. split; [vm_compute; reflexivity |].
  apply (currency_conversion_per_row monthly items). vm_compute. reflexivity.
Defined.

(** Two rows of one combination and a row of another: two calls, and each
    row is priced with the rate of its own combination. *)
Example items_converted :
  Currency.convert_price_for_currency monthly items
  = Ok [Currency.mkItem "EUR" "USD" (mkDate 2023 5 1) 10 2 20;
        Currency.mkItem "GBP" "USD" (mkDate 2023 5 1) 4 1.5 6;
        Currency.mkItem "EUR" "USD" (mkDate 2023 5 1) 3 2 6].
Proof. vm_compute. reflexivity. Qed.

(** A currency the source does not know: the exception of the source leaves
    the converter. *)
Example items_unknown_currency :
  Currency.convert_price_for_currency monthly
    (items ++ [Currency.mkItem "JPY" "USD" (mkDate 2023 5 1) 1 nan nan])
  = Raise (KeyError "JPY").
Proof. vm_compute. reflexivity. Qed.

(** ** The historical file over a whole run *)

Section HistoryOverRun.

Variable disk : nat → option exn.
Variable data_path : string.
Variables current_year current_month : Z.
Variable net : nat → option string.
Variable parse_float : string → option float.

Local Abbreviation writing_all_file' := (writing_all_file disk data_path current_year current_month).
Local Abbreviation process_row' :=
  (process_row disk data_path current_year current_month net parse_float).
Local Abbreviation for_rows' := (for_rows disk data_path current_year current_month net parse_float).
Local Abbreviation main' := (main disk data_path current_year current_month net parse_float).
Local Abbreviation persisted' := (persisted data_path).

(** A merge leaves the sheets of the other currencies in the historical
    file as they were. *)
Lemma persisted_other w df product product' :
  product' ≠ product →
  persisted' product' (writing_all_file' df product w).1 = persisted' product' w.
Proof.
  intros Hne. unfold persisted.
  destruct (writing_all_file_steps disk data_path current_year current_month w df product)
    as [Hsteps _].
  by apply (merge_steps_other _ _ _ _ _ _ Hsteps).
Qed.

(** What a world with the same rate workbooks keeps. *)
Lemma persisted_same_files w w' product :
  files w' = files w → persisted' product w' = persisted' product w.
Proof. intros Hf. unfold persisted. by rewrite Hf. Qed.

(** A merge keeps the sheets of the historical file, and keeps them
    sorted. *)
Lemma writing_all_file_history w df product :
  (history_sorted data_path w →
   history_sorted data_path (writing_all_file' df product w).1) ∧
  (∀ s, is_Some (persisted' s w) → is_Some (persisted' s (writing_all_file' df product w).1)).
Proof.
  split.
  - intros Hs s t Ht. destruct (decide (s = product)) as [-> | Hne].
    + destruct (persisted_after_Sorted disk data_path current_year current_month w df product)
        as [Hsame | (t' & Ht' & Hsorted)]; [| congruence].
      rewrite Hsame in Ht. by eapply Hs.
    + rewrite persisted_other in Ht by done. by eapply Hs.
  - intros s Hsome. destruct (decide (s = product)) as [-> | Hne].
    + destruct (persisted_after_Sorted disk data_path current_year current_month w df product)
        as [Hsame | (t' & Ht' & _)]; [by rewrite Hsame | by eexists].
    + by rewrite persisted_other.
Qed.

Lemma process_row_history row c w :
  (history_sorted data_path w → history_sorted data_path (process_row' row c w).1) ∧
  (∀ s, is_Some (persisted' s w) → is_Some (persisted' s (process_row' row c w).1)).
Proof.
  unfold process_row. case_bool_decide as Husd; [done |].
  unfold bind, while_years.
  pose proof (year_loop_inv net parse_float (Z.to_nat (current_year + 1 - Fetched_Year row))
                (Initial_Currency row) (Fetched_Year row) (lists_of c) [] w) as (Hf & _).
  destruct (year_loop net parse_float (Z.to_nat (current_year + 1 - Fetched_Year row))
              (Initial_Currency row) (Fetched_Year row) (lists_of c) [] w)
    as [w1 [[lists1 data1]|e]]; cbn [fst] in *.
  - assert (history_sorted data_path w → history_sorted data_path w1) as Hs1.
    { intros Hs s t. rewrite (persisted_same_files w w1 s Hf). apply Hs. }
    assert (∀ s, is_Some (persisted' s w) → is_Some (persisted' s w1)) as Hk1.
    { intros s. by rewrite (persisted_same_files w w1 s Hf). }
    destruct data1 as [|r0 data0]; [done |].
    set (df := r0 :: data0).
    destruct (py_max_spec (Month <$> df)) as (m & Hm & _); [done |].
    destruct (py_max_spec (Year <$> df)) as (y & Hy & _); [done |].
    unfold lift. rewrite Hm, Hy.
    destruct (writing_all_file_history w1 df (Initial_Currency row)) as [Hs2 Hk2].
    destruct (writing_all_file' df (Initial_Currency row) w1) as [w2 [[]|e]]; cbn [fst] in *.
    + split; [intros Hs; by apply Hs2, Hs1 | intros s Hsome; by apply Hk2, Hk1].
    + split; [intros Hs; by apply Hs2, Hs1 | intros s Hsome; by apply Hk2, Hk1].
  - split.
    + intros Hs s t. rewrite (persisted_same_files w w1 s Hf). apply Hs.
    + intros s. by rewrite (persisted_same_files w w1 s Hf).
Qed.

Lemma for_rows_history rows c w :
  (history_sorted data_path w → history_sorted data_path (for_rows' rows c w).1) ∧
  (∀ s, is_Some (persisted' s w) → is_Some (persisted' s (for_rows' rows c w).1)).
Proof.
  revert c w. induction rows as [|row rest IH]; intros c w; [done |].
  change (for_rows' (row :: rest) c w)
    with (bind (process_row' row c) (λ c, for_rows' rest c) w).
  unfold bind. destruct (process_row_history row c w) as [Hs1 Hk1].
  destruct (process_row' row c w) as [w1 [c1|e]]; cbn [fst] in *; [| done].
  destruct (IH c1 w1) as [Hs2 Hk2].
  split; [intros Hs; by apply Hs2, Hs1 | intros s Hsome; by apply Hk2, Hk1].
Qed.

(** X19.  A run keeps the historical file in order: when every sheet of
    the historical file is in descending order of (year, month) before the
    run, every sheet is after it, whether the run returns normally or
    raises; and no sheet the file had is missing afterwards. *)
Theorem run_keeps_history_sorted (input_df : list InputRow) (w : World) :
  history_sorted data_path w →
  history_sorted data_path (main' input_df w).1 ∧
  (∀ s, is_Some (persisted' s w) → is_Some (persisted' s (main' input_df w).1)).
Proof.
  intros Hs. rewrite main_unfold.
  destruct (for_rows_history input_df (mkCarry [] ∅ ∅) w) as [Hs1 Hk1].
  destruct (for_rows' input_df (mkCarry [] ∅ ∅) w) as [w1 [c|e]]; cbn [fst] in *;
    [| split; [by apply Hs1 | done]].
  destruct ((size (max_years c) =? 0)%nat || (size (max_month c) =? 0)%nat);
    [split; [by apply Hs1 | done] |].
  unfold update_input_file, touch_excel_inputs.
  destruct (write_outcome disk (writes w1)); cbn [fst].
  { split; [intros s t Ht; apply (Hs1 Hs s t); exact Ht | intros s Hsome; apply (Hk1 s Hsome)]. }
  split.
  - intros s t Ht. apply (Hs1 Hs s t). exact Ht.
  - intros s Hsome. apply (Hk1 s Hsome).
Qed.

End HistoryOverRun.

Lemma run_keeps_history_sorted_witness :
  history_sorted "data" (main sound "data" 2023 6 up example_float tracked (with_history history)).1 ∧
  (∀ s, is_Some (persisted "data" s (with_history history)) →
        is_Some (persisted "data" s
                   (main sound "data" 2023 6 up example_float tracked (with_history history)).1)).
Proof.
  apply (run_keeps_history_sorted sound "data" 2023 6 up example_float tracked (with_history history)).
  intros product t Ht. unfold persisted, with_history in Ht. cbn [files] in Ht.
  change (hist_file "data") with "data/All-Xrates-Data.xlsx" in Ht.
  rewrite lookup_singleton_eq in Ht. simpl in Ht.
  destruct (decide (product = "EUR")) as [-> | Hne].
  - rewrite lookup_singleton_eq in Ht. injection Ht as <-.
    unfold history. repeat constructor.
  - rewrite lookup_singleton_ne in Ht by done. discriminate.
Defined.

(** ** The informative columns *)

Section FrameFacts.

Context {Label Value : Type} `{EqDecision Label}.
Variable NaN : Value.

Local Abbreviation rename := (str_replace "Current" "Initial").

(** [add_informative_columns] is the loop of its nine calls. *)
Lemma add_informative_columns_loop (df input_df : Frame Label Value) :
  add_informative_columns NaN df input_df
  = map_columns NaN informative_columns df input_df df.
Proof. reflexivity. Qed.

(** The names of the columns that come out. *)
Lemma informative_columns_renamed :
  rename <$> informative_columns
  = ["Location"; "Initial Currency"; "Final Currency"; "Initial Quantity"; "Initial Unit";
     "Final Quantity"; "Final Unit"; "Density"; "Upload on PR"].
Proof. reflexivity. Qed.

Lemma create_mapped_column_Ok col (df mapped_df mapping_df : Frame Label Value) series :
  length (index mapped_df) = length (index df) →
  columns mapping_df !! col = Some series →
  create_mapped_column NaN col df mapped_df mapping_df
  = Ok (mkFrame (index df)
          (<[ rename col := joined NaN mapped_df mapping_df series ]> (columns df))).
Proof.
  intros Hlen Hcol. unfold create_mapped_column, Py.getitem. rewrite Hcol. simpl.
  unfold setitem, joined, index_map. rewrite length_fmap.
  by rewrite bool_decide_eq_true_2.
Qed.

Lemma create_mapped_column_missing col (df mapped_df mapping_df : Frame Label Value) :
  columns mapping_df !! col = None →
  create_mapped_column NaN col df mapped_df mapping_df = Raise (KeyError col).
Proof. intros Hcol. unfold create_mapped_column, Py.getitem. by rewrite Hcol. Qed.

(** The loop on columns that the input frame has. *)
Lemma map_columns_Ok cols (df_copy input_df df df' : Frame Label Value) :
  length (index df_copy) = length (index df) →
  NoDup (rename <$> cols) →
  map_columns NaN cols df_copy input_df df = Ok df' →
  index df' = index df ∧
  (∀ col, col ∈ cols →
     ∃ series, columns input_df !! col = Some series ∧
               columns df' !! rename col = Some (joined NaN df_copy input_df series)) ∧
  (∀ name, name ∉ rename <$> cols → columns df' !! name = columns df !! name).
Proof.
  revert df. induction cols as [|col rest IH]; intros df Hlen Hnd.
  - intros [= <-]. split; [done |]. split; [| done].
    intros col Hcol. by apply elem_of_nil in Hcol.
  - rewrite fmap_cons in Hnd. apply NoDup_cons in Hnd as [Hcol Hnd].
    change (map_columns NaN (col :: rest) df_copy input_df df)
      with (result_bind (create_mapped_column NaN col df df_copy input_df)
              (map_columns NaN rest df_copy input_df)).
    destruct (columns input_df !! col) as [series|] eqn:Hseries.
    + rewrite (create_mapped_column_Ok col df df_copy input_df series Hlen Hseries).
      simpl. intros Hrest.
      destruct (IH (mkFrame (index df)
                      (<[ rename col := joined NaN df_copy input_df series ]> (columns df)))
                  Hlen Hnd Hrest) as (Hidx & Hcols & Hother).
      split; [done |]. split.
      * intros c Hc. apply elem_of_cons in Hc as [-> | Hc]; [| by apply Hcols].
        exists series. split; [done |].
        rewrite (Hother _ Hcol). simpl. apply lookup_insert_eq.
      * intros name Hname. try rewrite fmap_cons in Hname.
        apply not_elem_of_cons in Hname as [Hne Hname].
        rewrite (Hother _ Hname). simpl. by rewrite lookup_insert_ne.
    + by rewrite (create_mapped_column_missing col df df_copy input_df Hseries).
Qed.

(** The loop stops at the first column the input frame lacks. *)
Lemma map_columns_missing cols (df_copy input_df df : Frame Label Value) :
  length (index df_copy) = length (index df) →
  (Forall (λ col, is_Some (columns input_df !! col)) cols ∧
   is_ok (map_columns NaN cols df_copy input_df df) = true) ∨
  (∃ col, col ∈ cols ∧ columns input_df !! col = None ∧
          map_columns NaN cols df_copy input_df df = Raise (KeyError col)).
Proof.
  revert df. induction cols as [|col rest IH]; intros df Hlen.
  - left. split; [constructor | done].
  - change (map_columns NaN (col :: rest) df_copy input_df df)
      with (result_bind (create_mapped_column NaN col df df_copy input_df)
              (map_columns NaN rest df_copy input_df)).
    destruct (columns input_df !! col) as [series|] eqn:Hseries.
    + rewrite (create_mapped_column_Ok col df df_copy input_df series Hlen Hseries).
      simpl.
      destruct (IH (mkFrame (index df)
                      (<[ rename col := joined NaN df_copy input_df series ]> (columns df))) Hlen)
        as [[Hall Hok] | (c & Hc & Hnone & Hraise)].
      * left. split; [constructor; [by rewrite Hseries | done] | done].
      * right. exists c. split; [by right | done].
    + right. exists col. split; [by left |]. split; [done |].
      by rewrite (create_mapped_column_missing col df df_copy input_df Hseries).
Qed.

Lemma informative_columns_NoDup : NoDup (rename <$> informative_columns).
Proof. rewrite informative_columns_renamed. apply (bool_decide_unpack _). vm_compute. exact I. Qed.

(** X20.  On success [add_informative_columns] returns the frame with its
    index as it was and nine columns set: for each of the nine column names
    it maps, the column of that name with [Current] replaced by [Initial]
    holds, for each row, the value that the input frame has in that column
    under the row's index label (the last one if the label is repeated, NaN
    if the input frame has no such label); every column of another name is
    as it was. *)
Theorem informative_columns_joined (df input_df df' : Frame Label Value) :
  add_informative_columns NaN df input_df = Ok df' →
  index df' = index df ∧
  (∀ col, col ∈ informative_columns →
     ∃ series, columns input_df !! col = Some series ∧
               columns df' !! rename col = Some (joined NaN df input_df series)) ∧
  (∀ name,
     name ∉ ["Location"; "Initial Currency"; "Final Currency"; "Initial Quantity";
             "Initial Unit"; "Final Quantity"; "Final Unit"; "Density"; "Upload on PR"] →
     columns df' !! name = columns df !! name).
Proof.
  rewrite add_informative_columns_loop. intros Hrun.
  rewrite <- informative_columns_renamed.
  apply (map_columns_Ok informative_columns df input_df df df' eq_refl
           informative_columns_NoDup Hrun).
Qed.

(** X21.  [add_informative_columns] succeeds exactly when the input frame
    has all of the nine columns it maps; otherwise it raises [KeyError] with
    the name of a column the input frame lacks, and it never fails on the
    lengths of the columns it assigns. *)
Theorem informative_columns_missing (df input_df : Frame Label Value) :
  (is_ok (add_informative_columns NaN df input_df) = true ↔
   ∀ col, col ∈ informative_columns → is_Some (columns input_df !! col)) ∧
  (∀ e, add_informative_columns NaN df input_df = Raise e →
        ∃ col, col ∈ informative_columns ∧ columns input_df !! col = None ∧
               e = KeyError col).
Proof.
  rewrite add_informative_columns_loop.
  destruct (map_columns_missing informative_columns df input_df df eq_refl)
    as [[Hall Hok] | (col & Hcol & Hnone & Hraise)].
  - split; [split |].
    + intros _. by apply Forall_forall.
    + done.
    + intros e He. rewrite He in Hok. discriminate.
  - split; [split |].
    + rewrite Hraise. discriminate.
    + intros Hall. destruct (Hall col Hcol) as [series Hs]. congruence.
    + intros e He. rewrite Hraise in He. injection He as <-. by exists col.
Qed.

(** Looking a label up in the dictionary of a column. *)
Lemma dict_get_zip_None (idx : list Label) (series : list Value) k :
  k ∉ idx → dict_get (zip idx series) k = None.
Proof.
  revert series. induction idx as [|k0 idx IH]; intros series Hk; [done |].
  apply not_elem_of_cons in Hk as [Hne Hk].
  destruct series as [|v0 series]; [done |]. simpl.
  rewrite (IH series Hk). destruct (decide (k0 = k)); [congruence | done].
Qed.

(** Over an index without repeated labels, a column looked up through its
    own index is the column itself. *)
Lemma index_map_own (idx : list Label) (series : list Value) :
  NoDup idx → length series = length idx →
  index_map NaN idx (zip idx series) = series.
Proof.
  revert series. induction idx as [|k0 idx IH]; intros series Hnd Hlen.
  - by destruct series.
  - destruct series as [|v0 series]; [done |].
    apply NoDup_cons in Hnd as [Hk0 Hnd]. simpl in Hlen.
    unfold index_map. rewrite fmap_cons. simpl.
    rewrite (dict_get_zip_None idx series k0 Hk0).
    destruct (decide (k0 = k0)) as [_ | Hne]; [| done]. simpl. f_equal.
    transitivity (index_map NaN idx (zip idx series)); [| apply IH; [done | lia]].
    unfold index_map. apply list_fmap_ext. intros i k Hi.
    destruct (dict_get (zip idx series) k) as [v|] eqn:Hget; [done |].
    destruct (decide (k0 = k)) as [-> | _]; [| done].
    exfalso. apply Hk0. by eapply list_elem_of_lookup_2.
Qed.

(** X22.  On two frames with the same index, free of repeated labels, the
    join is the identity: the nine columns [add_informative_columns] sets
    are the columns of the input frame themselves, under the names with
    [Current] replaced by [Initial]. *)
Theorem informative_columns_aligned (df input_df df' : Frame Label Value) :
  index df = index input_df → NoDup (index input_df) → well_formed input_df →
  add_informative_columns NaN df input_df = Ok df' →
  ∀ col, col ∈ informative_columns →
    is_Some (columns input_df !! col) ∧
    columns df' !! rename col = columns input_df !! col.
Proof.
  intros Hidx Hnd Hwf. rewrite add_informative_columns_loop. intros Hrun col Hcol.
  destruct (map_columns_Ok informative_columns df input_df df df' eq_refl
              informative_columns_NoDup Hrun) as (_ & Hcols & _).
  destruct (Hcols col Hcol) as (series & Hs & Hjoined).
  split; [by eexists |]. rewrite Hjoined, Hs. f_equal.
  unfold joined, to_dict. rewrite Hidx. apply index_map_own; [done |].
  by apply (Hwf col).
Qed.

End FrameFacts.

(** *** The informative columns on concrete frames *)

Lemma informative_columns_joined_witness :
  ∃ df',
    add_informative_columns "NaN" price_table input_table = Ok df' ∧
    index df' = index price_table ∧
    (∀ col, col ∈ informative_columns →
       ∃ series, columns input_table !! col = Some series ∧
                 columns df' !! str_replace "Current" "Initial" col
                 = Some (joined "NaN" price_table input_table series)) ∧
    (∀ name,
       name ∉ ["Location"; "Initial Currency"; "Final Currency"; "Initial Quantity";
               "Initial Unit"; "Final Quantity"; "Final Unit"; "Density"; "Upload on PR"] →
       columns df' !! name = columns price_table !! name).
Proof.
  eexists. split; [vm_compute; reflexivity |].
  apply (informative_columns_joined "NaN" price_table input_table). vm_compute. reflexivity.
Defined.

(** Rows labelled 1, 0 and 2 against an input frame labelled 0 and 1: the
    values come by label, and the row whose label the input lacks gets
    NaN. *)
Example price_table_location :
  ∃ df', add_informative_columns "NaN" price_table input_table = Ok df' ∧
         columns df' !! "Location" = Some ["Oslo"; "Pune"; "NaN"] ∧
         columns df' !! "Initial Unit" = Some ["lb"; "kg"; "NaN"] ∧
         columns df' !! "Current Unit" = None.
Proof. eexists. split; [vm_compute; reflexivity |]. by vm_compute. Qed.

Lemma informative_columns_aligned_witness :
  ∃ df',
    add_informative_columns "NaN"
      (mkFrame [0%nat; 1%nat] {[ "Initial Price" := ["10"; "20"] ]}) input_table = Ok df' ∧
    ∀ col, col ∈ informative_columns →
      is_Some (columns input_table !! col) ∧
      columns df' !! str_replace "Current" "Initial" col = columns input_table !! col.
Proof.
  eexists. split; [vm_compute; reflexivity |].
  apply (informative_columns_aligned "NaN"
           (mkFrame [0%nat; 1%nat] {[ "Initial Price" := ["10"; "20"] ]}) input_table).
  - reflexivity.
  - apply (bool_decide_unpack _). vm_compute. exact I.
  - intros name series Hs. unfold input_table in Hs. cbn [columns] in Hs.
    apply elem_of_list_to_map_2 in Hs.
    repeat (apply elem_of_cons in Hs as [[= _ ->] | Hs]; [done |]).
    by apply elem_of_nil in Hs.
  - vm_compute. reflexivity.
Defined.

